(** * ProdCalc: the expression engine of [script.js]

    A shallow embedding of the tokenizer, the shunting-yard converter, the
    RPN evaluator and the number formatter of [script.js], and the
    verification of the engine's specification against it; then the
    calculator around the engine (its commands, keys and history), with
    further properties of both.

    Conventions of the embedding.
    - A JavaScript string is the list of its UTF-16 code units ([jsstring]).
    - A JavaScript number is an IEEE 754 binary64 value: Rocq's primitive
      [float], whose [+ - * /] and [sqrt] are the IEEE operations.
    - [throw new Error(msg)] is the [Throw] outcome of the [result] monad;
      an [error] constructor stands for one message of the source.
    - The arrays used as stacks ([ops], [st]) are lists with the top of
      the stack first; the arrays that are only appended to ([tokens],
      [out]) are lists in array order. *)

From Stdlib Require Import ZArith NArith QArith Qabs Qround Qpower.
From Stdlib Require Import List Sorted Permutation Bool Lia Lqa.
From Stdlib Require Import String Ascii DecimalString Floats.
From Stdlib Require DecimalFacts DecimalPos DecimalN.
Import ListNotations.

Close Scope Q_scope.

Local Open Scope N_scope.

(** ** Strings *)

Definition char := N.
Definition jsstring := list char.

Definition code (a : ascii) : char := N_of_ascii a.
Arguments code a%_char : simpl never.

(** The code units of an ASCII string literal. *)
Definition js (s : string) : jsstring := map N_of_ascii (list_ascii_of_string s).
Arguments js s%_string.

Definition jsstring_eqb (s t : jsstring) : bool :=
  if list_eq_dec N.eq_dec s t then true else false.

(** [while (j < s.length && p(s[j])) j++]: the characters the loop walks
    over, and what is left at [j]. *)
Fixpoint run (p : char -> bool) (s : jsstring) {struct s} : jsstring :=
  match s with
  | [] => []
  | c :: s' => if p c then c :: run p s' else []
  end.

Fixpoint skip (p : char -> bool) (s : jsstring) {struct s} : jsstring :=
  match s with
  | [] => s
  | c :: s' => if p c then skip p s' else s
  end.

(** ** Outcomes *)

Inductive error : Type :=
| InvalidCharacter (c : char)        (* 'Invalid character: ' + c *)
| MismatchedParentheses              (* 'Mismatched parentheses' *)
| UnknownFunction (name : jsstring)  (* 'Unknown function: ' + name *)
| InvalidPercent                     (* 'Invalid percent' *)
| InvalidExpression                  (* 'Invalid expression' *)
| DivideByZero                       (* 'Divide by zero' *)
| UnknownOp (value : char)           (* 'Unknown op ' + value *)
| FuncMissingArg.                    (* 'Func missing arg' *)

(** The message of the thrown [Error]. *)
Definition message (e : error) : jsstring :=
  match e with
  | InvalidCharacter c => js "Invalid character: " ++ [c]
  | MismatchedParentheses => js "Mismatched parentheses"
  | UnknownFunction name => js "Unknown function: " ++ name
  | InvalidPercent => js "Invalid percent"
  | InvalidExpression => js "Invalid expression"
  | DivideByZero => js "Divide by zero"
  | UnknownOp v => js "Unknown op " ++ [v]
  | FuncMissingArg => js "Func missing arg"
  end.

Inductive result (A : Type) : Type :=
| Ok (a : A)
| Throw (e : error).
Arguments Ok {A} a.
Arguments Throw {A} e.

Definition bind {A B : Type} (r : result A) (k : A -> result B) : result B :=
  match r with
  | Ok a => k a
  | Throw e => Throw e
  end.

Notation "x <- r ;; k" := (bind r (fun x => k))
  (at level 61, r at next level, right associativity).

(** ** Tokens *)

Inductive token : Type :=
| num (value : jsstring)   (* {type:'num', value} *)
| op (value : char)        (* {type:'op', value} *)
| func (value : jsstring)  (* {type:'func', value} *)
| percent                  (* {type:'percent'} *)
| lparen                   (* {type:'('} *)
| rparen.                  (* {type:')'} *)

(** ** Character classes *)

(** [/\d/] *)
Definition isDigit (c : char) : bool := (code "0" <=? c) && (c <=? code "9").

(** [/\s/]: the WhiteSpace and LineTerminator code points of ECMAScript,
    which are also what [String.prototype.trim] removes. *)
Definition isWhite (c : char) : bool :=
  ((9 <=? c) && (c <=? 13)) || (c =? 32) || (c =? 160) || (c =? 5760)
  || ((8192 <=? c) && (c <=? 8202)) || (c =? 8232) || (c =? 8233)
  || (c =? 8239) || (c =? 8287) || (c =? 12288) || (c =? 65279).

Definition isOperator (c : char) : bool :=
  existsb (N.eqb c) [code "+"; code "-"; code "*"; code "/"; code "^"].

(** [/[\d.]/] *)
Definition isNumChar (c : char) : bool := isDigit c || (c =? code ".").

(** [/[a-z]/i] and [/[a-z0-9]/i]: without the [u] flag, case-insensitive
    matching never maps a non-ASCII code unit to an ASCII one, so the
    classes are the ASCII letters, and the ASCII letters and digits. *)
Definition isAlpha (c : char) : bool :=
  ((code "a" <=? c) && (c <=? code "z")) || ((code "A" <=? c) && (c <=? code "Z")).

Definition isAlnum (c : char) : bool := isAlpha c || isDigit c.

Definition precedence (o : char) : N :=
  if (o =? code "+") || (o =? code "-") then 1
  else if (o =? code "*") || (o =? code "/") then 2
  else if o =? code "^" then 3
  else 0.

Definition isRightAssoc (o : char) : bool := o =? code "^".

(** ** Tokenizer *)

(** [tokens.length ? tokens[tokens.length-1] : null] *)
Fixpoint prev (tokens : list token) : option token :=
  match tokens with
  | [] => None
  | [t] => Some t
  | _ :: tokens' => prev tokens'
  end.

(** [!prev || prev.type === '(' || prev.type === 'op'] *)
Definition unaryPosition (p : option token) : bool :=
  match p with
  | None => true
  | Some lparen => true
  | Some (op _) => true
  | Some _ => false
  end.

(** The tokens pushed for an operator character [c] (lines 54-59). *)
Definition operatorTokens (c : char) (tokens : list token) : list token :=
  (if ((c =? code "+") || (c =? code "-")) && unaryPosition (prev tokens)
   then [num (js "0")] else [])
  ++ [op c].

(** The [while (i < s.length)] loop, on the suffix of [s] that starts at
    [i] and the tokens pushed so far.  On the two branches that scan a run
    the loop [while (j < s.length && ...) j++] starts at [j = i], and
    [s[i] = c] passes its test there (a digit or a dot is in [/[\d.]/], a
    letter is in [/[a-z0-9]/i]): the run is [c] followed by the longest
    prefix of the rest that passes the test. *)
Fixpoint tokenize_from (s : jsstring) (tokens : list token) {struct s}
  : result (list token) :=
  match s with
  | [] => Ok tokens
  | c :: s' =>
    if isWhite c then tokenize_from s' tokens
    else if isDigit c || (c =? code ".") then
      tokenize_from (skip isNumChar s') (tokens ++ [num (c :: run isNumChar s')])
    else if (c =? code "(") then tokenize_from s' (tokens ++ [lparen])
    else if (c =? code ")") then tokenize_from s' (tokens ++ [rparen])
    else if c =? code "%" then tokenize_from s' (tokens ++ [percent])
    else if isOperator c then tokenize_from s' (tokens ++ operatorTokens c tokens)
    else if isAlpha c then
      tokenize_from (skip isAlnum s') (tokens ++ [func (c :: run isAlnum s')])
    else Throw (InvalidCharacter c)
  end.

Definition tokenize (s : jsstring) : result (list token) := tokenize_from s [].

(** ** Shunting-yard converter *)

(** The test of line 85 on the operator [v] being pushed and the operator
    [w] on top of the stack. *)
Definition yields (v w : char) : bool :=
  (isRightAssoc v && (precedence v <? precedence w))
  || (negb (isRightAssoc v) && (precedence v <=? precedence w)).

(** Lines 83-88: pop to the output while the top is an operator that the
    new operator [v] yields to. *)
Fixpoint popOperators (v : char) (out ops : list token) {struct ops}
  : list token * list token :=
  match ops with
  | op w :: ops' =>
    if yields v w then popOperators v (out ++ [op w]) ops' else (out, ops)
  | _ => (out, ops)
  end.

(** Line 92: pop to the output until the top is a ['(']. *)
Fixpoint popToParen (out ops : list token) {struct ops} : list token * list token :=
  match ops with
  | [] => (out, ops)
  | lparen :: _ => (out, ops)
  | x :: ops' => popToParen (out ++ [x]) ops'
  end.

(** Lines 100-104: empty the stack into the output. *)
Fixpoint drain (out ops : list token) {struct ops} : result (list token) :=
  match ops with
  | [] => Ok out
  | lparen :: _ => Throw MismatchedParentheses
  | rparen :: _ => Throw MismatchedParentheses
  | x :: ops' => drain (out ++ [x]) ops'
  end.

(** The [for (let t of tokens)] loop and what follows it. *)
Fixpoint toRPN_from (tokens out ops : list token) {struct tokens}
  : result (list token) :=
  match tokens with
  | [] => drain out ops
  | t :: rest =>
    match t with
    | num _ => toRPN_from rest (out ++ [t]) ops
    | func _ => toRPN_from rest out (t :: ops)
    | percent => toRPN_from rest (out ++ [t; op (code "%")]) ops
    | op v =>
      let (out', ops') := popOperators v out ops in
      toRPN_from rest out' (t :: ops')
    | lparen => toRPN_from rest out (t :: ops)
    | rparen =>
      let (out', ops') := popToParen out ops in
      match ops' with
      | [] => Throw MismatchedParentheses
      | _ :: func f :: ops'' => toRPN_from rest (out' ++ [func f]) ops''
      | _ :: ops'' => toRPN_from rest out' ops''
      end
    end
  end.

Definition toRPN (tokens : list token) : result (list token) :=
  toRPN_from tokens [] [].

(** ** Numbers *)

Definition digitValue (c : char) : Z := Z.of_N (c - code "0").

Definition digitsValue (ds : jsstring) : Z :=
  fold_left (fun acc c => (10 * acc + digitValue c)%Z) ds 0%Z.

(** The binary64 value nearest to [n / 10^k] (ties to even), for [0 <= n]. *)
Definition decimalToFloat (n : Z) (k : nat) : float :=
  match n with
  | Zpos m =>
    SF2Prim (SFdiv prec emax (S754_finite false m 0)
                   (S754_finite false (Z.to_pos (10 ^ Z.of_nat k)) 0))
  | _ => 0%float
  end.

Definition isEmpty (s : jsstring) : bool :=
  match s with
  | [] => true
  | _ => false
  end.

(** [Number(text)], ECMAScript's StringToNumber, on the texts this program
    applies it to.  A [num] token carries a run of [/[\d.]/] characters or
    the text ['0'] (see [tokenize_from]); on such a text StringToNumber
    reads an unsigned decimal literal [digits], [digits.], [.digits] or
    [digits.digits], whose value is rounded to the nearest binary64, and
    yields NaN for any other arrangement of digits and dots.  The empty
    text yields [+0].  Texts with other characters (signs, exponents,
    radix prefixes, [Infinity], surrounding white space) are outside this
    model, which answers NaN for them. *)
Definition Number (text : jsstring) : float :=
  let ip := run isDigit text in
  match skip isDigit text with
  | [] => decimalToFloat (digitsValue ip) 0
  | c :: rest =>
    let fp := run isDigit rest in
    if (c =? code ".") && isEmpty (skip isDigit rest) && negb (isEmpty ip && isEmpty fp)
    then decimalToFloat (digitsValue (ip ++ fp)) (List.length fp)
    else nan
  end.

(** ** RPN evaluator *)

Section Evaluator.

(** [Math.pow], which ECMAScript leaves implementation-approximated. *)
Variable Math_pow : float -> float -> float.

(** [callFunc(name, args)]; [args[0]] of an empty array is [undefined],
    whose square root is NaN. *)
Definition callFunc (name : jsstring) (args : list float) : result float :=
  if jsstring_eqb name (js "sqrt") then Ok (sqrt (nth 0 args nan))
  else Throw (UnknownFunction name).

(** Lines 123-134: a binary operator on the stack [st]. *)
Definition binaryOperator (v : char) (st : list float) : result (list float) :=
  match st with
  | b :: a :: st' =>
    if v =? code "+" then Ok ((a + b)%float :: st')
    else if v =? code "-" then Ok ((a - b)%float :: st')
    else if v =? code "*" then Ok ((a * b)%float :: st')
    else if v =? code "/" then
      if (b =? 0)%float then Throw DivideByZero else Ok ((a / b)%float :: st')
    else if v =? code "^" then Ok (Math_pow a b :: st')
    else Throw (UnknownOp v)
  | _ => Throw InvalidExpression
  end.

(** The body of the [for (let t of rpn)] loop. *)
Definition evalToken (t : token) (st : list float) : result (list float) :=
  match t with
  | num value => Ok (Number value :: st)
  | op v =>
    if v =? code "%" then
      match st with
      | [] => Throw InvalidPercent
      | a :: st' => Ok ((a / 100)%float :: st')
      end
    else binaryOperator v st
  | func name =>
    match st with
    | [] => Throw FuncMissingArg
    | a :: st' => r <- callFunc name [a] ;; Ok (r :: st')
    end
  | _ => Ok st
  end.

Fixpoint evalRPN_from (rpn : list token) (st : list float) {struct rpn}
  : result (list float) :=
  match rpn with
  | [] => Ok st
  | t :: rest => st' <- evalToken t st ;; evalRPN_from rest st'
  end.

(** Lines 142-143: [st.length !== 1] throws, else [st[0]]. *)
Definition finish (st : list float) : result float :=
  match st with
  | [v] => Ok v
  | _ => Throw InvalidExpression
  end.

Definition evalRPN (rpn : list token) : result float :=
  st <- evalRPN_from rpn [] ;; finish st.

(** [s.trim()] *)
Definition trim (s : jsstring) : jsstring :=
  rev (skip isWhite (rev (skip isWhite s))).

Definition evaluateExpression (s : jsstring) : result float :=
  if isEmpty s || isEmpty (trim s) then Ok 0%float
  else
    tokens <- tokenize s ;;
    rpn <- toRPN tokens ;;
    evalRPN rpn.

End Evaluator.

(** ** Number formatting: the built-ins *)

(** The real value of a finite binary64 ([0] for the others). *)
Definition toQ (x : float) : Q :=
  match Prim2SF x with
  | S754_finite s m e =>
    ((if s then -1 else 1) * inject_Z (Zpos m) * Qpower 2 e)%Q
  | _ => 0%Q
  end.

Definition Qlt_bool (a b : Q) : bool := negb (Qle_bool b a).

(** [isFinite(n)] on a number. *)
Definition isFinite (n : float) : bool := negb (is_nan n || is_infinity n).

(** [Math.round(x)]: [x] itself when it is integral (as every binary64
    with a non-negative exponent is), NaN or infinite; otherwise the
    integer nearest to [x], the one towards +infinity of two equally
    near, as a binary64 (an integer below [2^53], which is exact), and
    [-0] for [-0.5 <= x < 0]. *)
Definition Math_round (x : float) : float :=
  match Prim2SF x with
  | S754_finite s m e =>
    if (0 <=? e)%Z then x
    else
      let z := Qfloor (toQ x + (1 # 2))%Q in
      if (z =? 0)%Z then (if s then (-0)%float else 0%float)
      else SF2Prim (binary_normalize prec emax z 0 false)
  | _ => x
  end.

(** The decimal digits of a natural number. *)
Definition digitsOf (n : Z) : jsstring :=
  js (NilZero.string_of_uint (N.to_uint (Z.to_N n))).

Definition zeros (n : nat) : jsstring := repeat (code "0") n.

(** The [k] digits of [s], for [s] below [10^k]. *)
Fixpoint decimalDigits (k : nat) (s : Z) {struct k} : jsstring :=
  match k with
  | O => []
  | S k' => decimalDigits k' (s / 10) ++ [(code "0" + Z.to_N (s mod 10))%N]
  end.

(** *** [String(x)]: Number::toString in radix 10 *)

(** The reals that round to the positive binary64 [m * 2^e]: those between
    the midpoints to its two neighbours, the midpoints included when [m]
    is even. *)
Definition roundingInterval (m : positive) (e : Z) : Q * Q * bool :=
  let lo :=
    if (Pos.eqb m (2 ^ 52)) && (-1074 <? e)%Z
    then (inject_Z (4 * Zpos m - 1) * Qpower 2 (e - 2))%Q
    else (inject_Z (2 * Zpos m - 1) * Qpower 2 (e - 1))%Q in
  let hi := (inject_Z (2 * Zpos m + 1) * Qpower 2 (e - 1))%Q in
  (lo, hi, negb (Pos.testbit m 0)).

Definition roundsTo (iv : Q * Q * bool) (v : Q) : bool :=
  let '(lo, hi, closed) := iv in
  if closed then Qle_bool lo v && Qle_bool v hi
  else Qlt_bool lo v && Qlt_bool v hi.

(** The [N] with [10^(N-1) <= q < 10^N], searched from [N]. *)
Fixpoint decimalExponent (fuel : nat) (q : Q) (N : Z) {struct fuel} : Z :=
  match fuel with
  | O => N
  | S fuel' =>
    if Qlt_bool q (Qpower 10 (N - 1)) then decimalExponent fuel' q (N - 1)
    else if Qle_bool (Qpower 10 N) q then decimalExponent fuel' q (N + 1)
    else N
  end.

(** The value [s * 10^(n-k)] of a candidate. *)
Definition candidateValue (k : Z) (c : Z * Z) : Q :=
  (inject_Z (snd c) * Qpower 10 (fst c - k))%Q.

(** The candidates [(n, s)] with [k] digits for a real [q] of decimal
    exponent [N]: the two [k]-digit decimals around [q], and [10^N]. *)
Definition candidates (iv : Q * Q * bool) (q : Q) (N k : Z) : list (Z * Z) :=
  let s := Qfloor (q * Qpower 10 (k - N))%Q in
  filter
    (fun c => (10 ^ (k - 1) <=? snd c)%Z && (snd c <? 10 ^ k)%Z
              && roundsTo iv (candidateValue k c))
    [(N, s); (N, s + 1)%Z; (N + 1, 10 ^ (k - 1))%Z].

(** Of two candidates the one nearer to [q]; the even [s] on a tie. *)
Definition nearer (q : Q) (k : Z) (c d : Z * Z) : Z * Z :=
  let dc := Qabs (candidateValue k c - q) in
  let dd := Qabs (candidateValue k d - q) in
  if Qlt_bool dc dd then c
  else if Qlt_bool dd dc then d
  else if Z.even (snd c) then c else d.

(** [n], [k] and [s] of Number::toString: [k] as small as possible. *)
Fixpoint shortest (iv : Q * Q * bool) (q : Q) (N : Z) (ks : list Z) {struct ks}
  : option (Z * Z * Z) :=
  match ks with
  | [] => None
  | k :: ks' =>
    match candidates iv q N k with
    | [] => shortest iv q N ks'
    | c :: cs => let (n, s) := fold_left (nearer q k) cs c in Some (n, k, s)
    end
  end.

(** The numbers of digits tried, fewest first; 17 always suffice. *)
Definition digitCounts : list Z := map Z.of_nat (seq 1 17).

Definition signedExponent (e : Z) : jsstring :=
  (if (e <? 0)%Z then js "-" else js "+") ++ digitsOf (Z.abs e).

(** Steps 6 to 10 of Number::toString on [n], [k] and the digits of [s]. *)
Definition layout (n k : Z) (ds : jsstring) : jsstring :=
  if (k <=? n)%Z && (n <=? 21)%Z then ds ++ zeros (Z.to_nat (n - k))
  else if (0 <? n)%Z && (n <=? 21)%Z then
    firstn (Z.to_nat n) ds ++ js "." ++ skipn (Z.to_nat n) ds
  else if (-6 <? n)%Z && (n <=? 0)%Z then
    js "0." ++ zeros (Z.to_nat (- n)) ++ ds
  else if (k =? 1)%Z then ds ++ js "e" ++ signedExponent (n - 1)
  else firstn 1 ds ++ js "." ++ skipn 1 ds ++ js "e" ++ signedExponent (n - 1).

Definition String_positive (m : positive) (e : Z) : jsstring :=
  let q := (inject_Z (Zpos m) * Qpower 2 e)%Q in
  let N := decimalExponent 700 q 0 in
  match shortest (roundingInterval m e) q N digitCounts with
  | Some (n, k, s) => layout n k (decimalDigits (Z.to_nat k) s)
  | None => []
  end.

Definition String_ (x : float) : jsstring :=
  match Prim2SF x with
  | S754_nan => js "NaN"
  | S754_zero _ => js "0"
  | S754_infinity s => (if s then js "-" else []) ++ js "Infinity"
  | S754_finite s m e => (if s then js "-" else []) ++ String_positive m e
  end.

(** *** [x.toFixed(f)] *)

Definition toFixed (f : nat) (x : float) : jsstring :=
  if negb (isFinite x) then String_ x
  else
    let q := Qabs (toQ x) in
    (if (x <? 0)%float then js "-" else [])
    ++ (if Qle_bool (Qpower 10 21) q then String_ (abs x)
        else
          let n := Qfloor (q * Qpower 10 (Z.of_nat f) + (1 # 2))%Q in
          let m := digitsOf n in
          match f with
          | O => m
          | _ =>
            let m := zeros (f + 1 - List.length m) ++ m in
            let k := List.length m in
            firstn (k - f) m ++ js "." ++ skipn (k - f) m
          end).

(** *** [s.replace(/\.?0+$/, '')] *)

Definition isZero (c : char) : bool := c =? code "0".

(** [s] is one or more ['0']. *)
Definition isZeros (s : jsstring) : bool :=
  negb (isEmpty s) && forallb isZero s.

(** [/\.?0+$/] matches at the start of [s], up to its end. *)
Definition matchesDotZeros (s : jsstring) : bool :=
  isZeros s
  || match s with
     | c :: s' => (c =? code ".") && isZeros s'
     | [] => false
     end.

(** The leftmost match is removed; it runs to the end of the string. *)
Fixpoint replaceDotZeros (s : jsstring) {struct s} : jsstring :=
  if matchesDotZeros s then []
  else match s with
       | [] => []
       | c :: s' => c :: replaceDotZeros s'
       end.

(** ** [formatNumber] *)

(** [Math.abs(n - Math.round(n)) < 1e-12]; the literal [1e-12] is the
    binary64 value [0x1.19799812dea11p-40]. *)
Definition nearInteger (n : float) : bool :=
  (abs (n - Math_round n) <? 0x1.19799812dea11p-40)%float.

Definition formatNumber (n : float) : jsstring :=
  if negb (isFinite n) then js "Error"
  else if nearInteger n then String_ (Math_round n)
  else replaceDotZeros (toFixed 12 n).

(** ** The calculator: state and commands *)

(** [.] of a regular expression without the [s] flag: any code unit but a
    line terminator. *)
Definition isLineTerminator (c : char) : bool :=
  (c =? 10) || (c =? 13) || (c =? 8232) || (c =? 8233).

(** [\d*\.?\d+$] matches at the start of [s], up to its end: digits
    only, or digits (maybe none), a dot and one digit or more. *)
Definition matchesUnsigned (s : jsstring) : bool :=
  match skip isDigit s with
  | [] => negb (isEmpty s)
  | c :: fp => (c =? code ".") && negb (isEmpty fp) && forallb isDigit fp
  end.

(** [-?\d*\.?\d+$] matches at the start of [s], up to its end.  A [-] at
    the start is taken by [-?]: given back, it matches nothing that
    follows. *)
Definition matchesNumber (s : jsstring) : bool :=
  match s with
  | c :: s' => if c =? code "-" then matchesUnsigned s' else matchesUnsigned s
  | [] => false
  end.

(** [(.*?)(-?\d*\.?\d+)$] tried from one start position: the lazy [.*?]
    has taken [before] and takes one more code unit each time the rest
    does not match. *)
Fixpoint matchFrom (before s : jsstring) {struct s} : option (jsstring * jsstring) :=
  if matchesNumber s then Some (before, s)
  else match s with
       | [] => None
       | c :: s' => if isLineTerminator c then None else matchFrom (before ++ [c]) s'
       end.

(** [s.match(/(.*?)(-?\d*\.?\d+)$/)]: the groups [m[1]] and [m[2]] of the
    match at the leftmost start position that has one. *)
Fixpoint matchLastNumber (s : jsstring) {struct s} : option (jsstring * jsstring) :=
  match matchFrom [] s with
  | Some m => Some m
  | None =>
    match s with
    | [] => None
    | _ :: s' => matchLastNumber s'
    end
  end.

(** [s.startsWith(t)] *)
Fixpoint startsWith (s t : jsstring) {struct t} : bool :=
  match t, s with
  | [], _ => true
  | a :: t', b :: s' => (a =? b) && startsWith s' t'
  | _ :: _, [] => false
  end.

(** [s.includes(t)]: [t] starts at some position of [s]. *)
Fixpoint includes (s t : jsstring) {struct s} : bool :=
  startsWith s t
  || match s with
     | [] => false
     | _ :: s' => includes s' t
     end.

(** An entry [{expr, result}] of [history]. *)
Record entry : Type := { entryExpr : jsstring; entryResult : jsstring }.

(** The variables [expression], [lastResult] and [history], and the texts
    on display: [exprText] is [exprEl.textContent]; [valueText] is the
    text [animateValue] was last called with, which [valueEl.textContent]
    takes when the timers have run. *)
Record calculator : Type := {
  expression : jsstring;
  lastResult : option float;
  history : list entry;
  exprText : jsstring;
  valueText : jsstring
}.

(** [setExpr(s)]: [expression = s; exprEl.textContent = s]. *)
Definition setExpr (s : jsstring) (st : calculator) : calculator :=
  {| expression := s; lastResult := lastResult st; history := history st;
     exprText := s; valueText := valueText st |}.

(** [animateValue(newVal)], as far as the text goes. *)
Definition animateValue (newVal : jsstring) (st : calculator) : calculator :=
  {| expression := expression st; lastResult := lastResult st;
     history := history st; exprText := exprText st; valueText := newVal |}.

(** [history.unshift({expr, result}); if (history.length > 100) history.pop()] *)
Definition pushHistoryItem (e r : jsstring) (st : calculator) : calculator :=
  let h := {| entryExpr := e; entryResult := r |} :: history st in
  {| expression := expression st; lastResult := lastResult st;
     history := if (100 <? List.length h)%nat then removelast h else h;
     exprText := exprText st; valueText := valueText st |}.

(** [lastResult = res] *)
Definition setLastResult (res : float) (st : calculator) : calculator :=
  {| expression := expression st; lastResult := Some res; history := history st;
     exprText := exprText st; valueText := valueText st |}.

(** The state after the script has run: [setExpr(''); animateValue('0')]. *)
Definition initial : calculator :=
  {| expression := []; lastResult := None; history := [];
     exprText := []; valueText := js "0" |}.

(** The sign key ['±'] is the code unit U+00B1. *)
Definition plusMinus : jsstring := [177].

Section Calculator.

Variable Math_pow : float -> float -> float.

(** [handleCommand(cmd)].  Only [evaluateExpression] throws; under ['=']
    it does so before anything is changed, and the [catch] shows 'Error'. *)
Definition handleCommand (cmd : jsstring) (st : calculator) : calculator :=
  if jsstring_eqb cmd (js "AC") then animateValue (js "0") (setExpr [] st)
  else if jsstring_eqb cmd plusMinus then
    if isEmpty (expression st) then animateValue (js "0") (setExpr (js "-") st)
    else
      match matchLastNumber (expression st) with
      | Some (before, last) =>
        if startsWith last (js "-") then setExpr (before ++ tl last) st
        else setExpr (before ++ js "-" ++ last) st
      | None => setExpr (js "-" ++ expression st) st
      end
  else if jsstring_eqb cmd (js "%") then setExpr (expression st ++ js "%") st
  else if jsstring_eqb cmd (js "=") then
    match evaluateExpression Math_pow (expression st) with
    | Ok res =>
      let str := formatNumber res in
      animateValue str
        (setExpr str (setLastResult res (pushHistoryItem (expression st) str st)))
    | Throw _ => animateValue (js "Error") st
    end
  else
    let st' := setExpr (expression st ++ cmd) st in
    match evaluateExpression Math_pow (expression st' ++ cmd) with
    | Ok v => animateValue (formatNumber v) st'
    | Throw _ => st'
    end.

(** The keys that are passed on as commands. *)
Definition allowed : jsstring := js "0123456789.+-*/()%^".

(** The [keydown] listener, on [ev.key]. *)
Definition keydown (key : jsstring) (st : calculator) : calculator :=
  if jsstring_eqb key (js "Enter") then handleCommand (js "=") st
  else if jsstring_eqb key (js "Backspace") then setExpr (removelast (expression st)) st
  else if includes allowed key then handleCommand key st
  else st.

(** The listeners that change the state: a click on a button with
    [data-cmd], a key, a click on 'clear history', and a click on the
    [i]-th entry of the history list. *)
Inductive event : Type :=
| Click (cmd : jsstring)
| KeyDown (key : jsstring)
| ClearHistory
| HistoryClick (i : nat).

(** [history = []; renderHistory()] *)
Definition clearHistory (st : calculator) : calculator :=
  {| expression := expression st; lastResult := lastResult st; history := [];
     exprText := exprText st; valueText := valueText st |}.

(** The listener [renderHistory] gives the entry [item]:
    [setExpr(item.expr); animateValue(item.result)]. *)
Definition historyClick (i : nat) (st : calculator) : calculator :=
  match nth_error (history st) i with
  | Some item => animateValue (entryResult item) (setExpr (entryExpr item) st)
  | None => st
  end.

Definition handle (ev : event) (st : calculator) : calculator :=
  match ev with
  | Click cmd => handleCommand cmd st
  | KeyDown key => keydown key st
  | ClearHistory => clearHistory st
  | HistoryClick i => historyClick i st
  end.

Definition handleAll (evs : list event) (st : calculator) : calculator :=
  fold_left (fun st ev => handle ev st) evs st.

End Calculator.

(** ** The standard reading of an arithmetic expression *)

Inductive binop : Type := Add | Sub | Mul | Div | Pow.

Definition symbol (o : binop) : char :=
  match o with
  | Add => code "+"
  | Sub => code "-"
  | Mul => code "*"
  | Div => code "/"
  | Pow => code "^"
  end.

(** Precedence levels: [+ -] is 1, [* /] is 2, [^] is 3. *)
Definition level (o : binop) : nat :=
  match o with
  | Add | Sub => 1
  | Mul | Div => 2
  | Pow => 3
  end.

(** [^] groups from the right, the other operators from the left. *)
Definition rightAssoc (o : binop) : bool :=
  match o with
  | Pow => true
  | _ => false
  end.

(** An expression built from number literals, binary operators and
    parentheses. *)
Inductive expr : Type :=
| Lit (text : jsstring)
| Bin (o : binop) (l r : expr)
| Paren (e : expr).

(** The text of an expression. *)
Fixpoint render (e : expr) : jsstring :=
  match e with
  | Lit text => text
  | Bin o l r => render l ++ symbol o :: render r
  | Paren e' => code "(" :: render e' ++ [code ")"]
  end.

(** A number literal: one or more digits and dots. *)
Definition isLiteral (text : jsstring) : bool :=
  negb (isEmpty text) && forallb isNumChar text.

(** How tightly an operand binds: as its operator, and tighter than any
    operator when it is a literal or parenthesised. *)
Definition rootLevel (e : expr) : nat :=
  match e with
  | Bin o _ _ => level o
  | _ => 4
  end.

(** [standard e]: the tree [e] is the reading of its own text under the
    precedence levels and associativities.  An operand of [o] binds at
    least as tightly as [o]; on the side [o] does not group from (the
    right for a left-associative [o], the left for [^]) it binds strictly
    tighter. *)
Fixpoint standard (e : expr) : bool :=
  match e with
  | Lit text => isLiteral text
  | Paren e' => standard e'
  | Bin o l r =>
    standard l && standard r
    && (if rightAssoc o then level o <? rootLevel l else level o <=? rootLevel l)%nat
    && (if rightAssoc o then level o <=? rootLevel r else level o <? rootLevel r)%nat
  end.

(** Every number literal of the tree is one or more digits and dots. *)
Fixpoint literals (t : expr) : bool :=
  match t with
  | Lit text => isLiteral text
  | Bin _ l r => literals l && literals r
  | Paren t' => literals t'
  end.

(** [acc o a], for an operand [a] that is a literal or parenthesised: the
    operator goes down the right edge of [acc] past the operators that
    bind less tightly than it does. *)
Fixpoint graft (acc : expr) (o : binop) (a : expr) {struct acc} : expr :=
  match acc with
  | Bin o1 l1 r1 =>
    if (if rightAssoc o then level o1 <=? level o else level o1 <? level o)%nat
    then Bin o1 l1 (graft r1 o a)
    else Bin o acc a
  | _ => Bin o acc a
  end.

(** The standard reading of the text of a tree: [reading t] for the text
    of [t], [extend acc o r] for the text of [acc], [o] and the text of
    [r]. *)
Fixpoint reading (t : expr) {struct t} : expr :=
  match t with
  | Lit text => Lit text
  | Paren t' => Paren (reading t')
  | Bin o l r => extend (reading l) o r
  end
with extend (acc : expr) (o : binop) (r : expr) {struct r} : expr :=
  match r with
  | Lit text => graft acc o (Lit text)
  | Paren t' => graft acc o (Paren (reading t'))
  | Bin o2 l2 r2 => extend (extend acc o l2) o2 r2
  end.

Section Reference.

Variable Math_pow : float -> float -> float.

(** [a o b], where division by zero has no value. *)
Definition apply (o : binop) (a b : float) : result float :=
  match o with
  | Add => Ok (a + b)%float
  | Sub => Ok (a - b)%float
  | Mul => Ok (a * b)%float
  | Div => if (b =? 0)%float then Throw DivideByZero else Ok (a / b)%float
  | Pow => Ok (Math_pow a b)
  end.

(** The value of the tree, operands from left to right. *)
Fixpoint value (e : expr) : result float :=
  match e with
  | Lit text => Ok (Number text)
  | Paren e' => value e'
  | Bin o l r => a <- value l ;; b <- value r ;; apply o a b
  end.

End Reference.

Definition binopToken (o : binop) : token := op (symbol o).

(** The tokens, the postfix order, and the state of the converter after
    the tokens of an expression: [body] is what it has put out, [spine]
    the operators it still holds (those on the right edge of the tree). *)
Fixpoint tokensOf (e : expr) : list token :=
  match e with
  | Lit text => [num text]
  | Bin o l r => tokensOf l ++ binopToken o :: tokensOf r
  | Paren e' => lparen :: tokensOf e' ++ [rparen]
  end.

Fixpoint postfix (e : expr) : list token :=
  match e with
  | Lit text => [num text]
  | Bin o l r => postfix l ++ postfix r ++ [binopToken o]
  | Paren e' => postfix e'
  end.

Fixpoint spineOperators (e : expr) : list binop :=
  match e with
  | Bin o _ r => spineOperators r ++ [o]
  | _ => []
  end.

Definition spine (e : expr) : list token := map binopToken (spineOperators e).

Fixpoint body (e : expr) : list token :=
  match e with
  | Lit text => [num text]
  | Bin _ l r => postfix l ++ body r
  | Paren e' => postfix e'
  end.

(** The operators of an expression outside its parentheses. *)
Fixpoint topOperators (e : expr) : list binop :=
  match e with
  | Bin o l r => o :: topOperators l ++ topOperators r
  | _ => []
  end.

(** The top of the stack is not an operator that [v] makes the converter
    pop. *)
Definition holds (v : char) (ops : list token) : bool :=
  match ops with
  | op w :: _ => negb (yields v w)
  | _ => true
  end.

(** The stack is not popped by any operator of [e] outside parentheses. *)
Definition guarded (e : expr) (ops : list token) : bool :=
  forallb (fun v => holds (symbol v) ops) (topOperators e).

(** A stack of operators and open parentheses, as arithmetic leaves it. *)
Definition arithmetic (ops : list token) : bool :=
  forallb (fun t => match t with op _ | lparen => true | _ => false end) ops.

(** ** Balanced parentheses *)

(** The parentheses of a token sequence nest properly, [depth] of them
    being open at its start. *)
Fixpoint balanced_from (depth : nat) (tokens : list token) {struct tokens} : bool :=
  match tokens with
  | [] => Nat.eqb depth 0
  | lparen :: rest => balanced_from (S depth) rest
  | rparen :: rest =>
    match depth with
    | O => false
    | S depth' => balanced_from depth' rest
    end
  | _ :: rest => balanced_from depth rest
  end.

Definition balanced (tokens : list token) : bool := balanced_from 0 tokens.

(** The same on the characters of a string. *)
Fixpoint parens_from (depth : nat) (s : jsstring) {struct s} : bool :=
  match s with
  | [] => Nat.eqb depth 0
  | c :: s' =>
    if c =? code "(" then parens_from (S depth) s'
    else if c =? code ")" then
      match depth with
      | O => false
      | S depth' => parens_from depth' s'
      end
    else parens_from depth s'
  end.

Definition parensBalanced (s : jsstring) : bool := parens_from 0 s.

(** The ['('] tokens held on the operator stack. *)
Fixpoint openParens (ops : list token) : nat :=
  match ops with
  | [] => 0
  | lparen :: ops' => S (openParens ops')
  | _ :: ops' => openParens ops'
  end.

(** ** Stripping, as the specification words it *)

(** Trailing zeros are removed, then a decimal point left at the end. *)
Definition stripTrailingZeros (s : jsstring) : jsstring :=
  let t := rev (skip isZero (rev s)) in
  match rev t with
  | c :: t' => if c =? code "." then rev t' else t
  | [] => t
  end.

(** The count of dots of a text. *)
Definition dots (text : jsstring) : nat := count_occ N.eq_dec text (code ".").

(** ** Auxiliary notions of the proofs *)

(** The string is empty or starts with a character that fails [p]. *)
Definition stops (p : char -> bool) (s : jsstring) : bool :=
  match s with
  | [] => true
  | c :: _ => negb (p c)
  end.

(** The three positions in which a sign is unary. *)
Definition signPosition (tokens : list token) : Prop :=
  tokens = []
  \/ (exists tokens', tokens = tokens' ++ [lparen])
  \/ (exists tokens' w, tokens = tokens' ++ [op w]).

(** The stack never holds a [')']. *)
Definition closedFree (ops : list token) : bool :=
  forallb (fun t => match t with rparen => false | _ => true end) ops.

(** The last character of the string is a dot. *)
Definition endsWithDot (s : jsstring) : bool :=
  match rev s with
  | c :: _ => c =? code "."
  | [] => false
  end.

(** [t] is empty or ends with a character other than a zero and a dot. *)
Definition endsSignificant (t : jsstring) : bool :=
  match rev t with
  | c :: _ => negb (isZero c) && negb (c =? code ".")
  | [] => true
  end.

(** An operand that binds tighter than every operator. *)
Definition atomic (a : expr) : bool :=
  match a with
  | Bin _ _ _ => false
  | _ => true
  end.

(** [o1] stays above [o] when [o] comes to the right of it. *)
Definition above (o1 o : binop) : bool :=
  (if rightAssoc o then level o1 <=? level o else level o1 <? level o)%nat.

(** No [^] in the tree. *)
Fixpoint powFree (e : expr) : bool :=
  match e with
  | Lit _ => true
  | Paren e' => powFree e'
  | Bin o l r =>
    match o with Pow => false | _ => true end && powFree l && powFree r
  end.

(** Some number literal of the tree has two dots or more. *)
Fixpoint spoiled (e : expr) : bool :=
  match e with
  | Lit text => (2 <=? dots text)%nat
  | Paren e' => spoiled e'
  | Bin _ l r => spoiled l || spoiled r
  end.

(** The real [m * 2^e]. *)
Definition magnitude (m : positive) (e : Z) : Q :=
  (inject_Z (Zpos m) * Qpower 2 e)%Q.

(** The positive binary64 [m * 2^e] is below [1e21], which is
    [7629394531250000 * 2^17]. *)
Definition below21 (m : positive) (e : Z) : Prop :=
  (e < 17 \/ (e = 17 /\ Zpos m < 7629394531250000))%Z.

(** [String(x)] is the digits of the integer [z], after a minus sign for
    a negative one; they are the decimal digits of [z] itself when [z]
    is below [2^53] in magnitude. *)
Definition integerString (x : float) (z : Z) : Prop :=
  exists ds : jsstring,
    String_ x = (if (z <? 0)%Z then js "-" else []) ++ ds
    /\ forallb isDigit ds = true
    /\ ((Z.abs z < 2 ^ 53)%Z -> ds <> [] /\ digitsValue ds = Z.abs z).

(** A numeral: one digit or more, the first not [0] unless it is ["0"]. *)
Definition isNumeral (ds : jsstring) : bool :=
  match ds with
  | [] => false
  | c :: ds' => forallb isDigit ds && (negb (isZero c) || isEmpty ds')
  end.

(** A [Math.pow] for the examples: exact on small natural exponents. *)
Fixpoint powerOf (a : float) (n : nat) {struct n} : float :=
  match n with
  | O => 1%float
  | S n' => (a * powerOf a n')%float
  end.

Definition samplePow (a b : float) : float :=
  powerOf a (Z.to_nat (Qfloor (toQ b))).

(** ** Notions of the further properties *)

(** The characters the tokenizer has a branch for. *)
Definition isKnown (c : char) : bool :=
  isWhite c || isDigit c || (c =? code ".") || (c =? code "(") || (c =? code ")")
  || (c =? code "%") || isOperator c || isAlpha c.

(** A name as the tokenizer reads one: a letter, then letters and digits. *)
Definition isName (name : jsstring) : bool :=
  match name with
  | c :: name' => isAlpha c && forallb isAlnum name'
  | [] => false
  end.

(** A token as the tokenizer makes them. *)
Definition tokenized (t : token) : bool :=
  match t with
  | num text => isLiteral text
  | op v => isOperator v
  | func name => isName name
  | _ => true
  end.

(** An operator token the evaluator has a case for. *)
Definition evaluable (t : token) : bool :=
  match t with
  | op v => isOperator v || (v =? code "%")
  | _ => true
  end.

(** What the converter puts out for a token. *)
Definition emitted (t : token) : list token :=
  match t with
  | lparen | rparen => []
  | percent => [percent; op (code "%")]
  | _ => [t]
  end.

(** The tokens that go straight to the output. *)
Definition direct (t : token) : bool :=
  match t with
  | num _ | percent => true
  | _ => false
  end.

(** The tokens the operator stack holds. *)
Definition held (t : token) : bool :=
  match t with
  | op _ | func _ | lparen => true
  | _ => false
  end.

(** Every [percent] of the list has an [op %] right after it. *)
Fixpoint paired (l : list token) {struct l} : bool :=
  match l with
  | [] => true
  | t :: l' =>
    match t, l' with
    | percent, op v :: _ => (v =? code "%") && paired l'
    | percent, _ => false
    | _, _ => paired l'
    end
  end.

(** The characters that carry on a number or a name. *)
Definition isRunChar (c : char) : bool := isNumChar c || isAlnum c.

(** The top of the stack is not a function. *)
Definition callFree (ops : list token) : bool :=
  match ops with
  | func _ :: _ => false
  | _ => true
  end.

(** Any character but [E]. *)
Definition notE (c : char) : bool := negb (c =? code "E").

(** The text is empty or ends with a line terminator. *)
Definition endsLine (pre : jsstring) : Prop :=
  pre = [] \/ exists (q : jsstring) (lt : char), pre = q ++ [lt] /\ isLineTerminator lt = true.

(** An entry records an evaluation that succeeded and its formatted value. *)
Definition recorded (Math_pow : float -> float -> float) (item : entry) : Prop :=
  exists v : float,
    evaluateExpression Math_pow (entryExpr item) = Ok v
    /\ entryResult item = formatNumber v.

(** What every event keeps: the expression on display is the expression,
    and the history holds at most 100 records of evaluations. *)
Definition consistent (Math_pow : float -> float -> float) (st : calculator) : Prop :=
  exprText st = expression st
  /\ (List.length (history st) <= 100)%nat
  /\ Forall (recorded Math_pow) (history st).

(** A command with no branch of its own in [handleCommand]. *)
Definition isAppended (cmd : jsstring) : bool :=
  negb (jsstring_eqb cmd (js "AC")) && negb (jsstring_eqb cmd plusMinus)
  && negb (jsstring_eqb cmd (js "%")) && negb (jsstring_eqb cmd (js "=")).

(** The binary64 [y] is the non-zero integer [z], below [2^53] in
    magnitude. *)
Definition integral (y : float) (z : Z) : Prop :=
  exists (m : positive) (e : Z),
    Prim2SF y = S754_finite (z <? 0)%Z m e
    /\ Zpos (digits2_pos m) = 53%Z /\ (-52 <= e <= 0)%Z
    /\ (magnitude m e == inject_Z (Z.abs z))%Q.

(** A number token. *)
Definition isNum (t : token) : bool :=
  match t with
  | num _ => true
  | _ => false
  end.

(** An operator token that takes two operands: any but [%]. *)
Definition isBinary (t : token) : bool :=
  match t with
  | op v => negb (v =? code "%")
  | _ => false
  end.

Section PercentValue.

Variable Math_pow : float -> float -> float.

(** The value of the tree with its last operand divided by 100. *)
Fixpoint valuePercent (e : expr) : result float :=
  match e with
  | Lit text => Ok (Number text / 100)%float
  | Paren e' => a <- value Math_pow e' ;; Ok (a / 100)%float
  | Bin o l r => a <- value Math_pow l ;; b <- valuePercent r ;; apply Math_pow o a b
  end.

End PercentValue.

(** * Verification *)

(** ** Character classes *)

Ltac codes :=
  repeat match goal with
         | |- context [code ?a] =>
           let v := eval vm_compute in (code a) in change (code a) with v
         | H : context [code ?a] |- _ =>
           let v := eval vm_compute in (code a) in change (code a) with v in H
         end.

(** Decides a fact about the class tests of one character. *)
Ltac classes :=
  unfold isAlnum, isNumChar, isOperator, isAlpha, isDigit, isWhite, existsb in *;
  codes;
  repeat match goal with
         | |- _ /\ _ => split
         | |- _ = false => apply not_true_is_false; intro
         end;
  rewrite ?orb_true_iff, ?andb_true_iff, ?orb_false_iff, ?andb_false_iff,
    ?N.leb_le, ?N.eqb_eq, ?N.leb_gt, ?N.eqb_neq in *;
  lia.

Lemma isNumChar_not_white (c : char) : isNumChar c = true -> isWhite c = false.
Proof. intros H. classes. Qed.

Lemma isNumChar_first (c : char) :
  isNumChar c = true -> isDigit c || (c =? code ".") = true.
Proof. intros H. exact H. Qed.

Lemma symbol_classes (o : binop) :
  isWhite (symbol o) = false /\ isNumChar (symbol o) = false
  /\ isOperator (symbol o) = true /\ (symbol o =? code "(") = false
  /\ (symbol o =? code ")") = false /\ (symbol o =? code "%") = false.
Proof. destruct o; repeat split; reflexivity. Qed.

Lemma isOperator_classes (c : char) :
  isOperator c = true -> isNumChar c = false /\ isAlnum c = false.
Proof. intros H. classes. Qed.

(** ** Runs *)

Lemma run_all (p : char -> bool) (s rest : jsstring) :
  forallb p s = true -> stops p rest = true -> run p (s ++ rest) = s.
Proof.
  intros Hs Hrest. induction s as [|c s IH]; simpl in *.
  - destruct rest as [|d rest]; simpl in *; [reflexivity|].
    destruct (p d); [discriminate|reflexivity].
  - apply andb_true_iff in Hs as [Hc Hs]. rewrite Hc, (IH Hs). reflexivity.
Qed.

Lemma skip_all (p : char -> bool) (s rest : jsstring) :
  forallb p s = true -> stops p rest = true -> skip p (s ++ rest) = rest.
Proof.
  intros Hs Hrest. induction s as [|c s IH]; simpl in *.
  - destruct rest as [|d rest]; simpl in *; [reflexivity|].
    destruct (p d); [discriminate|reflexivity].
  - apply andb_true_iff in Hs as [Hc Hs]. rewrite Hc. apply (IH Hs).
Qed.

Lemma run_stop (p : char -> bool) (s : jsstring) (c : char) (rest : jsstring) :
  p c = false -> run p (s ++ c :: rest) = run p s.
Proof.
  intros Hc. induction s as [|d s IH]; simpl.
  - rewrite Hc. reflexivity.
  - rewrite IH. reflexivity.
Qed.

Lemma skip_stop (p : char -> bool) (s : jsstring) (c : char) (rest : jsstring) :
  p c = false -> skip p (s ++ c :: rest) = skip p s ++ c :: rest.
Proof.
  intros Hc. induction s as [|d s IH]; simpl.
  - rewrite Hc. reflexivity.
  - destruct (p d); [exact IH|reflexivity].
Qed.

Lemma skip_length (p : char -> bool) (s : jsstring) :
  (List.length (skip p s) <= List.length s)%nat.
Proof.
  induction s as [|c s IH]; simpl; [lia|].
  destruct (p c); simpl; lia.
Qed.

Lemma run_skip (p : char -> bool) (s : jsstring) : run p s ++ skip p s = s.
Proof.
  induction s as [|c s IH]; simpl; [reflexivity|].
  destruct (p c); simpl; [rewrite IH|]; reflexivity.
Qed.

Lemma run_forallb (p : char -> bool) (s : jsstring) : forallb p (run p s) = true.
Proof.
  induction s as [|c s IH]; simpl; [reflexivity|].
  destruct (p c) eqn:Hc; simpl; [rewrite Hc; exact IH|reflexivity].
Qed.

Lemma skip_stops (p : char -> bool) (s : jsstring) : stops p (skip p s) = true.
Proof.
  induction s as [|c s IH]; simpl; [reflexivity|].
  destruct (p c) eqn:Hc; simpl; [exact IH|rewrite Hc; reflexivity].
Qed.

Lemma skip_nil_forallb (p : char -> bool) (s : jsstring) :
  skip p s = [] <-> forallb p s = true.
Proof.
  induction s as [|c s IH]; simpl; [tauto|].
  destruct (p c); simpl; [exact IH|].
  split; discriminate.
Qed.

(** What [skip] leaves holds every character that fails [p]. *)
Lemma skip_keeps (p : char -> bool) (s : jsstring) (c : char) :
  In c s -> p c = false -> In c (skip p s).
Proof.
  induction s as [|d s IH]; simpl; [tauto|].
  intros [->|Hin] Hc.
  - rewrite Hc. left. reflexivity.
  - destruct (p d); [apply IH; assumption|right; assumption].
Qed.

(** ** The previous token *)

Lemma prev_last (tokens : list token) (t : token) : prev (tokens ++ [t]) = Some t.
Proof.
  induction tokens as [|u tokens IH]; simpl; [reflexivity|].
  rewrite IH. destruct (tokens ++ [t]) eqn:E; [|reflexivity].
  destruct tokens; discriminate.
Qed.

Lemma prev_cases (tokens : list token) :
  (tokens = [] /\ prev tokens = None)
  \/ (exists tokens' t, tokens = tokens' ++ [t] /\ prev tokens = Some t).
Proof.
  destruct tokens as [|u tokens]; [left; split; reflexivity|right].
  destruct (@exists_last _ (u :: tokens)) as [tokens' [t E]]; [discriminate|].
  exists tokens', t. rewrite E. split; [reflexivity|apply prev_last].
Qed.

(** ** Tokenizer *)

(** A character that ends every run splits the input: what comes before
    it is tokenized as if it stood alone. *)
Lemma tokenize_from_split (c : char) (s2 : jsstring) :
  isNumChar c = false -> isAlnum c = false ->
  forall (n : nat) (s1 : jsstring) (tokens : list token),
    (List.length s1 <= n)%nat ->
    tokenize_from (s1 ++ c :: s2) tokens
    = (t <- tokenize_from s1 tokens ;; tokenize_from (c :: s2) t).
Proof.
  intros Hnum Hal. remember (c :: s2) as tail eqn:Etail.
  induction n as [|n IH]; intros s1 tokens Hlen.
  - destruct s1; [reflexivity|simpl in Hlen; lia].
  - destruct s1 as [|a s1]; [reflexivity|].
    simpl in Hlen. simpl.
    destruct (isWhite a); [apply IH; lia|].
    destruct (isDigit a || (a =? code ".")).
    { subst tail. rewrite skip_stop, run_stop by assumption.
      apply IH. pose proof (skip_length isNumChar s1). lia. }
    destruct (a =? code "("); [apply IH; lia|].
    destruct (a =? code ")"); [apply IH; lia|].
    destruct (a =? code "%"); [apply IH; lia|].
    destruct (isOperator a); [apply IH; lia|].
    destruct (isAlpha a); [|reflexivity].
    subst tail. rewrite skip_stop, run_stop by assumption.
    apply IH. pose proof (skip_length isAlnum s1). lia.
Qed.

(** White space alone leaves the tokens as they are. *)
Lemma tokenize_from_white (s : jsstring) (tokens : list token) :
  forallb isWhite s = true -> tokenize_from s tokens = Ok tokens.
Proof.
  induction s as [|c s IH]; simpl; [reflexivity|].
  intros H. apply andb_true_iff in H as [Hc Hs]. rewrite Hc. apply IH, Hs.
Qed.

(** A run of digits and dots is one [num] token. *)
Lemma tokenize_from_literal (text rest : jsstring) (tokens : list token) :
  isLiteral text = true -> stops isNumChar rest = true ->
  tokenize_from (text ++ rest) tokens = tokenize_from rest (tokens ++ [num text]).
Proof.
  unfold isLiteral. destruct text as [|c text]; [discriminate|].
  simpl. intros H Hrest. apply andb_true_iff in H as [Hc Htext].
  rewrite (isNumChar_not_white c Hc).
  unfold isNumChar in Hc. rewrite Hc.
  rewrite (skip_all _ _ _ Htext Hrest), (run_all _ _ _ Htext Hrest).
  reflexivity.
Qed.

Lemma tokensOf_last (e : expr) :
  exists tokens t, tokensOf e = tokens ++ [t] /\ unaryPosition (Some t) = false.
Proof.
  induction e as [text|o l _ r [tokens [t [E Ht]]]|e _]; simpl.
  - exists [], (num text). split; reflexivity.
  - exists (tokensOf l ++ binopToken o :: tokens), t.
    rewrite E, <- app_assoc. split; [reflexivity|exact Ht].
  - exists (lparen :: tokensOf e), rparen. split; reflexivity.
Qed.

(** An operator that follows an expression is binary. *)
Lemma operatorTokens_after (o : binop) (e : expr) (tokens : list token) :
  operatorTokens (symbol o) (tokens ++ tokensOf e) = [op (symbol o)].
Proof.
  destruct (tokensOf_last e) as [tokens' [t [E Ht]]].
  unfold operatorTokens. rewrite E, app_assoc, prev_last, Ht, andb_false_r.
  reflexivity.
Qed.

Lemma tokenize_from_render (e : expr) :
  standard e = true ->
  forall (rest : jsstring) (tokens : list token),
    stops isNumChar rest = true ->
    tokenize_from (render e ++ rest) tokens
    = tokenize_from rest (tokens ++ tokensOf e).
Proof.
  induction e as [text|o l IHl r IHr|e IH]; simpl; intros Hstd rest tokens Hrest.
  - apply tokenize_from_literal; assumption.
  - rewrite !andb_true_iff in Hstd. destruct Hstd as [[[Hl Hr] _] _].
    destruct (symbol_classes o) as [Hw [Hn [Ho [Hlp [Hrp Hpc]]]]].
    rewrite <- app_assoc. rewrite IHl by (try assumption; simpl; rewrite Hn; reflexivity).
    simpl. rewrite Hw. unfold isNumChar in Hn. rewrite Hn, Hlp, Hrp, Hpc, Ho.
    rewrite operatorTokens_after. rewrite (IHr Hr _ _ Hrest).
    rewrite <- !app_assoc. reflexivity.
  - rewrite <- app_assoc. simpl.
    rewrite (IH Hstd) by reflexivity. simpl.
    rewrite <- !app_assoc. reflexivity.
Qed.

Lemma tokenize_render (e : expr) :
  standard e = true -> tokenize (render e) = Ok (tokensOf e).
Proof.
  intros Hstd. unfold tokenize.
  rewrite <- (app_nil_r (render e)).
  rewrite (tokenize_from_render e Hstd [] []) by reflexivity.
  reflexivity.
Qed.

(** ** Converter *)

Lemma postfix_body_spine (e : expr) : postfix e = body e ++ spine e.
Proof.
  unfold spine. induction e as [text|o l IHl r IHr|e IH]; simpl.
  - reflexivity.
  - rewrite IHr, map_app, <- !app_assoc. reflexivity.
  - rewrite app_nil_r. reflexivity.
Qed.

Lemma yields_symbol (v w : binop) :
  yields (symbol v) (symbol w)
  = if rightAssoc v then (level v <? level w)%nat else (level v <=? level w)%nat.
Proof. destruct v, w; reflexivity. Qed.

(** Outside parentheses every operator binds at least as tightly as the
    root. *)
Lemma topOperators_level (e : expr) :
  standard e = true ->
  forall v : binop, In v (topOperators e) -> (rootLevel e <= level v)%nat.
Proof.
  induction e as [text|o l IHl r IHr|e IH]; simpl; intros Hstd v Hin; try tauto.
  rewrite !andb_true_iff in Hstd. destruct Hstd as [[[Hl Hr] Hbl] Hbr].
  destruct Hin as [->|Hin]; [lia|].
  apply in_app_or in Hin as [Hin|Hin].
  - specialize (IHl Hl v Hin).
    destruct (rightAssoc o);
      [apply Nat.ltb_lt in Hbl|apply Nat.leb_le in Hbl]; lia.
  - specialize (IHr Hr v Hin).
    destruct (rightAssoc o);
      [apply Nat.leb_le in Hbr|apply Nat.ltb_lt in Hbr]; lia.
Qed.

Lemma spineOperators_top (e : expr) (v : binop) :
  In v (spineOperators e) -> In v (topOperators e).
Proof.
  induction e as [text|o l IHl r IHr|e IH]; simpl; try tauto.
  intros Hin. apply in_app_or in Hin as [Hin|[->|[]]].
  - right. apply in_or_app. right. apply IHr, Hin.
  - left. reflexivity.
Qed.

(** The operator [o] pops what its left operand has left on the stack. *)
Lemma left_operand_yields (o : binop) (l r : expr) (w : binop) :
  standard (Bin o l r) = true -> In w (spineOperators l) ->
  yields (symbol o) (symbol w) = true.
Proof.
  simpl. rewrite !andb_true_iff. intros [[[Hl Hr] Hbl] Hbr] Hin.
  pose proof (topOperators_level l Hl w (spineOperators_top l w Hin)) as Hw.
  rewrite yields_symbol.
  destruct (rightAssoc o);
    [apply Nat.ltb_lt in Hbl; apply Nat.ltb_lt|apply Nat.leb_le in Hbl; apply Nat.leb_le];
    lia.
Qed.

(** No operator of the right operand pops [o]. *)
Lemma right_operand_guarded (o : binop) (l r : expr) (ops : list token) :
  standard (Bin o l r) = true -> guarded r (binopToken o :: ops) = true.
Proof.
  simpl. rewrite !andb_true_iff. intros [[[Hl Hr] Hbl] Hbr].
  unfold guarded. apply forallb_forall. intros v Hin. simpl.
  pose proof (topOperators_level r Hr v Hin) as Hv.
  rewrite yields_symbol.
  destruct o, v; cbn [rightAssoc level] in *;
    try reflexivity;
    first [apply Nat.leb_le in Hbr|apply Nat.ltb_lt in Hbr]; lia.
Qed.

Lemma guarded_operands (o : binop) (l r : expr) (ops : list token) :
  guarded (Bin o l r) ops = true ->
  holds (symbol o) ops = true /\ guarded l ops = true.
Proof.
  unfold guarded. simpl. rewrite andb_true_iff, forallb_app, andb_true_iff.
  tauto.
Qed.

Lemma guarded_lparen (e : expr) (ops : list token) :
  guarded e (lparen :: ops) = true.
Proof. apply forallb_forall. reflexivity. Qed.

Lemma guarded_nil (e : expr) : guarded e [] = true.
Proof. apply forallb_forall. reflexivity. Qed.

Lemma popOperators_spine (v : char) (os : list binop) :
  (forall w : binop, In w os -> yields v (symbol w) = true) ->
  forall out ops : list token,
    holds v ops = true ->
    popOperators v out (map binopToken os ++ ops)
    = (out ++ map binopToken os, ops).
Proof.
  induction os as [|w os IH]; simpl; intros Hos out ops Hops.
  - rewrite app_nil_r. destruct ops as [|[]]; try reflexivity.
    simpl in *. apply negb_true_iff in Hops. rewrite Hops. reflexivity.
  - rewrite (Hos w) by (left; reflexivity).
    rewrite IH by (try assumption; intros; apply Hos; right; assumption).
    rewrite <- app_assoc. reflexivity.
Qed.

Lemma popToParen_spine (os : list binop) (out ops : list token) :
  popToParen out (map binopToken os ++ lparen :: ops)
  = (out ++ map binopToken os, lparen :: ops).
Proof.
  revert out. induction os as [|w os IH]; simpl; intros out.
  - rewrite app_nil_r. reflexivity.
  - rewrite IH, <- app_assoc. reflexivity.
Qed.

Lemma drain_spine (os : list binop) (out : list token) :
  drain out (map binopToken os) = Ok (out ++ map binopToken os).
Proof.
  revert out. induction os as [|w os IH]; simpl; intros out.
  - rewrite app_nil_r. reflexivity.
  - rewrite IH, <- app_assoc. reflexivity.
Qed.

(** The converter on the tokens of an expression: it puts out [body e]
    and is left holding [spine e]. *)
Lemma toRPN_from_expr (e : expr) :
  standard e = true ->
  forall rest out ops : list token,
    guarded e ops = true -> arithmetic ops = true ->
    toRPN_from (tokensOf e ++ rest) out ops
    = toRPN_from rest (out ++ body e) (spine e ++ ops).
Proof.
  induction e as [text|o l IHl r IHr|e IH]; intros Hstd rest out ops Hg Ha.
  - reflexivity.
  - pose proof Hstd as Hstd'. simpl in Hstd'. rewrite !andb_true_iff in Hstd'.
    destruct Hstd' as [[[Hl Hr] _] _].
    destruct (guarded_operands o l r ops Hg) as [Ho Hgl].
    simpl tokensOf. rewrite <- app_assoc. rewrite (IHl Hl) by assumption.
    simpl. unfold spine at 1.
    rewrite popOperators_spine
      by (try assumption; intros w Hw; apply (left_operand_yields o l r w Hstd Hw)).
    fold (binopToken o).
    rewrite (IHr Hr)
      by (try apply (right_operand_guarded o l r ops Hstd); assumption).
    rewrite (postfix_body_spine l). unfold spine. simpl.
    rewrite map_app, <- !app_assoc. reflexivity.
  - simpl in Hstd. simpl tokensOf. rewrite <- app_comm_cons. simpl toRPN_from at 1.
    rewrite <- app_assoc.
    rewrite (IH Hstd) by (try apply guarded_lparen; assumption).
    simpl. unfold spine at 1. rewrite popToParen_spine.
    rewrite <- app_assoc, <- postfix_body_spine.
    destruct ops as [|[] ops]; try reflexivity. discriminate.
Qed.

Lemma toRPN_expr (e : expr) :
  standard e = true -> toRPN (tokensOf e) = Ok (postfix e).
Proof.
  intros Hstd. unfold toRPN. rewrite <- (app_nil_r (tokensOf e)).
  rewrite (toRPN_from_expr e Hstd) by (try apply guarded_nil; reflexivity).
  simpl. rewrite app_nil_r. unfold spine. rewrite drain_spine.
  fold (spine e). rewrite <- postfix_body_spine. reflexivity.
Qed.

(** ** Evaluator *)

Section EvaluatorFacts.

Variable Math_pow : float -> float -> float.

Lemma evalToken_binop (o : binop) (a b : float) (st : list float) :
  evalToken Math_pow (binopToken o) (b :: a :: st)
  = (v <- apply Math_pow o a b ;; Ok (v :: st)).
Proof.
  destruct o; try reflexivity.
  change (evalToken Math_pow (binopToken Div) (b :: a :: st))
    with (if (b =? 0)%float then @Throw (list float) DivideByZero
          else Ok ((a / b)%float :: st)).
  simpl. destruct (b =? 0)%float; reflexivity.
Qed.

(** The postfix order of an expression evaluates to its value, pushed on
    the stack. *)
Lemma evalRPN_from_postfix (e : expr) :
  forall (rest : list token) (st : list float),
    evalRPN_from Math_pow (postfix e ++ rest) st
    = (v <- value Math_pow e ;; evalRPN_from Math_pow rest (v :: st)).
Proof.
  induction e as [text|o l IHl r IHr|e IH]; intros rest st.
  - reflexivity.
  - simpl postfix. rewrite <- !app_assoc. rewrite IHl.
    change (value Math_pow (Bin o l r))
      with (a <- value Math_pow l ;; b <- value Math_pow r ;; apply Math_pow o a b).
    destruct (value Math_pow l) as [a|err]; [|reflexivity].
    cbv beta iota delta [bind]. rewrite IHr.
    destruct (value Math_pow r) as [b|err]; [|reflexivity].
    cbv beta iota delta [bind].
    change (evalRPN_from Math_pow ([binopToken o] ++ rest) (b :: a :: st))
      with (st' <- evalToken Math_pow (binopToken o) (b :: a :: st) ;;
            evalRPN_from Math_pow rest st').
    rewrite evalToken_binop.
    destruct (apply Math_pow o a b); reflexivity.
  - apply IH.
Qed.

Lemma evalRPN_postfix (e : expr) :
  evalRPN Math_pow (postfix e) = value Math_pow e.
Proof.
  unfold evalRPN. rewrite <- (app_nil_r (postfix e)), evalRPN_from_postfix.
  destruct (value Math_pow e); reflexivity.
Qed.

(** ** The blank test *)

Lemma trim_blank (s : jsstring) : forallb isWhite s = true -> trim s = [].
Proof.
  intros H. unfold trim. apply skip_nil_forallb in H. rewrite H. reflexivity.
Qed.

Lemma trim_nonblank (s : jsstring) (c : char) :
  In c s -> isWhite c = false -> isEmpty s || isEmpty (trim s) = false.
Proof.
  intros Hin Hc.
  assert (Hs : s <> []) by (intros ->; destruct Hin).
  assert (Ht : trim s <> []).
  { unfold trim. intros E.
    apply (f_equal (@rev char)) in E. rewrite rev_involutive in E. simpl in E.
    apply (skip_keeps isWhite s c Hin) in Hc as Hin'.
    apply in_rev in Hin'.
    apply (skip_keeps isWhite _ c Hin') in Hc as Hin''.
    rewrite E in Hin''. destruct Hin''. }
  destruct s; [congruence|]. destruct (trim (c0 :: s)); [congruence|reflexivity].
Qed.

Lemma render_not_blank (e : expr) :
  standard e = true -> exists c : char, In c (render e) /\ isWhite c = false.
Proof.
  induction e as [text|o l IHl r IHr|e IH]; simpl; intros Hstd.
  - unfold isLiteral in Hstd. destruct text as [|c text]; [discriminate|].
    simpl in Hstd. apply andb_true_iff in Hstd as [Hc _].
    exists c. split; [left; reflexivity|apply isNumChar_not_white, Hc].
  - rewrite !andb_true_iff in Hstd. destruct Hstd as [[[Hl _] _] _].
    destruct (IHl Hl) as [c [Hin Hc]].
    exists c. split; [apply in_or_app; left; exact Hin|exact Hc].
  - destruct (IH Hstd) as [c [Hin Hc]].
    exists c. split; [right; apply in_or_app; left; exact Hin|exact Hc].
Qed.

(** The engine on the text of an expression. *)
Lemma evaluateExpression_render (e : expr) :
  standard e = true ->
  evaluateExpression Math_pow (render e) = value Math_pow e.
Proof.
  intros Hstd. unfold evaluateExpression.
  destruct (render_not_blank e Hstd) as [c [Hin Hc]].
  rewrite (trim_nonblank _ c Hin Hc).
  rewrite (tokenize_render e Hstd). simpl bind.
  rewrite (toRPN_expr e Hstd). simpl bind.
  apply evalRPN_postfix.
Qed.

End EvaluatorFacts.

(** ** Unary signs *)

Lemma tokenize_from_operator (c : char) (s : jsstring) (tokens : list token) :
  isOperator c = true ->
  tokenize_from (c :: s) tokens = tokenize_from s (tokens ++ operatorTokens c tokens).
Proof.
  intros Hc. simpl.
  assert (Hw : isWhite c = false) by classes.
  assert (Hd : isDigit c || (c =? code ".") = false) by classes.
  assert (Hl : (c =? code "(") = false) by classes.
  assert (Hr : (c =? code ")") = false) by classes.
  assert (Hp : (c =? code "%") = false) by classes.
  rewrite Hw, Hd, Hl, Hr, Hp, Hc. reflexivity.
Qed.

Lemma unaryPosition_prev (tokens : list token) :
  unaryPosition (prev tokens) = true <-> signPosition tokens.
Proof.
  unfold signPosition.
  destruct (prev_cases tokens) as [[-> E]|[tokens' [t [-> E]]]]; rewrite E.
  - simpl. tauto.
  - split.
    + destruct t as [x|w|f| | |]; simpl; try discriminate; intros _.
      * right. right. exists tokens', w. reflexivity.
      * right. left. exists tokens'. reflexivity.
    + intros [H|[[u H]|[u [w H]]]].
      * destruct tokens'; discriminate.
      * apply app_inj_tail in H as [_ ->]. reflexivity.
      * apply app_inj_tail in H as [_ ->]. reflexivity.
Qed.

(** ** Parentheses *)

Lemma popOperators_parens (v : char) (ops out : list token) :
  openParens (snd (popOperators v out ops)) = openParens ops
  /\ (closedFree ops = true -> closedFree (snd (popOperators v out ops)) = true).
Proof.
  revert out. induction ops as [|t ops IH]; intros out; simpl.
  - split; [reflexivity|trivial].
  - destruct t as [x|w|f| | |]; simpl; try (split; [reflexivity|trivial]).
    destruct (yields v w); simpl; [apply IH|split; [reflexivity|trivial]].
Qed.

Lemma popToParen_parens (ops out : list token) :
  match snd (popToParen out ops) with
  | [] => openParens ops = 0%nat
  | t :: ops' =>
    t = lparen /\ openParens ops = S (openParens ops')
    /\ (closedFree ops = true -> closedFree ops' = true)
  end.
Proof.
  revert out. induction ops as [|t ops IH]; intros out; simpl.
  - reflexivity.
  - destruct t; simpl; try apply IH.
    + repeat split; trivial.
    + specialize (IH (out ++ [rparen])).
      destruct (snd (popToParen (out ++ [rparen]) ops)); [exact IH|].
      destruct IH as [-> [IH _]]. repeat split; [exact IH|discriminate].
Qed.

Lemma drain_parens (ops out : list token) :
  closedFree ops = true ->
  if Nat.eqb (openParens ops) 0 then exists rpn, drain out ops = Ok rpn
  else drain out ops = Throw MismatchedParentheses.
Proof.
  revert out. induction ops as [|t ops IH]; intros out Hc; simpl.
  - exists out. reflexivity.
  - destruct t; simpl in *; try (apply IH; assumption); try reflexivity.
    discriminate.
Qed.

(** The converter succeeds exactly on the sequences whose parentheses
    nest properly, and fails in no other way than by a mismatch. *)
Lemma toRPN_from_parens (tokens : list token) :
  forall out ops : list token,
    closedFree ops = true ->
    if balanced_from (openParens ops) tokens
    then exists rpn, toRPN_from tokens out ops = Ok rpn
    else toRPN_from tokens out ops = Throw MismatchedParentheses.
Proof.
  induction tokens as [|t tokens IH]; intros out ops Hc.
  - simpl. apply drain_parens, Hc.
  - destruct t as [x|w|f| | |]; simpl.
    + apply IH, Hc.
    + destruct (popOperators_parens w ops out) as [Ho Hc'].
      destruct (popOperators w out ops) as [out' ops']. simpl in *.
      rewrite <- Ho. apply (IH out' (op w :: ops')). simpl. auto.
    + apply (IH out (func f :: ops)). exact Hc.
    + apply IH, Hc.
    + apply (IH out (lparen :: ops)). exact Hc.
    + pose proof (popToParen_parens ops out) as Hp.
      destruct (popToParen out ops) as [out' ops']. simpl in Hp.
      destruct ops' as [|t ops'].
      * rewrite Hp. reflexivity.
      * destruct Hp as [-> [-> Hc']]. specialize (Hc' Hc).
        destruct ops' as [|[x|w|f| | |] ops']; try (apply IH; assumption).
        apply (IH (out' ++ [func f]) ops'). exact Hc'.
Qed.

Lemma toRPN_parens (tokens : list token) :
  if balanced tokens then exists rpn, toRPN tokens = Ok rpn
  else toRPN tokens = Throw MismatchedParentheses.
Proof. apply (toRPN_from_parens tokens [] []). reflexivity. Qed.

Lemma parens_from_skip (p : char -> bool) :
  (forall c : char, p c = true -> (c =? code "(") = false /\ (c =? code ")") = false) ->
  forall (s : jsstring) (d : nat), parens_from d (skip p s) = parens_from d s.
Proof.
  intros Hp. induction s as [|c s IH]; intros d; simpl; [reflexivity|].
  destruct (p c) eqn:Hc; [|reflexivity].
  destruct (Hp c Hc) as [-> ->]. apply IH.
Qed.

Lemma isNumChar_no_paren (c : char) :
  isNumChar c = true -> (c =? code "(") = false /\ (c =? code ")") = false.
Proof. intros H. classes. Qed.

Lemma isAlnum_no_paren (c : char) :
  isAlnum c = true -> (c =? code "(") = false /\ (c =? code ")") = false.
Proof. intros H. classes. Qed.

Lemma balanced_from_operatorTokens (c : char) (tokens new : list token) (d : nat) :
  balanced_from d (operatorTokens c tokens ++ new) = balanced_from d new.
Proof.
  unfold operatorTokens.
  destruct (((c =? code "+") || (c =? code "-")) && unaryPosition (prev tokens));
    reflexivity.
Qed.

(** The parentheses of the tokens are those of the string. *)
Lemma tokenize_from_parens (n : nat) :
  forall (s : jsstring) (acc tokens : list token),
    (List.length s <= n)%nat ->
    tokenize_from s acc = Ok tokens ->
    exists new : list token,
      tokens = acc ++ new
      /\ forall d : nat, balanced_from d new = parens_from d s.
Proof.
  induction n as [|n IH]; intros s acc tokens Hlen H.
  - destruct s; [|simpl in Hlen; lia].
    injection H as <-. exists []. rewrite app_nil_r. split; reflexivity.
  - destruct s as [|c s].
    { injection H as <-. exists []. rewrite app_nil_r. split; reflexivity. }
    simpl in Hlen. simpl in H.
    destruct (isWhite c) eqn:Hw.
    { apply IH in H as [new [E Hb]]; [|lia].
      exists new. split; [exact E|]. intros d. simpl.
      assert (Hl : (c =? code "(") = false) by classes.
      assert (Hr : (c =? code ")") = false) by classes.
      rewrite Hl, Hr. apply Hb. }
    destruct (isDigit c || (c =? code ".")) eqn:Hd.
    { apply IH in H as [new [E Hb]];
        [|pose proof (skip_length isNumChar s); lia].
      exists (num (c :: run isNumChar s) :: new).
      split; [rewrite E, <- app_assoc; reflexivity|]. intros d. simpl.
      destruct (isNumChar_no_paren c Hd) as [-> ->].
      rewrite Hb. apply parens_from_skip, isNumChar_no_paren. }
    destruct (c =? code "(") eqn:Hl.
    { apply IH in H as [new [E Hb]]; [|lia].
      exists (lparen :: new).
      split; [rewrite E, <- app_assoc; reflexivity|]. intros d. simpl.
      rewrite Hl. apply Hb. }
    destruct (c =? code ")") eqn:Hr.
    { apply IH in H as [new [E Hb]]; [|lia].
      exists (rparen :: new).
      split; [rewrite E, <- app_assoc; reflexivity|]. intros d. simpl.
      rewrite Hl, Hr. destruct d; [reflexivity|apply Hb]. }
    destruct (c =? code "%").
    { apply IH in H as [new [E Hb]]; [|lia].
      exists (percent :: new).
      split; [rewrite E, <- app_assoc; reflexivity|]. intros d. simpl.
      rewrite Hl, Hr. apply Hb. }
    destruct (isOperator c).
    { apply IH in H as [new [E Hb]]; [|lia].
      exists (operatorTokens c acc ++ new).
      split; [rewrite E, <- app_assoc; reflexivity|]. intros d. simpl.
      rewrite Hl, Hr, balanced_from_operatorTokens. apply Hb. }
    destruct (isAlpha c) eqn:Ha; [|discriminate].
    apply IH in H as [new [E Hb]];
      [|pose proof (skip_length isAlnum s); lia].
    exists (func (c :: run isAlnum s) :: new).
    split; [rewrite E, <- app_assoc; reflexivity|]. intros d. simpl.
    rewrite Hl, Hr, Hb. apply parens_from_skip, isAlnum_no_paren.
Qed.

Lemma tokenize_parens (s : jsstring) (tokens : list token) :
  tokenize s = Ok tokens -> balanced tokens = parensBalanced s.
Proof.
  intros H. apply (tokenize_from_parens (List.length s)) in H as [new [-> Hb]];
    [|lia].
  apply Hb.
Qed.

(** A string that passes the blank test is white space only. *)
Lemma blank_white (s : jsstring) :
  isEmpty s || isEmpty (trim s) = true -> forallb isWhite s = true.
Proof.
  intros H. apply forallb_forall. intros c Hin.
  destruct (isWhite c) eqn:Hc; [reflexivity|].
  rewrite (trim_nonblank s c Hin Hc) in H. discriminate.
Qed.

Lemma white_blank (s : jsstring) :
  forallb isWhite s = true -> isEmpty s || isEmpty (trim s) = true.
Proof.
  intros H. rewrite (trim_blank s H). apply orb_true_r.
Qed.

(** ** Numbers: zero and NaN *)

Lemma eqb_zero (b : float) :
  (b =? 0)%float = true <-> b = 0%float \/ b = (-0)%float.
Proof.
  rewrite eqb_spec. change (Prim2SF 0) with (S754_zero false). split.
  - intros H. rewrite <- (SF2Prim_Prim2SF b).
    destruct (Prim2SF b) as [[|]|[|]| |[|] m e]; try discriminate H.
    + right. reflexivity.
    + left. reflexivity.
  - intros [->| ->]; reflexivity.
Qed.

Lemma dots_digits (s : jsstring) : forallb isDigit s = true -> dots s = 0%nat.
Proof.
  unfold dots. induction s as [|c s IH]; simpl; [reflexivity|].
  intros H. apply andb_true_iff in H as [Hc Hs].
  destruct (N.eq_dec c (code ".")) as [->|_]; [discriminate|apply IH, Hs].
Qed.

Lemma dots_app (s t : jsstring) : dots (s ++ t) = (dots s + dots t)%nat.
Proof. apply count_occ_app. Qed.

Lemma dots_cons (c : char) (s : jsstring) :
  dots (c :: s) = ((if (c =? code ".")%N then 1 else 0) + dots s)%nat.
Proof.
  unfold dots. simpl.
  destruct (N.eq_dec c (code ".")) as [->|Hc]; [reflexivity|].
  apply N.eqb_neq in Hc. rewrite Hc. reflexivity.
Qed.

(** Digits and dots with two dots or more are not a number. *)
Lemma Number_dots (text : jsstring) :
  forallb isNumChar text = true -> (2 <= dots text)%nat -> Number text = nan.
Proof.
  intros Hall Hdots. unfold Number.
  pose proof (run_skip isDigit text) as E.
  pose proof (dots_digits _ (run_forallb isDigit text)) as Hrun.
  assert (Hd : (2 <= dots (skip isDigit text))%nat).
  { rewrite <- E, dots_app, Hrun in Hdots. exact Hdots. }
  destruct (skip isDigit text) as [|c rest]; [inversion Hd|].
  destruct (c =? code ".") eqn:Hdot; [|reflexivity].
  destruct (skip isDigit rest) eqn:Erest; [|reflexivity].
  apply skip_nil_forallb, dots_digits in Erest.
  rewrite dots_cons, Hdot, Erest in Hd. simpl in Hd.
  apply Nat.succ_le_mono in Hd. inversion Hd.
Qed.

Section LiteralFacts.

Variable Math_pow : float -> float -> float.

(** A number literal alone evaluates to its number. *)
Lemma evaluateExpression_literal (text : jsstring) :
  isLiteral text = true ->
  tokenize text = Ok [num text]
  /\ evaluateExpression Math_pow text = Ok (Number text).
Proof.
  intros H. exact (conj (tokenize_render (Lit text) H)
                        (evaluateExpression_render Math_pow (Lit text) H)).
Qed.

End LiteralFacts.

(** ** The standard reading of a text *)

Lemma render_graft (acc : expr) (o : binop) (a : expr) :
  render (graft acc o a) = render acc ++ symbol o :: render a.
Proof.
  induction acc as [text|o1 l1 _ r1 IH|t _]; simpl; try reflexivity.
  destruct (if rightAssoc o then _ else _); simpl; [|rewrite <- app_assoc; reflexivity].
  rewrite IH, <- app_assoc. reflexivity.
Qed.

Lemma render_reading (t : expr) :
  render (reading t) = render t
  /\ forall (acc : expr) (o : binop),
      render (extend acc o t) = render acc ++ symbol o :: render t.
Proof.
  induction t as [text|o l [IHl IHl'] r [IHr IHr']|t [IH IH']]; simpl.
  - split; [reflexivity|]. intros. apply render_graft.
  - split.
    + rewrite IHr', IHl. reflexivity.
    + intros acc o'. rewrite IHr', IHl', <- app_assoc. reflexivity.
  - split; [rewrite IH; reflexivity|].
    intros acc o. rewrite render_graft. simpl. rewrite IH. reflexivity.
Qed.

Lemma rootLevel_graft (acc : expr) (o : binop) (a : expr) :
  rootLevel (graft acc o a) = level o
  \/ (rootLevel (graft acc o a) = rootLevel acc
      /\ (if rightAssoc o then rootLevel acc <=? level o
          else rootLevel acc <? level o)%nat = true).
Proof.
  destruct acc as [text|o1 l1 r1|t]; simpl; auto.
  destruct (if rightAssoc o then _ else _) eqn:E; simpl; auto.
Qed.

Lemma standard_graft (acc : expr) (o : binop) (a : expr) :
  standard acc = true -> standard a = true -> atomic a = true ->
  standard (graft acc o a) = true.
Proof.
  intros Hacc Ha Hat.
  assert (Hr : rootLevel a = 4%nat) by (destruct a; [reflexivity|discriminate|reflexivity]).
  assert (Hbase : forall l : expr,
             standard l = true ->
             (if rightAssoc o then level o <? rootLevel l else level o <=? rootLevel l)%nat = true ->
             standard (Bin o l a) = true).
  { intros l Hl Hb. simpl. rewrite Hl, Ha, Hb, Hr. destruct o; reflexivity. }
  induction acc as [text|o1 l1 _ r1 IH|t _].
  - apply Hbase; [exact Hacc|]. destruct o; reflexivity.
  - simpl graft.
    destruct (if rightAssoc o then _ else _) eqn:E.
    + simpl in Hacc. rewrite !andb_true_iff in Hacc.
      destruct Hacc as [[[Hl1 Hr1] Hb1] Hb2].
      specialize (IH Hr1). simpl. rewrite Hl1, IH, Hb1. simpl.
      destruct (rootLevel_graft r1 o a) as [->|[-> _]]; [|exact Hb2].
      destruct o, o1; simpl in *; try reflexivity; discriminate E.
    + apply Hbase; [exact Hacc|]. simpl.
      destruct o, o1; simpl in *; try reflexivity; discriminate E.
  - apply Hbase; [exact Hacc|]. destruct o; reflexivity.
Qed.

Lemma standard_reading (t : expr) :
  literals t = true ->
  standard (reading t) = true
  /\ forall (acc : expr) (o : binop),
      standard acc = true -> standard (extend acc o t) = true.
Proof.
  induction t as [text|o l IHl r IHr|t IH]; simpl; intros H.
  - split; [exact H|]. intros acc o Hacc. apply standard_graft; auto.
  - apply andb_true_iff in H as [Hl Hr].
    destruct (IHl Hl) as [IHl1 IHl2]. destruct (IHr Hr) as [IHr1 IHr2].
    split; [apply IHr2, IHl1|]. intros acc o' Hacc. apply IHr2, IHl2, Hacc.
  - destruct (IH H) as [IH1 _]. split; [exact IH1|].
    intros acc o Hacc. apply standard_graft; auto.
Qed.

(** A tree that is standard is its own reading. *)
Lemma graft_standard (o : binop) (l a : expr) :
  (if rightAssoc o then level o <? rootLevel l else level o <=? rootLevel l)%nat = true ->
  graft l o a = Bin o l a.
Proof.
  intros H. destruct l as [text|o1 l1 r1|t]; try reflexivity.
  simpl in *. destruct o, o1; simpl in *; try reflexivity; discriminate H.
Qed.

Lemma graft_below (o1 : binop) (l1 r1 : expr) (o : binop) (a : expr) :
  above o1 o = true -> graft (Bin o1 l1 r1) o a = Bin o1 l1 (graft r1 o a).
Proof. unfold above. intros H. simpl. rewrite H. reflexivity. Qed.

Lemma extend_below (o1 : binop) (l1 : expr) (r : expr) :
  forall (x : expr) (o : binop),
    forallb (above o1) (o :: topOperators r) = true ->
    extend (Bin o1 l1 x) o r = Bin o1 l1 (extend x o r).
Proof.
  induction r as [text|o2 l2 IHl r2 IHr|t _]; intros x o H; simpl in H.
  - apply andb_true_iff in H as [H _]. apply graft_below, H.
  - apply andb_true_iff in H as [Ho H]. apply andb_true_iff in H as [Ho2 H].
    rewrite forallb_app in H. apply andb_true_iff in H as [Hl2 Hr2].
    simpl. rewrite IHl by (simpl; rewrite Ho, Hl2; reflexivity).
    apply IHr. simpl. rewrite Ho2, Hr2. reflexivity.
  - apply andb_true_iff in H as [H _]. apply graft_below, H.
Qed.

Lemma above_right_operand (o : binop) (l r : expr) :
  standard (Bin o l r) = true -> forallb (above o) (topOperators r) = true.
Proof.
  intros H. pose proof H as H'. simpl in H'. rewrite !andb_true_iff in H'.
  destruct H' as [[[_ Hr] _] Hb].
  apply forallb_forall. intros v Hin.
  pose proof (topOperators_level r Hr v Hin) as Hv. unfold above.
  destruct o, v; cbn [rightAssoc level] in *; try reflexivity;
    first [apply Nat.leb_le in Hb|apply Nat.ltb_lt in Hb]; lia.
Qed.

(** A standard tree is its own reading. *)
Lemma reading_standard (e : expr) :
  standard e = true ->
  reading e = e
  /\ forall (l : expr) (o : binop),
      standard (Bin o l e) = true -> extend l o e = Bin o l e.
Proof.
  induction e as [text|o2 l2 IHl r2 IHr|t IH]; intros He.
  - split; [reflexivity|]. intros l o H. simpl in *.
    rewrite !andb_true_iff in H. destruct H as [[_ Hb] _].
    apply graft_standard, Hb.
  - pose proof He as He'. simpl in He'. rewrite !andb_true_iff in He'.
    destruct He' as [[[Hl2 Hr2] Hb1] Hb2].
    destruct (IHl Hl2) as [El2 Xl2]. destruct (IHr Hr2) as [Er2 Xr2].
    split.
    + simpl. rewrite El2. apply Xr2, He.
    + intros l o H. simpl extend.
      pose proof (above_right_operand o l (Bin o2 l2 r2) H) as Ha.
      simpl in Ha. apply andb_true_iff in Ha as [Ho2 Ha].
      rewrite forallb_app in Ha. apply andb_true_iff in Ha as [Hal Har].
      assert (Hol2 : standard (Bin o l l2) = true).
      { pose proof H as H'. simpl in H'. rewrite !andb_true_iff in H'.
        destruct H' as [[[Hl _] Hbl] Hbr].
        simpl. rewrite Hl, Hl2, Hbl. simpl. simpl rootLevel in Hbr.
        assert (Hle : (level o2 <= rootLevel l2)%nat).
        { destruct (rightAssoc o2);
            [apply Nat.ltb_lt in Hb1|apply Nat.leb_le in Hb1]; lia. }
        destruct (rightAssoc o);
          [apply Nat.leb_le in Hbr; apply Nat.leb_le
          |apply Nat.ltb_lt in Hbr; apply Nat.ltb_lt]; lia. }
      rewrite (Xl2 l o Hol2).
      rewrite extend_below by (simpl; rewrite Ho2, Har; reflexivity).
      rewrite (Xr2 l2 o2 He). reflexivity.
  - simpl in He. destruct (IH He) as [Et _].
    split; [simpl; rewrite Et; reflexivity|].
    intros l o H. simpl extend. rewrite Et.
    simpl in H. rewrite !andb_true_iff in H. destruct H as [[_ Hb] _].
    apply graft_standard, Hb.
Qed.

(** ** NaN in arithmetic *)

Lemma nan_left (a : float) :
  (nan + a = nan /\ nan - a = nan /\ nan * a = nan /\ nan / a = nan)%float.
Proof.
  repeat split; apply Prim2SF_inj;
    rewrite ?add_spec, ?sub_spec, ?mul_spec, ?div_spec; reflexivity.
Qed.

Lemma nan_right (a : float) :
  (a + nan = nan /\ a - nan = nan /\ a * nan = nan /\ a / nan = nan)%float.
Proof.
  repeat split; apply Prim2SF_inj;
    rewrite ?add_spec, ?sub_spec, ?mul_spec, ?div_spec;
    change (Prim2SF nan) with S754_nan;
    destruct (Prim2SF a) as [[|]|[|]| |[|] m e]; reflexivity.
Qed.

Section Propagation.

Variable Math_pow : float -> float -> float.

Lemma apply_nan (o : binop) (a b v : float) :
  o <> Pow -> a = nan \/ b = nan -> apply Math_pow o a b = Ok v -> v = nan.
Proof.
  intros Ho Hab H.
  destruct (nan_left b) as [L1 [L2 [L3 L4]]].
  destruct (nan_right a) as [R1 [R2 [R3 R4]]].
  destruct o; simpl in H; try contradiction;
    try (destruct (b =? 0)%float; [discriminate H|]);
    injection H as H; subst v; destruct Hab as [->| ->]; assumption.
Qed.

(** NaN carries through [+ - * /]. *)
Lemma value_spoiled (e : expr) :
  standard e = true -> powFree e = true -> spoiled e = true ->
  forall v : float, value Math_pow e = Ok v -> v = nan.
Proof.
  induction e as [text|o l IHl r IHr|e IH]; simpl; intros Hstd Hpow Hsp v Hv.
  - injection Hv as <-. unfold isLiteral in Hstd. apply andb_true_iff in Hstd as [_ Hall].
    apply Number_dots; [exact Hall|]. apply Nat.leb_le, Hsp.
  - rewrite !andb_true_iff in Hstd. rewrite !andb_true_iff in Hpow.
    destruct Hstd as [[[Hl Hr] _] _]. destruct Hpow as [[Ho Hpl] Hpr].
    destruct (value Math_pow l) as [a|] eqn:El; [|discriminate].
    destruct (value Math_pow r) as [b|] eqn:Er; [|discriminate].
    simpl in Hv. apply (apply_nan o a b v); [destruct o; discriminate| |exact Hv].
    apply orb_true_iff in Hsp as [Hsp|Hsp].
    + left. apply (IHl Hl Hpl Hsp a eq_refl).
    + right. apply (IHr Hr Hpr Hsp b eq_refl).
  - apply IH; assumption.
Qed.

End Propagation.

(** * The claims *)

(** C1. On the text of every expression built from number literals, the
    operators [+ - * / ^] and parentheses, read with precedence
    [+ -] < [* /] < [^], [^] grouping from the right and the others from
    the left, [evaluateExpression] returns the value of that reading (and
    fails as it does, by a division by zero).  Every such text has that
    reading: whatever tree [t] the text was written from, [reading t] is a
    standard tree with the same text, and a standard tree is its own
    reading.  In particular ["2+3*4"] is 14, ["8-3-2"] is 3, and
    ["2^3^2"] is [2^(3^2)], which is 512 when [Math.pow] is exact on these
    arguments. *)
Theorem evaluate_standard_arithmetic (Math_pow : float -> float -> float) :
  (forall e : expr,
      standard e = true ->
      evaluateExpression Math_pow (render e) = value Math_pow e)
  /\ (forall t : expr,
      literals t = true ->
      standard (reading t) = true
      /\ render (reading t) = render t
      /\ evaluateExpression Math_pow (render t) = value Math_pow (reading t))
  /\ (forall e : expr, standard e = true -> reading e = e)
  /\ evaluateExpression Math_pow (js "2+3*4") = Ok 14%float
  /\ evaluateExpression Math_pow (js "8-3-2") = Ok 3%float
  /\ evaluateExpression Math_pow (js "2^3^2")
     = Ok (Math_pow 2%float (Math_pow 3%float 2%float))
  /\ (Math_pow 3%float 2%float = 9%float ->
      Math_pow 2%float 9%float = 512%float ->
      evaluateExpression Math_pow (js "2^3^2") = Ok 512%float).
Proof.
  split; [exact (evaluateExpression_render Math_pow)|].
  split.
  { intros t Ht. destruct (standard_reading t Ht) as [Hstd _].
    destruct (render_reading t) as [Hr _].
    split; [exact Hstd|]. split; [exact Hr|].
    rewrite <- Hr. apply evaluateExpression_render, Hstd. }
  split; [intros e He; apply (reading_standard e He)|].
  split; [reflexivity|]. split; [reflexivity|]. split; [reflexivity|].
  intros H32 H29.
  change (evaluateExpression Math_pow (js "2^3^2"))
    with (@Ok float (Math_pow 2%float (Math_pow 3%float 2%float))).
  rewrite H32, H29. reflexivity.
Qed.

Lemma evaluate_standard_arithmetic_witness :
  let e := Bin Add (Lit (js "2")) (Bin Mul (Paren (Bin Sub (Lit (js "3")) (Lit (js "1.5"))))
                                       (Bin Pow (Lit (js "2")) (Bin Pow (Lit (js "3")) (Lit (js "2"))))) in
  let t := Bin Pow (Bin Mul (Bin Add (Lit (js "2")) (Paren (Bin Sub (Lit (js "3")) (Lit (js "1.5")))))
                            (Lit (js "2")))
                   (Bin Pow (Lit (js "3")) (Lit (js "2"))) in
  render e = js "2+(3-1.5)*2^3^2"
  /\ evaluateExpression samplePow (render e) = Ok 770%float
  /\ render t = render e /\ reading t = e
  /\ evaluateExpression samplePow (render t) = Ok 770%float
  /\ evaluateExpression samplePow (js "2^3^2") = Ok 512%float.
Proof.
  intros e t.
  destruct (evaluate_standard_arithmetic samplePow) as [H [Hr [_ [_ [_ [_ H']]]]]].
  split; [reflexivity|]. split; [rewrite (H e); reflexivity|].
  split; [reflexivity|]. split; [reflexivity|]. split.
  - destruct (Hr t) as [_ [_ Ht]]; [reflexivity|]. rewrite Ht. reflexivity.
  - apply H'; reflexivity.
Defined.

(** C2. Where an operator character follows a prefix that tokenizes to
    [t1], the tokenizer pushes a synthetic [num "0"] before the operator
    token exactly when the character is [+] or [-] and [t1] is empty or
    ends in ['('] or in an operator; for [*], [/] and [^] it never does.
    So ["-5"] is [0 - 5], and ["-5+2"] evaluates to -3. *)
Theorem tokenize_unary_sign :
  (forall (s1 s2 : jsstring) (c : char) (t1 : list token),
      isOperator c = true ->
      tokenize s1 = Ok t1 ->
      let unary := (c = code "+" \/ c = code "-") /\ signPosition t1 in
      (unary ->
       tokenize (s1 ++ c :: s2) = tokenize_from s2 (t1 ++ [num (js "0"); op c]))
      /\ (~ unary ->
          tokenize (s1 ++ c :: s2) = tokenize_from s2 (t1 ++ [op c])))
  /\ tokenize (js "-5") = Ok [num (js "0"); op (code "-"); num (js "5")]
  /\ forall Math_pow : float -> float -> float,
      evaluateExpression Math_pow (js "-5+2") = Ok (-3)%float.
Proof.
  split; [|split; [reflexivity|intros; reflexivity]].
  intros s1 s2 c t1 Hc H1 unary.
  destruct (isOperator_classes c Hc) as [Hn Ha].
  assert (E : tokenize (s1 ++ c :: s2)
              = tokenize_from s2 (t1 ++ operatorTokens c t1)).
  { unfold tokenize.
    rewrite (tokenize_from_split c s2 Hn Ha (List.length s1)) by lia.
    fold (tokenize s1). rewrite H1. simpl bind.
    apply tokenize_from_operator, Hc. }
  rewrite E. unfold operatorTokens, unary.
  destruct (unaryPosition (prev t1)) eqn:Hu.
  - apply unaryPosition_prev in Hu.
    destruct ((c =? code "+") || (c =? code "-")) eqn:Hs.
    + apply orb_true_iff in Hs. rewrite !N.eqb_eq in Hs.
      split; [reflexivity|]. intros Hnot. exfalso. apply Hnot. tauto.
    + apply orb_false_iff in Hs. rewrite !N.eqb_neq in Hs.
      split; [|reflexivity]. intros [[H|H] _]; tauto.
  - rewrite andb_false_r. split; [|reflexivity].
    intros [_ Hp]. apply unaryPosition_prev in Hp. congruence.
Qed.

Lemma tokenize_unary_sign_witness :
  tokenize (js "2*(-3" ++ code "/" :: js "+4")
  = Ok [num (js "2"); op (code "*"); lparen; num (js "0"); op (code "-");
        num (js "3"); op (code "/"); num (js "0"); op (code "+"); num (js "4")].
Proof.
  destruct tokenize_unary_sign as [H _].
  destruct (H (js "2*(-3") (js "+4") (code "/")
              [num (js "2"); op (code "*"); lparen; num (js "0"); op (code "-");
               num (js "3")] eq_refl eq_refl) as [_ Hb].
  rewrite Hb; [reflexivity|].
  intros [[H1|H1] _]; discriminate H1.
Defined.

(** C3. The converter puts a [percent] token and then a synthetic [op %]
    straight into the output and leaves the operator stack as it is; the
    evaluator, on [op %], replaces the top [a] of the stack by [a / 100]
    and throws 'Invalid percent' on an empty stack (the [percent] token
    itself is passed over).  So ["50%"] evaluates to 0.5. *)
Theorem percent_postfix (Math_pow : float -> float -> float) :
  (forall rest out ops : list token,
      toRPN_from (percent :: rest) out ops
      = toRPN_from rest (out ++ [percent; op (code "%")]) ops)
  /\ (forall (rest : list token) (a : float) (st : list float),
         evalRPN_from Math_pow (op (code "%") :: rest) (a :: st)
         = evalRPN_from Math_pow rest ((a / 100)%float :: st))
  /\ (forall rest : list token,
         evalRPN_from Math_pow (op (code "%") :: rest) [] = Throw InvalidPercent)
  /\ (forall (rest : list token) (st : list float),
         evalRPN_from Math_pow (percent :: rest) st
         = evalRPN_from Math_pow rest st)
  /\ toRPN [num (js "50"); percent] = Ok [num (js "50"); percent; op (code "%")]
  /\ evaluateExpression Math_pow (js "50%") = Ok 0.5%float.
Proof. repeat split; reflexivity. Qed.

(** The quotient of two expressions. *)
Lemma evaluateExpression_quotient (Math_pow : float -> float -> float)
    (l r : expr) (a b : float) :
  standard (Bin Div l r) = true ->
  evaluateExpression Math_pow (render l) = Ok a ->
  evaluateExpression Math_pow (render r) = Ok b ->
  evaluateExpression Math_pow (render l ++ code "/" :: render r)
  = if (b =? 0)%float then Throw DivideByZero else Ok (a / b)%float.
Proof.
  intros Hstd Hl Hr.
  pose proof Hstd as H. simpl in H.
  apply andb_true_iff in H as [H _]. apply andb_true_iff in H as [H _].
  apply andb_true_iff in H as [Sl Sr].
  rewrite (evaluateExpression_render Math_pow l Sl) in Hl.
  rewrite (evaluateExpression_render Math_pow r Sr) in Hr.
  change (render l ++ code "/" :: render r) with (render (Bin Div l r)).
  rewrite (evaluateExpression_render Math_pow _ Hstd).
  simpl. rewrite Hl, Hr. reflexivity.
Qed.

(** C4. A division whose divisor [b] is zero ([+0] or [-0], the values
    with [b === 0]) throws 'Divide by zero' and pushes nothing; any other
    divisor has [a / b] pushed in place of [a] and [b], and the loop goes
    on from there.  So it is for the step alone, for the postfix of two
    numbers, and for the text of a quotient of two expressions, whose
    value is [a / b] when the divisor is not zero.  ["5/0"] fails with
    that error, and ["6/3"] is 2. *)
Theorem division_by_zero (Math_pow : float -> float -> float) :
  (forall (rest : list token) (a b : float) (st : list float),
      evalRPN_from Math_pow (op (code "/") :: rest) (b :: a :: st)
      = if (b =? 0)%float then Throw DivideByZero
        else evalRPN_from Math_pow rest ((a / b)%float :: st))
  /\ (forall (a b : float) (st : list float),
         evalToken Math_pow (op (code "/")) (b :: a :: st)
         = if (b =? 0)%float then Throw DivideByZero
           else Ok ((a / b)%float :: st))
  /\ (forall ta tb : jsstring,
         evalRPN Math_pow [num ta; num tb; op (code "/")]
         = if (Number tb =? 0)%float then Throw DivideByZero
           else Ok (Number ta / Number tb)%float)
  /\ (forall (l r : expr) (a b : float),
         standard (Bin Div l r) = true ->
         evaluateExpression Math_pow (render l) = Ok a ->
         evaluateExpression Math_pow (render r) = Ok b ->
         evaluateExpression Math_pow (render l ++ code "/" :: render r)
         = if (b =? 0)%float then Throw DivideByZero else Ok (a / b)%float)
  /\ (forall b : float, (b =? 0)%float = true <-> b = 0%float \/ b = (-0)%float)
  /\ evaluateExpression Math_pow (js "5/0") = Throw DivideByZero
  /\ evaluateExpression Math_pow (js "5/-0") = Throw DivideByZero
  /\ evaluateExpression Math_pow (js "0/0") = Throw DivideByZero
  /\ evaluateExpression Math_pow (js "6/3") = Ok 2%float
  /\ evaluateExpression Math_pow (js "0/5") = Ok 0%float
  /\ evaluateExpression Math_pow (js "1/4") = Ok 0.25%float.
Proof.
  split.
  { intros rest a b st.
    change (evalRPN_from Math_pow (op (code "/") :: rest) (b :: a :: st))
      with (st' <- (if (b =? 0)%float then Throw DivideByZero
                    else Ok ((a / b)%float :: st)) ;;
            evalRPN_from Math_pow rest st').
    destruct (b =? 0)%float; reflexivity. }
  split; [reflexivity|].
  split.
  { intros ta tb.
    change (evalRPN Math_pow [num ta; num tb; op (code "/")])
      with (st <- (st' <- (if (Number tb =? 0)%float then Throw DivideByZero
                           else Ok [(Number ta / Number tb)%float]) ;; Ok st') ;;
            finish st).
    destruct (Number tb =? 0)%float; reflexivity. }
  split; [exact (evaluateExpression_quotient Math_pow)|].
  split; [exact eqb_zero|].
  repeat split; reflexivity.
Qed.

Lemma division_by_zero_witness :
  evaluateExpression samplePow (js "6/(1+2)") = Ok 2%float
  /\ evaluateExpression samplePow (js "6/(1-1)") = Throw DivideByZero.
Proof.
  destruct (division_by_zero samplePow) as [_ [_ [_ [H _]]]].
  split.
  - exact (H (Lit (js "6")) (Paren (Bin Add (Lit (js "1")) (Lit (js "2"))))
             6%float 3%float eq_refl eq_refl eq_refl).
  - exact (H (Lit (js "6")) (Paren (Bin Sub (Lit (js "1")) (Lit (js "1"))))
             6%float 0%float eq_refl eq_refl eq_refl).
Defined.

(** C5. [toRPN] throws 'Mismatched parentheses' exactly when the
    parentheses of the tokens do not nest properly (a [')'] with no ['(']
    open, or a ['('] left open at the end), and it fails in no other way.
    A string whose parentheses do not nest fails before evaluation: with
    this error from the converter once it is tokenized, or with the
    tokenizer's own error.  So ["(2+3"] fails with this error. *)
Theorem toRPN_mismatched_parentheses :
  (forall tokens : list token,
      toRPN tokens = Throw MismatchedParentheses <-> balanced tokens = false)
  /\ (forall tokens : list token,
         (exists rpn, toRPN tokens = Ok rpn) <-> balanced tokens = true)
  /\ (forall (Math_pow : float -> float -> float) (s : jsstring),
         parensBalanced s = false ->
         match tokenize s with
         | Ok tokens =>
           toRPN tokens = Throw MismatchedParentheses
           /\ evaluateExpression Math_pow s = Throw MismatchedParentheses
         | Throw e => evaluateExpression Math_pow s = Throw e
         end)
  /\ (forall Math_pow : float -> float -> float,
         evaluateExpression Math_pow (js "(2+3") = Throw MismatchedParentheses).
Proof.
  split; [|split; [|split; [|reflexivity]]].
  - intros tokens. pose proof (toRPN_parens tokens) as H.
    destruct (balanced tokens).
    + destruct H as [rpn ->]. split; discriminate.
    + tauto.
  - intros tokens. pose proof (toRPN_parens tokens) as H.
    destruct (balanced tokens).
    + tauto.
    + rewrite H. split; [intros [rpn Hr]|]; discriminate.
  - intros Math_pow s Hs. unfold evaluateExpression.
    destruct (isEmpty s || isEmpty (trim s)) eqn:Hblank.
    { apply blank_white in Hblank.
      pose proof (tokenize_parens s [] (tokenize_from_white s [] Hblank)) as Hb.
      rewrite Hs in Hb. discriminate. }
    destruct (tokenize s) as [tokens|e] eqn:Ht; [|reflexivity].
    apply tokenize_parens in Ht. rewrite Hs in Ht.
    pose proof (toRPN_parens tokens) as H. rewrite Ht in H.
    split; [exact H|]. cbv beta iota delta [bind]. rewrite H. reflexivity.
Qed.

Lemma toRPN_mismatched_parentheses_witness :
  toRPN [num (js "2"); rparen; lparen] = Throw MismatchedParentheses
  /\ evaluateExpression samplePow (js "2+3)*(4") = Throw MismatchedParentheses.
Proof.
  destruct toRPN_mismatched_parentheses as [H1 [_ [H3 _]]].
  split.
  - apply H1. reflexivity.
  - exact (proj2 (H3 samplePow (js "2+3)*(4") eq_refl)).
Defined.

(** C6. On a [func] token the evaluator first pops its argument, and
    throws 'Func missing arg' on an empty stack whatever the name; then
    it looks the name up, throws 'Unknown function: name' for any name
    but [sqrt], and pushes the square root for [sqrt].  So ["sqrt(9)"]
    evaluates to 3. *)
Theorem function_call (Math_pow : float -> float -> float) :
  (forall (name : jsstring) (rest : list token),
      evalRPN_from Math_pow (func name :: rest) [] = Throw FuncMissingArg)
  /\ (forall (name : jsstring) (rest : list token) (a : float) (st : list float),
         name <> js "sqrt" ->
         evalRPN_from Math_pow (func name :: rest) (a :: st)
         = Throw (UnknownFunction name))
  /\ (forall (rest : list token) (a : float) (st : list float),
         evalRPN_from Math_pow (func (js "sqrt") :: rest) (a :: st)
         = evalRPN_from Math_pow rest (sqrt a :: st))
  /\ evaluateExpression Math_pow (js "sqrt(9)") = Ok 3%float.
Proof.
  repeat split; try reflexivity.
  intros name rest a st Hname. simpl. unfold callFunc, jsstring_eqb.
  destruct (list_eq_dec N.eq_dec name (js "sqrt")); [contradiction|reflexivity].
Qed.

Lemma function_call_witness :
  evalRPN_from samplePow [func (js "cbrt"); num (js "1")] [8%float]
  = Throw (UnknownFunction (js "cbrt")).
Proof.
  destruct (function_call samplePow) as [_ [H _]].
  apply H. discriminate.
Defined.

(** C7. When the evaluator has consumed every token, a stack of exactly
    one value gives that value as the result, and a stack of any other
    size (none, or two and more) throws 'Invalid expression'. *)
Theorem final_stack (Math_pow : float -> float -> float)
    (rpn : list token) (st : list float) :
  evalRPN_from Math_pow rpn [] = Ok st ->
  (forall v : float, st = [v] -> evalRPN Math_pow rpn = Ok v)
  /\ (List.length st <> 1%nat -> evalRPN Math_pow rpn = Throw InvalidExpression).
Proof.
  intros H. unfold evalRPN. rewrite H. simpl. split.
  - intros v ->. reflexivity.
  - destruct st as [|a [|b st]]; simpl; intros Hn; try reflexivity.
    contradiction.
Qed.

Lemma final_stack_witness :
  evalRPN samplePow [num (js "4")] = Ok 4%float
  /\ evalRPN samplePow [] = Throw InvalidExpression
  /\ evalRPN samplePow [num (js "2"); num (js "3")] = Throw InvalidExpression.
Proof.
  split; [|split].
  - apply (final_stack samplePow [num (js "4")] [4%float] eq_refl). reflexivity.
  - apply (final_stack samplePow [] [] eq_refl). discriminate.
  - apply (final_stack samplePow [num (js "2"); num (js "3")]
                       [3%float; 2%float] eq_refl).
    discriminate.
Defined.

(** C10. On the empty string and on a string of white space only,
    [evaluateExpression] returns 0 before any stage runs; the stages
    themselves, run on such a string, would throw 'Invalid expression'. *)
Theorem blank_expression (Math_pow : float -> float -> float) (s : jsstring) :
  forallb isWhite s = true ->
  evaluateExpression Math_pow s = Ok 0%float
  /\ (tokens <- tokenize s ;; rpn <- toRPN tokens ;; evalRPN Math_pow rpn)
     = Throw InvalidExpression.
Proof.
  intros H. unfold evaluateExpression. rewrite (white_blank s H).
  unfold tokenize. rewrite (tokenize_from_white s [] H).
  split; reflexivity.
Qed.

Lemma blank_expression_witness :
  evaluateExpression samplePow [] = Ok 0%float
  /\ evaluateExpression samplePow [32; 9; 10; 160; 8195; 65279] = Ok 0%float.
Proof.
  split.
  - apply (blank_expression samplePow []). reflexivity.
  - apply (blank_expression samplePow [32; 9; 10; 160; 8195; 65279]). reflexivity.
Defined.

(** ** Stripping zeros *)

Lemma isZeros_forallb (s : jsstring) : isZeros s = true -> forallb isZero s = true.
Proof. unfold isZeros. intros H. apply andb_true_iff in H. tauto. Qed.

(** A match of [/\.?0+$/] is made of dots and zeros only. *)
Lemma matchesDotZeros_chars (s : jsstring) (c : char) :
  matchesDotZeros s = true -> In c s -> c = code "." \/ c = code "0".
Proof.
  unfold matchesDotZeros. intros H Hin. apply orb_true_iff in H as [H|H].
  - apply isZeros_forallb in H. rewrite forallb_forall in H.
    specialize (H c Hin). apply N.eqb_eq in H. right. exact H.
  - destruct s as [|d s]; [discriminate|].
    apply andb_true_iff in H as [Hd H]. apply N.eqb_eq in Hd. subst d.
    destruct Hin as [<-|Hin]; [left; reflexivity|].
    apply isZeros_forallb in H. rewrite forallb_forall in H.
    specialize (H c Hin). apply N.eqb_eq in H. right. exact H.
Qed.

(** No match starts before a dot that is not the first character. *)
Lemma matchesDotZeros_inner_dot (c : char) (t z : jsstring) :
  matchesDotZeros (c :: t ++ code "." :: z) = false.
Proof.
  assert (Hz : forall u : jsstring, isZeros (u ++ code "." :: z) = false).
  { intros u. unfold isZeros. rewrite forallb_app. simpl.
    rewrite andb_false_r, andb_false_r. reflexivity. }
  unfold matchesDotZeros.
  pose proof (Hz (c :: t)) as H1. simpl app in H1.
  rewrite H1, (Hz t), andb_false_r. reflexivity.
Qed.

Lemma replaceDotZeros_dot (t z : jsstring) :
  isZeros z = true -> replaceDotZeros (t ++ code "." :: z) = t.
Proof.
  intros Hz. induction t as [|c t IH].
  - simpl app.
    change (replaceDotZeros (code "." :: z))
      with (if matchesDotZeros (code "." :: z) then []
            else code "." :: replaceDotZeros z).
    unfold matchesDotZeros. rewrite Hz, N.eqb_refl, orb_true_r. reflexivity.
  - simpl app.
    change (replaceDotZeros (c :: t ++ code "." :: z))
      with (if matchesDotZeros (c :: t ++ code "." :: z) then []
            else c :: replaceDotZeros (t ++ code "." :: z)).
    rewrite matchesDotZeros_inner_dot, IH. reflexivity.
Qed.

Lemma replaceDotZeros_zeros (t z : jsstring) :
  forallb isZero z = true -> endsSignificant t = true ->
  replaceDotZeros (t ++ z) = t.
Proof.
  intros Hz. induction t as [|c t IH]; intros Ht.
  - simpl app. destruct z as [|d z]; [reflexivity|].
    change (replaceDotZeros (d :: z))
      with (if matchesDotZeros (d :: z) then [] else d :: replaceDotZeros z).
    unfold matchesDotZeros, isZeros. rewrite Hz. reflexivity.
  - simpl app.
    change (replaceDotZeros (c :: t ++ z))
      with (if matchesDotZeros (c :: t ++ z) then []
            else c :: replaceDotZeros (t ++ z)).
    assert (Hlast : exists t' d, c :: t = t' ++ [d]
                                 /\ d <> code "." /\ d <> code "0").
    { destruct (@exists_last _ (c :: t)) as [t' [d E]]; [discriminate|].
      exists t', d. split; [exact E|].
      unfold endsSignificant in Ht. rewrite E, rev_app_distr in Ht. simpl in Ht.
      apply andb_true_iff in Ht as [H0 Hd]. unfold isZero in H0.
      apply negb_true_iff in H0, Hd. apply N.eqb_neq in H0, Hd.
      split; congruence. }
    destruct Hlast as [t' [d [E [Hd H0]]]].
    destruct (matchesDotZeros (c :: t ++ z)) eqn:Hm.
    { exfalso. apply (matchesDotZeros_chars _ d) in Hm; [tauto|].
      rewrite app_comm_cons, E. apply in_or_app. left.
      apply in_or_app. right. left. reflexivity. }
    rewrite IH; [reflexivity|].
    destruct t as [|c' t]; [reflexivity|].
    unfold endsSignificant in *. simpl rev in *.
    destruct (rev t ++ [c']) eqn:Er; [destruct (rev t); discriminate|].
    simpl in Ht. exact Ht.
Qed.

(** On a string that does not end with a dot, removing the leftmost match
    of [/\.?0+$/] is stripping the trailing zeros and then a trailing
    dot. *)
Lemma replaceDotZeros_strip (s : jsstring) :
  endsWithDot s = false -> replaceDotZeros s = stripTrailingZeros s.
Proof.
  intros Hs. unfold stripTrailingZeros.
  pose proof (run_skip isZero (rev s)) as E.
  pose proof (run_forallb isZero (rev s)) as Hz.
  pose proof (skip_stops isZero (rev s)) as Hstop.
  set (t := rev (skip isZero (rev s))) in *.
  set (z := rev (run isZero (rev s))) in *.
  assert (Es : s = t ++ z).
  { subst t z. rewrite <- rev_app_distr, E, rev_involutive. reflexivity. }
  assert (Hz' : forallb isZero z = true).
  { subst z. apply forallb_forall. intros c Hc. apply in_rev in Hc.
    rewrite forallb_forall in Hz. apply Hz, Hc. }
  assert (Ert : rev t = skip isZero (rev s)) by (subst t; apply rev_involutive).
  rewrite Ert. destruct (skip isZero (rev s)) as [|c r] eqn:Esk.
  - assert (t = []) by (destruct t; [reflexivity|destruct (rev t); discriminate || (simpl in Ert; destruct (rev t); discriminate)]).
    rewrite Es. apply replaceDotZeros_zeros; [exact Hz'|]. subst t. reflexivity.
  - simpl in Hstop. destruct (c =? code ".") eqn:Hc.
    + apply N.eqb_eq in Hc. subst c.
      assert (Et : t = rev r ++ [code "."]).
      { rewrite <- (rev_involutive t), Ert. reflexivity. }
      rewrite Es, Et, <- app_assoc. simpl app.
      apply replaceDotZeros_dot. unfold isZeros. rewrite Hz', andb_true_r.
      destruct z as [|d z]; [|reflexivity].
      rewrite Es, Et, app_nil_r in Hs. unfold endsWithDot in Hs.
      rewrite rev_app_distr in Hs. discriminate.
    + rewrite Es at 1. apply replaceDotZeros_zeros; [exact Hz'|].
      unfold endsSignificant. rewrite Ert. rewrite Hstop, Hc. reflexivity.
Qed.

(** ** The shape of [String] and [toFixed] *)

Lemma isDigit_not_dot (c : char) : isDigit c = true -> (c =? code ".") = false.
Proof. intros H. classes. Qed.

Lemma endsWithDot_app (a b : jsstring) :
  b <> [] -> endsWithDot (a ++ b) = endsWithDot b.
Proof.
  intros Hb. unfold endsWithDot. rewrite rev_app_distr.
  destruct (rev b) eqn:E; [|reflexivity].
  apply (f_equal (@rev char)) in E. rewrite rev_involutive in E. contradiction.
Qed.

Lemma endsWithDot_digits (s : jsstring) :
  forallb isDigit s = true -> endsWithDot s = false.
Proof.
  intros H. unfold endsWithDot. destruct (rev s) as [|c r] eqn:E; [reflexivity|].
  apply isDigit_not_dot. rewrite forallb_forall in H. apply H, in_rev.
  rewrite E. left. reflexivity.
Qed.

Lemma endsWithDot_tail (a b : jsstring) :
  b <> [] -> forallb isDigit b = true -> endsWithDot (a ++ b) = false.
Proof.
  intros Hb Hd. rewrite (endsWithDot_app a b Hb). apply endsWithDot_digits, Hd.
Qed.

Lemma string_of_uint_digits (d : Decimal.uint) :
  forallb isDigit (js (NilEmpty.string_of_uint d)) = true.
Proof. induction d; simpl; try reflexivity; exact IHd. Qed.

Lemma digitsOf_digits (n : Z) : forallb isDigit (digitsOf n) = true.
Proof.
  unfold digitsOf, NilZero.string_of_uint.
  destruct (N.to_uint (Z.to_N n)); try reflexivity; apply string_of_uint_digits.
Qed.

Lemma digitsOf_nonempty (n : Z) : digitsOf n <> [].
Proof.
  unfold digitsOf, NilZero.string_of_uint.
  destruct (N.to_uint (Z.to_N n)); discriminate.
Qed.

Lemma zeros_digits (n : nat) : forallb isDigit (zeros n) = true.
Proof. induction n; simpl; [reflexivity|exact IHn]. Qed.

Lemma decimalDigits_length (k : nat) :
  forall s : Z, List.length (decimalDigits k s) = k.
Proof.
  induction k as [|k IH]; intros s; simpl; [reflexivity|].
  rewrite length_app, IH. simpl. lia.
Qed.

Lemma decimalDigits_digits (k : nat) :
  forall s : Z, forallb isDigit (decimalDigits k s) = true.
Proof.
  induction k as [|k IH]; intros s; [reflexivity|].
  cbn [decimalDigits]. rewrite forallb_app, IH. cbn [forallb andb].
  rewrite andb_true_r.
  pose proof (Z.mod_pos_bound s 10 ltac:(lia)) as Hm.
  assert (Hd : (Z.to_N (s mod 10) < Z.to_N 10)%N) by (apply Z2N.inj_lt; lia).
  change (Z.to_N 10) with 10%N in Hd.
  generalize dependent (Z.to_N (s mod 10)). intros d Hd.
  unfold isDigit. codes.
  apply andb_true_iff. split; apply N.leb_le; lia.
Qed.

Lemma forallb_skipn (p : char -> bool) (n : nat) (s : jsstring) :
  forallb p s = true -> forallb p (skipn n s) = true.
Proof.
  revert s. induction n as [|n IH]; intros s H; [exact H|].
  destruct s as [|c s]; [reflexivity|].
  simpl in *. apply andb_true_iff in H. apply IH. tauto.
Qed.

Lemma skipn_nonempty (n : nat) (s : jsstring) :
  (n < List.length s)%nat -> skipn n s <> [].
Proof.
  intros H E. apply (f_equal (@List.length char)) in E.
  rewrite length_skipn in E. simpl in E. lia.
Qed.

Lemma signedExponent_end (a : jsstring) (e : Z) :
  endsWithDot (a ++ signedExponent e) = false.
Proof.
  unfold signedExponent. rewrite app_assoc.
  apply endsWithDot_tail; [apply digitsOf_nonempty|apply digitsOf_digits].
Qed.

Lemma layout_end (n k : Z) (ds : jsstring) :
  ds <> [] -> forallb isDigit ds = true -> List.length ds = Z.to_nat k ->
  endsWithDot (layout n k ds) = false.
Proof.
  intros Hne Hds Hlen. unfold layout.
  destruct ((k <=? n)%Z && (n <=? 21)%Z) eqn:H1.
  { apply endsWithDot_digits. rewrite forallb_app, Hds. apply zeros_digits. }
  destruct ((0 <? n)%Z && (n <=? 21)%Z) eqn:H2.
  { apply andb_true_iff in H2 as [Hn0 Hn21]. rewrite Hn21, andb_true_r in H1.
    apply Z.leb_gt in H1. apply Z.ltb_lt in Hn0.
    rewrite app_assoc. apply endsWithDot_tail.
    - apply skipn_nonempty. rewrite Hlen. lia.
    - apply forallb_skipn, Hds. }
  destruct ((-6 <? n)%Z && (n <=? 0)%Z).
  { rewrite app_assoc. apply endsWithDot_tail; assumption. }
  destruct (k =? 1)%Z.
  - rewrite app_assoc. apply signedExponent_end.
  - rewrite !app_assoc. apply signedExponent_end.
Qed.

Lemma shortest_In (iv : Q * Q * bool) (q : Q) (N : Z) (ks : list Z) (n k s : Z) :
  shortest iv q N ks = Some (n, k, s) -> In k ks.
Proof.
  induction ks as [|k' ks IH]; simpl; [discriminate|].
  destruct (candidates iv q N k') as [|c cs].
  - intros H. right. apply IH, H.
  - destruct (fold_left (nearer q k') cs c) as [n' s'].
    intros H. injection H as _ <- _. left. reflexivity.
Qed.

Lemma String_positive_end (m : positive) (e : Z) :
  endsWithDot (String_positive m e) = false.
Proof.
  unfold String_positive.
  destruct (shortest _ _ _ _) as [[[n k] s]|] eqn:E; [|reflexivity].
  apply shortest_In in E. apply in_map_iff in E as [i [<- Hi]].
  apply in_seq in Hi.
  apply layout_end.
  - intros H. apply (f_equal (@List.length char)) in H.
    rewrite decimalDigits_length in H. simpl in H. lia.
  - apply decimalDigits_digits.
  - apply decimalDigits_length.
Qed.

Lemma endsWithDot_sign (b : bool) (s : jsstring) :
  endsWithDot s = false -> endsWithDot ((if b then js "-" else []) ++ s) = false.
Proof.
  intros H. destruct b; [|exact H].
  destruct s as [|c r]; [reflexivity|].
  rewrite endsWithDot_app by discriminate. exact H.
Qed.

(** [String(x)] never ends with a dot. *)
Lemma String_end (x : float) : endsWithDot (String_ x) = false.
Proof.
  unfold String_. destruct (Prim2SF x) as [s|s| |s m e].
  - reflexivity.
  - destruct s; reflexivity.
  - reflexivity.
  - apply endsWithDot_sign, String_positive_end.
Qed.

(** [x.toFixed(f)] never ends with a dot. *)
Lemma toFixed_end (f : nat) (x : float) : endsWithDot (toFixed f x) = false.
Proof.
  unfold toFixed. destruct (negb (isFinite x)); [apply String_end|].
  apply endsWithDot_sign.
  destruct (Qle_bool _ _); [apply String_end|].
  set (n := Qfloor _).
  destruct f as [|f]; [apply endsWithDot_digits, digitsOf_digits|].
  set (m := zeros (S f + 1 - List.length (digitsOf n)) ++ digitsOf n).
  assert (Hm : forallb isDigit m = true).
  { subst m. rewrite forallb_app, zeros_digits, digitsOf_digits. reflexivity. }
  assert (Hlen : (S f < List.length m)%nat).
  { subst m. unfold zeros. rewrite length_app, repeat_length. 
    pose proof (digitsOf_nonempty n) as Hne.
    destruct (digitsOf n); [contradiction|simpl; lia]. }
  rewrite app_assoc. apply endsWithDot_tail.
  - apply skipn_nonempty. lia.
  - apply forallb_skipn, Hm.
Qed.

(** ** Finite numbers *)

Lemma SFeqb_finite (s : bool) (m : positive) (e : Z) :
  SFeqb (S754_finite s m e) (S754_finite s m e) = true.
Proof.
  unfold SFeqb, SFcompare.
  destruct s; rewrite Z.compare_refl, Pos.compare_cont_refl; reflexivity.
Qed.

(** The numbers that are not finite are NaN and the two infinities. *)
Lemma isFinite_false (n : float) :
  isFinite n = false
  <-> Prim2SF n = S754_nan \/ exists s : bool, Prim2SF n = S754_infinity s.
Proof.
  unfold isFinite, is_nan, is_infinity.
  rewrite !eqb_spec, abs_spec. change (Prim2SF infinity) with (S754_infinity false).
  destruct (Prim2SF n) as [s|s| |s m e].
  - destruct s; simpl; split; [discriminate| |discriminate|];
      intros [H|[s H]]; discriminate H.
  - destruct s; simpl; split; try reflexivity; intros _; right; eauto.
  - simpl. split; [left|]; reflexivity.
  - rewrite SFeqb_finite. simpl. split; [discriminate|].
    intros [H|[s' H]]; discriminate H.
Qed.

(** Only a division by zero makes the value of an expression fail. *)
Lemma value_outcome (Math_pow : float -> float -> float) (e : expr) :
  (exists v : float, value Math_pow e = Ok v)
  \/ value Math_pow e = Throw DivideByZero.
Proof.
  induction e as [text|o l IHl r IHr|e IH]; simpl.
  - left. eauto.
  - destruct IHl as [[a Ea]|Ea]; rewrite Ea; [|right; reflexivity].
    destruct IHr as [[b Eb]|Eb]; rewrite Eb; [|right; reflexivity].
    simpl. destruct o; simpl; eauto.
    destruct (b =? 0)%float; eauto.
  - exact IH.
Qed.

(** With a literal of two dots or more, [+ - * /] give NaN or the
    failure of a division by zero. *)
Lemma evaluateExpression_spoiled (Math_pow : float -> float -> float) (e : expr) :
  standard e = true -> powFree e = true -> spoiled e = true ->
  evaluateExpression Math_pow (render e) = Ok nan
  \/ evaluateExpression Math_pow (render e) = Throw DivideByZero.
Proof.
  intros Hstd Hpow Hsp. rewrite (evaluateExpression_render Math_pow e Hstd).
  destruct (value_outcome Math_pow e) as [[v Hv]|Hv]; [left|right; exact Hv].
  rewrite Hv. f_equal. exact (value_spoiled Math_pow e Hstd Hpow Hsp v Hv).
Qed.

(** C9, as the code has it.  A text of digits and dots with two dots or
    more is one [num] token, with no error from the tokenizer; its number
    is NaN, which is what [evaluateExpression] returns for it, a value
    that is not finite and that [formatNumber] renders as "Error".  So it
    is for "1.2.3".  In an expression of [+ - * /] with such a literal in
    it the NaN carries through: the evaluation returns NaN, or it throws
    'Divide by zero', as on "1.2.3/0".  Through [^] the result is what
    [Math.pow] makes of NaN: on "1.2.3^0" it is [Math.pow(NaN, 0)]. *)
Theorem multiple_dots_not_a_number (Math_pow : float -> float -> float) :
  (forall text : jsstring,
      forallb isNumChar text = true -> (2 <= dots text)%nat ->
      tokenize text = Ok [num text]
      /\ Number text = nan
      /\ evaluateExpression Math_pow text = Ok nan)
  /\ (forall e : expr,
      standard e = true -> powFree e = true -> spoiled e = true ->
      evaluateExpression Math_pow (render e) = Ok nan
      \/ evaluateExpression Math_pow (render e) = Throw DivideByZero)
  /\ (forall (e : expr) (v : float),
      standard e = true -> powFree e = true -> spoiled e = true ->
      evaluateExpression Math_pow (render e) = Ok v -> v = nan)
  /\ evaluateExpression Math_pow (js "1.2.3/0") = Throw DivideByZero
  /\ evaluateExpression Math_pow (js "1.2.3^0") = Ok (Math_pow nan 0%float)
  /\ isFinite nan = false
  /\ formatNumber nan = js "Error".
Proof.
  split.
  { intros text Hall Hdots.
    assert (Hlit : isLiteral text = true).
    { unfold isLiteral. rewrite Hall. destruct text; [inversion Hdots|reflexivity]. }
    destruct (evaluateExpression_literal Math_pow text Hlit) as [Ht He].
    rewrite (Number_dots text Hall Hdots) in He.
    split; [exact Ht|]. split; [|exact He].
    apply Number_dots; assumption. }
  split; [exact (evaluateExpression_spoiled Math_pow)|].
  split; [|repeat split; reflexivity].
  intros e v Hstd Hpow Hsp Hv.
  rewrite (evaluateExpression_render Math_pow e Hstd) in Hv.
  exact (value_spoiled Math_pow e Hstd Hpow Hsp v Hv).
Qed.

Lemma multiple_dots_not_a_number_witness :
  let e := Bin Add (Lit (js "1")) (Bin Mul (Lit (js "1.2.3")) (Lit (js "2"))) in
  let d := Bin Div (Lit (js "1.2.3")) (Paren (Bin Sub (Lit (js "2")) (Lit (js "2")))) in
  (tokenize (js "1.2.3") = Ok [num (js "1.2.3")]
   /\ Number (js "1.2.3") = nan
   /\ evaluateExpression samplePow (js "1.2.3") = Ok nan)
  /\ render e = js "1+1.2.3*2"
  /\ (evaluateExpression samplePow (render e) = Ok nan
      \/ evaluateExpression samplePow (render e) = Throw DivideByZero)
  /\ render d = js "1.2.3/(2-2)"
  /\ (evaluateExpression samplePow (render d) = Ok nan
      \/ evaluateExpression samplePow (render d) = Throw DivideByZero)
  /\ (exists v : float,
        evaluateExpression samplePow (render e) = Ok v /\ v = nan)
  /\ formatNumber nan = js "Error".
Proof.
  intros e d.
  destruct (multiple_dots_not_a_number samplePow) as [H1 [H2 [H3 [_ [_ [_ H4]]]]]].
  split.
  - apply (H1 (js "1.2.3")); [reflexivity|]. unfold dots. simpl. lia.
  - split; [reflexivity|]. split; [apply (H2 e); reflexivity|].
    split; [reflexivity|]. split; [apply (H2 d); reflexivity|].
    split; [|exact H4].
    exists nan. split; [reflexivity|]. apply (H3 e nan); reflexivity.
Defined.

(** Against C9 as stated: the NaN of "1.2.3" does not reach the result of
    "1.2.3^0", which is [Math.pow(NaN, 0)] whatever [Math.pow] is: the
    finite number 1, rendered "1"; and "1.2.3/0" has no result, it throws
    'Divide by zero'. *)
Lemma multiple_dots_finite_result :
  tokenize (js "1.2.3^0") = Ok [num (js "1.2.3"); op (code "^"); num (js "0")]
  /\ Number (js "1.2.3") = nan
  /\ (forall Math_pow : float -> float -> float,
         evaluateExpression Math_pow (js "1.2.3^0") = Ok (Math_pow nan 0%float))
  /\ samplePow nan 0%float = 1%float
  /\ evaluateExpression samplePow (js "1.2.3^0") = Ok 1%float
  /\ isFinite 1%float = true
  /\ formatNumber 1%float = js "1"
  /\ (forall Math_pow : float -> float -> float,
         evaluateExpression Math_pow (js "1.2.3/0") = Throw DivideByZero).
Proof. repeat split; vm_compute; reflexivity. Qed.

(** ** Integers and their strings *)

Section IntegerStrings.

Local Open Scope Z_scope.

(** *** Rationals *)

Lemma Qlt_bool_iff (a b : Q) : Qlt_bool a b = true <-> (a < b)%Q.
Proof.
  unfold Qlt_bool. rewrite negb_true_iff. split.
  - intros H. apply Qnot_le_lt. intros Hle. apply Qle_bool_iff in Hle. congruence.
  - intros H. destruct (Qle_bool b a) eqn:E; [|reflexivity].
    apply Qle_bool_iff in E. apply Qlt_not_le in H. contradiction.
Qed.

Lemma Qle_bool_false (a b : Q) : Qle_bool a b = false <-> (b < a)%Q.
Proof.
  rewrite <- Qlt_bool_iff. unfold Qlt_bool. rewrite negb_true_iff. tauto.
Qed.

Lemma Qlt_bool_false (a b : Q) : Qlt_bool a b = false <-> (b <= a)%Q.
Proof.
  unfold Qlt_bool. rewrite negb_false_iff. apply Qle_bool_iff.
Qed.

Lemma pow10_Z (j : Z) : 0 <= j -> (Qpower 10 j == inject_Z (10 ^ j))%Q.
Proof. intros H. rewrite (Zpower_Qpower 10 j H). reflexivity. Qed.

Lemma pow2_Z (j : Z) : 0 <= j -> (Qpower 2 j == inject_Z (2 ^ j))%Q.
Proof. intros H. rewrite (Zpower_Qpower 2 j H). reflexivity. Qed.

Lemma pow2_pos (j : Z) : (0 < Qpower 2 j)%Q.
Proof. apply Qpower_0_lt. reflexivity. Qed.

Lemma pow2_succ (j : Z) : (Qpower 2 j == 2 * Qpower 2 (j - 1))%Q.
Proof.
  replace j with (1 + (j - 1)) at 1 by lia.
  rewrite Qpower_plus by discriminate. reflexivity.
Qed.

Lemma pow2_half (j : Z) : j <= 0 -> (Qpower 2 (j - 1) <= 1 # 2)%Q.
Proof.
  intros H. replace (j - 1) with (- (1 - j)) by lia.
  rewrite Qpower_opp. rewrite pow2_Z by lia.
  assert (H2 : 2 <= 2 ^ (1 - j)).
  { change 2 with (2 ^ 1) at 1. apply Z.pow_le_mono_r; lia. }
  assert (Hq : (2 <= inject_Z (2 ^ (1 - j)))%Q).
  { change 2%Q with (inject_Z 2). rewrite <- Zle_Qle. exact H2. }
  apply Qle_shift_inv_r; lra.
Qed.

(** *** The rounding interval *)

Lemma roundingInterval_spec (m : positive) (e : Z) :
  let '(lo, hi, closed) := roundingInterval m e in
  let h := Qpower 2 (e - 1) in
  (hi == magnitude m e + h)%Q
  /\ (magnitude m e - h <= lo)%Q
  /\ (lo < magnitude m e)%Q.
Proof.
  unfold roundingInterval, magnitude. cbv zeta.
  pose proof (pow2_succ e) as He. pose proof (pow2_succ (e - 1)) as He1.
  replace (e - 1 - 1) with (e - 2) in He1 by lia.
  pose proof (pow2_pos (e - 2)) as Hp.
  set (h := Qpower 2 (e - 1)) in *. set (h2 := Qpower 2 (e - 2)) in *.
  set (M := inject_Z (Z.pos m)).
  assert (HM : (1 <= M)%Q).
  { subst M. change 1%Q with (inject_Z 1). rewrite <- Zle_Qle. lia. }
  split; [|split].
  - rewrite inject_Z_plus, inject_Z_mult, He. fold M. change (inject_Z 2) with 2%Q.
    change (inject_Z 1) with 1%Q. ring.
  - destruct (Pos.eqb m (2 ^ 52) && (-1074 <? e)).
    + unfold Z.sub. rewrite inject_Z_plus, inject_Z_mult. fold M.
      change (inject_Z 4) with 4%Q. change (inject_Z (- (1))) with (-1)%Q.
      rewrite He, He1. nra.
    + unfold Z.sub. rewrite inject_Z_plus, inject_Z_mult. fold M.
      change (inject_Z 2) with 2%Q. change (inject_Z (- (1))) with (-1)%Q.
      rewrite He. nra.
  - destruct (Pos.eqb m (2 ^ 52) && (-1074 <? e)).
    + unfold Z.sub. rewrite inject_Z_plus, inject_Z_mult. fold M.
      change (inject_Z 4) with 4%Q. change (inject_Z (- (1))) with (-1)%Q.
      rewrite He, He1. nra.
    + unfold Z.sub. rewrite inject_Z_plus, inject_Z_mult. fold M.
      change (inject_Z 2) with 2%Q. change (inject_Z (- (1))) with (-1)%Q.
      rewrite He, He1. nra.
Qed.

Lemma roundsTo_bounds (lo hi : Q) (closed : bool) (v : Q) :
  roundsTo (lo, hi, closed) v = true -> (lo <= v <= hi)%Q.
Proof.
  unfold roundsTo. destruct closed; intros H; apply andb_true_iff in H as [H1 H2].
  - apply Qle_bool_iff in H1, H2. tauto.
  - apply Qlt_bool_iff in H1, H2. split; apply Qlt_le_weak; assumption.
Qed.

Lemma roundsTo_inside (lo hi : Q) (closed : bool) (v : Q) :
  (lo < v)%Q -> (v < hi)%Q -> roundsTo (lo, hi, closed) v = true.
Proof.
  intros H1 H2. unfold roundsTo. destruct closed; apply andb_true_iff; split.
  - apply Qle_bool_iff, Qlt_le_weak, H1.
  - apply Qle_bool_iff, Qlt_le_weak, H2.
  - apply Qlt_bool_iff, H1.
  - apply Qlt_bool_iff, H2.
Qed.

Lemma roundsTo_Qeq (iv : Q * Q * bool) (v w : Q) :
  (v == w)%Q -> roundsTo iv v = roundsTo iv w.
Proof.
  intros E. destruct iv as [[lo hi] closed]. unfold roundsTo, Qlt_bool.
  destruct closed; rewrite E; reflexivity.
Qed.

(** *** The decimal exponent of an integer *)

Lemma decimalExponent_integer (q : Q) (z : Z) :
  (q == inject_Z z)%Q -> 1 <= z ->
  forall (fuel : nat) (N : Z),
    0 <= N -> (N = 0 \/ 10 ^ (N - 1) <= z) -> z < 10 ^ (N + Z.of_nat fuel) ->
    let N' := decimalExponent fuel q N in
    1 <= N' /\ 10 ^ (N' - 1) <= z < 10 ^ N'.
Proof.
  intros Hq Hz. induction fuel as [|fuel IH]; intros N HN Hlow Hup.
  - simpl. rewrite Z.add_0_r in Hup.
    assert (N <> 0) by (intros ->; simpl in Hup; lia).
    split; [lia|]. split; [|exact Hup]. destruct Hlow; [contradiction|assumption].
  - cbn [decimalExponent].
    assert (H1 : Qlt_bool q (Qpower 10 (N - 1)) = false).
    { apply Qlt_bool_false. rewrite Hq. destruct Hlow as [->|Hlow].
      - simpl. apply Qle_trans with (y := 1%Q); [discriminate|].
        change 1%Q with (inject_Z 1). rewrite <- Zle_Qle. exact Hz.
      - destruct (Z.eq_dec N 0) as [->|HN0].
        + simpl. apply Qle_trans with (y := 1%Q); [discriminate|].
          change 1%Q with (inject_Z 1). rewrite <- Zle_Qle. exact Hz.
        + rewrite pow10_Z by lia. rewrite <- Zle_Qle. exact Hlow. }
    rewrite H1. destruct (Qle_bool (Qpower 10 N) q) eqn:H2.
    + apply Qle_bool_iff in H2. rewrite Hq, pow10_Z in H2 by lia.
      rewrite <- Zle_Qle in H2.
      apply IH; [lia| |].
      * right. replace (N + 1 - 1) with N by lia. exact H2.
      * replace (N + 1 + Z.of_nat fuel) with (N + Z.of_nat (S fuel)) by lia.
        exact Hup.
    + apply Qle_bool_false in H2. rewrite Hq, pow10_Z in H2 by lia.
      rewrite <- Zlt_Qlt in H2.
      assert (N <> 0) by (intros ->; simpl in H2; lia).
      split; [lia|]. split; [|exact H2]. destruct Hlow; [contradiction|assumption].
Qed.

(** *** Candidates *)

Lemma candidates_In (iv : Q * Q * bool) (q : Q) (N k n s : Z) :
  In (n, s) (candidates iv q N k) ->
  (n = N \/ (n = N + 1 /\ s = 10 ^ (k - 1)))
  /\ 10 ^ (k - 1) <= s < 10 ^ k
  /\ roundsTo iv (candidateValue k (n, s)) = true.
Proof.
  unfold candidates. intros H. apply filter_In in H as [Hin H].
  simpl snd in H. apply andb_true_iff in H as [H Hr].
  apply andb_true_iff in H as [H1 H2].
  apply Z.leb_le in H1. apply Z.ltb_lt in H2.
  split; [|split; [lia|exact Hr]].
  destruct Hin as [E|[E|[E|[]]]]; injection E as <- <-; auto.
Qed.

Lemma candidateValue_power (N k : Z) :
  1 <= k -> 0 <= N ->
  (candidateValue k ((N + 1)%Z, (10 ^ (k - 1))%Z) == Qpower 10 N)%Q.
Proof.
  intros Hk HN. unfold candidateValue. simpl fst. simpl snd.
  rewrite <- pow10_Z by lia. rewrite <- Qpower_plus by discriminate.
  replace (k - 1 + (N + 1 - k)) with N by lia. reflexivity.
Qed.

(** A candidate that is a power of ten is one at every number of digits. *)
Lemma candidates_power (iv : Q * Q * bool) (q : Q) (N k : Z) :
  1 <= k -> 0 <= N -> roundsTo iv (Qpower 10 N) = true ->
  In (N + 1, 10 ^ (k - 1)) (candidates iv q N k).
Proof.
  intros Hk HN Hr. unfold candidates. apply filter_In. split.
  - right. right. left. reflexivity.
  - simpl snd. rewrite (roundsTo_Qeq iv _ _ (candidateValue_power N k Hk HN)), Hr.
    rewrite andb_true_r. apply andb_true_iff. split.
    + apply Z.leb_le. lia.
    + apply Z.ltb_lt. apply Z.pow_lt_mono_r; lia.
Qed.

(** The integer itself is a candidate with as many digits as it has. *)
Lemma candidates_exact (iv : Q * Q * bool) (q : Q) (N z : Z) :
  (q == inject_Z z)%Q -> 10 ^ (N - 1) <= z < 10 ^ N -> roundsTo iv q = true ->
  In (N, z) (candidates iv q N N).
Proof.
  intros Hq Hz Hr. unfold candidates. apply filter_In.
  assert (Hv : (q * Qpower 10 (N - N)%Z == inject_Z z)%Q).
  { rewrite Z.sub_diag. simpl Qpower. rewrite Qmult_1_r. exact Hq. }
  split.
  - left. rewrite Hv, Qfloor_Z. reflexivity.
  - simpl snd. apply andb_true_iff. split.
    + apply andb_true_iff. split; [apply Z.leb_le|apply Z.ltb_lt]; lia.
    + rewrite <- Hr. apply roundsTo_Qeq. unfold candidateValue. simpl fst. simpl snd.
      rewrite Z.sub_diag. simpl Qpower. rewrite Qmult_1_r. symmetry. exact Hq.
Qed.

Lemma nearer_cases (q : Q) (k : Z) (c d : Z * Z) :
  nearer q k c d = c \/ nearer q k c d = d.
Proof.
  unfold nearer. destruct (Qlt_bool _ _); [auto|].
  destruct (Qlt_bool _ _); [auto|]. destruct (Z.even _); auto.
Qed.

Lemma fold_nearer_In (q : Q) (k : Z) (cs : list (Z * Z)) :
  forall c : Z * Z, In (fold_left (nearer q k) cs c) (c :: cs).
Proof.
  induction cs as [|d cs IH]; intros c; simpl.
  - left. reflexivity.
  - destruct (IH (nearer q k c d)) as [E|Hin].
    + rewrite <- E.
      destruct (nearer_cases q k c d) as [E'|E']; rewrite E'; simpl; auto.
    + simpl. auto.
Qed.

(** *** The shortest digits *)

Lemma shortest_candidate (iv : Q * Q * bool) (q : Q) (N : Z) (ks : list Z) (n k s : Z) :
  shortest iv q N ks = Some (n, k, s) ->
  In k ks /\ In (n, s) (candidates iv q N k).
Proof.
  induction ks as [|k' ks IH]; simpl; [discriminate|].
  destruct (candidates iv q N k') as [|c cs] eqn:E.
  - intros H. destruct (IH H). auto.
  - pose proof (fold_nearer_In q k' cs c) as Hin.
    destruct (fold_left (nearer q k') cs c) as [n' s'].
    intros H. injection H as <- <- <-. rewrite E. auto.
Qed.

Lemma shortest_least (iv : Q * Q * bool) (q : Q) (N : Z) (ks : list Z) (n k s : Z) :
  StronglySorted Z.lt ks ->
  shortest iv q N ks = Some (n, k, s) ->
  forall k' : Z, In k' ks -> candidates iv q N k' <> [] -> k <= k'.
Proof.
  induction ks as [|k0 ks IH]; simpl; [discriminate|].
  intros Hs H k' Hin Hne. apply StronglySorted_inv in Hs as [Hs Hall].
  rewrite Forall_forall in Hall.
  destruct (candidates iv q N k0) as [|c cs] eqn:E.
  - destruct Hin as [<-|Hin]; [congruence|]. apply (IH Hs H k' Hin Hne).
  - destruct (fold_left (nearer q k0) cs c) as [n' s'].
    injection H as _ <- _. destruct Hin as [<-|Hin]; [lia|].
    specialize (Hall k' Hin). lia.
Qed.

Lemma shortest_found (iv : Q * Q * bool) (q : Q) (N : Z) (ks : list Z) (k' : Z) :
  In k' ks -> candidates iv q N k' <> [] -> shortest iv q N ks <> None.
Proof.
  induction ks as [|k0 ks IH]; simpl; [tauto|].
  intros Hin Hne. destruct (candidates iv q N k0) as [|c cs] eqn:E.
  - destruct Hin as [<-|Hin]; [congruence|]. apply IH; assumption.
  - destruct (fold_left (nearer q k0) cs c) as [n' s']. discriminate.
Qed.

Lemma digitCounts_In (k : Z) : In k digitCounts <-> 1 <= k <= 17.
Proof.
  unfold digitCounts. rewrite in_map_iff. split.
  - intros [i [<- Hi]]. apply in_seq in Hi. lia.
  - intros H. exists (Z.to_nat k). split; [lia|]. apply in_seq. lia.
Qed.

Lemma digitCounts_sorted : StronglySorted Z.lt digitCounts.
Proof.
  unfold digitCounts. simpl. repeat constructor; lia.
Qed.

Lemma candidateValue_integer (n k s : Z) :
  k <= n -> (candidateValue k (n, s) == inject_Z (s * 10 ^ (n - k)))%Q.
Proof.
  intros H. unfold candidateValue. simpl fst. simpl snd.
  rewrite inject_Z_mult, pow10_Z by lia. reflexivity.
Qed.

(** The digits chosen for a positive integer below [10^21]: no more of
    them than the integer has, for a decimal that rounds to it. *)
Lemma shortest_integer (m : positive) (e z : Z) :
  let iv := roundingInterval m e in
  let q := magnitude m e in
  (q == inject_Z z)%Q ->
  (snd (fst iv) < Qpower 10 21)%Q ->
  match shortest iv q (decimalExponent 700 q 0) digitCounts with
  | Some (n, k, s) =>
    1 <= k <= n /\ n <= 21 /\ 10 ^ (k - 1) <= s < 10 ^ k
    /\ roundsTo iv (inject_Z (s * 10 ^ (n - k))) = true
  | None => 10 ^ 17 <= z
  end.
Proof.
  intros iv q Hq Hhi.
  pose proof (roundingInterval_spec m e) as Hiv. fold iv in Hiv. fold q in Hiv.
  destruct iv as [[lo hi] closed] eqn:Eiv. simpl in Hhi. cbv zeta in Hiv.
  destruct Hiv as [Ehi [Hlo Hlt]].
  pose proof (pow2_pos (e - 1)) as Hh.
  assert (Hqhi : (q < hi)%Q) by (rewrite Ehi; lra).
  assert (Hz1 : 1 <= z).
  { assert (H0 : (0 < q)%Q).
    { unfold q, magnitude. apply Qmult_lt_0_compat; [reflexivity|apply pow2_pos]. }
    rewrite Hq in H0. change 0%Q with (inject_Z 0) in H0.
    rewrite <- Zlt_Qlt in H0. lia. }
  assert (Hz21 : z < 10 ^ 21).
  { assert (H : (q < Qpower 10 21)%Q) by lra.
    rewrite Hq, pow10_Z in H by lia. rewrite <- Zlt_Qlt in H. exact H. }
  assert (Hself : roundsTo (lo, hi, closed) q = true)
    by (apply roundsTo_inside; assumption).
  destruct (decimalExponent_integer q z Hq Hz1 700 0) as [HN1 HN];
    [lia|left; reflexivity|simpl; lia|].
  set (N := decimalExponent 700 q 0) in *.
  assert (HN21 : N <= 21).
  { destruct (Z_le_gt_dec N 21) as [H|H]; [exact H|].
    assert (10 ^ 21 <= 10 ^ (N - 1)) by (apply Z.pow_le_mono_r; lia). lia. }
  assert (Hexact : N <= 17 -> candidates (lo, hi, closed) q N N <> []).
  { intros _ E. pose proof (candidates_exact (lo, hi, closed) q N z Hq HN Hself) as Hin.
    rewrite E in Hin. destruct Hin. }
  destruct (shortest (lo, hi, closed) q N digitCounts) as [[[n k] s]|] eqn:Es.
  - destruct (shortest_candidate _ _ _ _ _ _ _ Es) as [Hk Hin].
    apply digitCounts_In in Hk.
    apply candidates_In in Hin as [Hn [Hs Hr]].
    pose proof (shortest_least _ _ _ _ _ _ _ digitCounts_sorted Es) as Hleast.
    assert (Hkn : k <= n /\ n <= 21).
    { destruct Hn as [->|[-> ->]].
      - split; [|exact HN21].
        destruct (Z_le_gt_dec N 17) as [H17|H17]; [|lia].
        apply (Hleast N); [apply digitCounts_In; lia|apply Hexact, H17].
      - rewrite (roundsTo_Qeq _ _ _ (candidateValue_power N k ltac:(lia) ltac:(lia))) in Hr.
        assert (Hk1 : k <= 1).
        { apply (Hleast 1); [apply digitCounts_In; lia|].
          intros E. pose proof (candidates_power (lo, hi, closed) q N 1 ltac:(lia) ltac:(lia) Hr) as Hin.
          rewrite E in Hin. destruct Hin. }
        apply roundsTo_bounds in Hr as [_ Hr].
        assert (H : (Qpower 10 N < Qpower 10 21)%Q) by lra.
        rewrite !pow10_Z in H by lia. rewrite <- Zlt_Qlt in H.
        apply Z.pow_lt_mono_r_iff in H; lia. }
    split; [lia|]. split; [lia|]. split; [exact Hs|].
    rewrite <- Hr. apply roundsTo_Qeq. symmetry. apply candidateValue_integer. lia.
  - destruct (Z_le_gt_dec (10 ^ 17) z) as [H|H]; [exact H|]. exfalso.
    assert (H17 : N <= 17).
    { destruct (Z_le_gt_dec N 17) as [H'|H']; [exact H'|].
      assert (10 ^ 17 <= 10 ^ (N - 1)) by (apply Z.pow_le_mono_r; lia). lia. }
    apply (shortest_found (lo, hi, closed) q N digitCounts N) in Es;
      [exact Es|apply digitCounts_In; lia|apply Hexact, H17].
Qed.

(** *** The value of a string of digits *)

Lemma fold_digits (ds : jsstring) :
  forall acc : Z,
    fold_left (fun a c => 10 * a + digitValue c) ds acc
    = acc * 10 ^ Z.of_nat (List.length ds) + digitsValue ds.
Proof.
  unfold digitsValue. induction ds as [|c ds IH]; intros acc.
  - simpl. lia.
  - cbn [fold_left List.length]. rewrite (IH (10 * acc + digitValue c)).
    rewrite (IH (10 * 0 + digitValue c)).
    rewrite Nat2Z.inj_succ, Z.pow_succ_r by lia. ring.
Qed.

Lemma digitsValue_app (a b : jsstring) :
  digitsValue (a ++ b)
  = digitsValue a * 10 ^ Z.of_nat (List.length b) + digitsValue b.
Proof.
  unfold digitsValue at 1. rewrite fold_left_app. fold (digitsValue a).
  apply fold_digits.
Qed.

Lemma digitsValue_zeros (j : nat) : digitsValue (zeros j) = 0.
Proof.
  induction j as [|j IH]; [reflexivity|].
  change (zeros (S j)) with ([code "0"] ++ zeros j).
  rewrite digitsValue_app, IH. reflexivity.
Qed.

Lemma digitValue_digit (d : Z) :
  0 <= d -> digitValue (code "0" + Z.to_N d)%N = d.
Proof.
  intros H. unfold digitValue. rewrite N.add_comm, N.add_sub. apply Z2N.id, H.
Qed.

Lemma digitsValue_decimalDigits (k : nat) :
  forall s : Z, digitsValue (decimalDigits k s) = s mod 10 ^ Z.of_nat k.
Proof.
  induction k as [|k IH]; intros s.
  - simpl. rewrite Z.mod_1_r. reflexivity.
  - cbn [decimalDigits]. rewrite digitsValue_app, IH.
    pose proof (Z.mod_pos_bound s 10 ltac:(lia)) as Hd.
    unfold digitsValue at 1. cbn [fold_left List.length].
    rewrite digitValue_digit by lia.
    change (Z.of_nat 1) with 1. rewrite Z.pow_1_r.
    replace (Z.of_nat (S k)) with (Z.succ (Z.of_nat k)) by lia.
    rewrite Z.pow_succ_r by lia.
    rewrite (Z.rem_mul_r s 10 (10 ^ Z.of_nat k)) by lia.
    lia.
Qed.

Lemma layout_integer (n k : Z) (ds : jsstring) :
  k <= n -> n <= 21 -> layout n k ds = ds ++ zeros (Z.to_nat (n - k)).
Proof.
  intros H1 H2. unfold layout.
  apply Z.leb_le in H1, H2. rewrite H1, H2. reflexivity.
Qed.

(** [String] of a positive integer below [10^21]: digits only; they are
    the integer's own when [e <= 0], where neighbouring numbers are at
    most 1 apart. *)
Lemma String_positive_integer (m : positive) (e z : Z) :
  (magnitude m e == inject_Z z)%Q ->
  (snd (fst (roundingInterval m e)) < Qpower 10 21)%Q ->
  forallb isDigit (String_positive m e) = true
  /\ (e <= 0 -> z < 10 ^ 17 ->
      String_positive m e <> [] /\ digitsValue (String_positive m e) = z).
Proof.
  intros Hq Hhi. pose proof (shortest_integer m e z Hq Hhi) as H.
  unfold String_positive. fold (magnitude m e).
  destruct (shortest _ _ _ _) as [[[n k] s]|].
  - destruct H as [Hk [Hn [Hs Hr]]].
    rewrite layout_integer by lia.
    split.
    + rewrite forallb_app, decimalDigits_digits, zeros_digits. reflexivity.
    + intros He Hz. split.
      * intros E. apply (f_equal (@List.length char)) in E.
        rewrite length_app, decimalDigits_length in E. simpl in E. lia.
      * rewrite digitsValue_app, digitsValue_zeros, digitsValue_decimalDigits.
        unfold zeros. rewrite repeat_length, !Z2Nat.id by lia.
        rewrite Z.mod_small by lia. rewrite Z.add_0_r.
        pose proof (roundingInterval_spec m e) as Hiv.
        destruct (roundingInterval m e) as [[lo hi] closed].
        cbv zeta in Hiv. destruct Hiv as [Ehi [Hlo _]].
        apply roundsTo_bounds in Hr as [Hr1 Hr2].
        pose proof (pow2_half e He) as Hh.
        rewrite Hq in Ehi, Hlo. rewrite Ehi in Hr2.
        set (v := s * 10 ^ (n - k)) in *.
        assert (H1 : (inject_Z (2 * z - 1) <= inject_Z (2 * v))%Q).
        { unfold Z.sub. rewrite inject_Z_plus, !inject_Z_mult.
          change (inject_Z 2) with 2%Q. change (inject_Z (- (1))) with (-1)%Q. lra. }
        assert (H2 : (inject_Z (2 * v) <= inject_Z (2 * z + 1))%Q).
        { rewrite inject_Z_plus, !inject_Z_mult.
          change (inject_Z 2) with 2%Q. change (inject_Z 1) with 1%Q. lra. }
        rewrite <- Zle_Qle in H1, H2. lia.
  - split; [reflexivity|]. intros _ Hz. lia.
Qed.

(** *** Binary64 numbers below [10^21] *)

Lemma digits2_size (p : positive) : digits2_pos p = Pos.size p.
Proof. induction p; simpl; congruence. Qed.

Lemma digits2_bounds (p : positive) :
  2 ^ (Zpos (digits2_pos p) - 1) <= Zpos p < 2 ^ Zpos (digits2_pos p).
Proof.
  rewrite digits2_size. split.
  - pose proof (Pos.size_le p) as H.
    assert (H' : 2 ^ Zpos (Pos.size p) <= 2 * Zpos p).
    { change (2 * Zpos p) with (Zpos p~0). rewrite <- Pos2Z.inj_pow. exact H. }
    replace (Zpos (Pos.size p)) with (Z.succ (Zpos (Pos.size p) - 1)) in H' by lia.
    rewrite Z.pow_succ_r in H' by lia. lia.
  - pose proof (Pos.size_gt p) as H. rewrite <- Pos2Z.inj_pow. exact H.
Qed.

Lemma roundingInterval_below21 (m : positive) (e : Z) :
  Zpos (digits2_pos m) <= 53 -> below21 m e ->
  (snd (fst (roundingInterval m e)) < Qpower 10 21)%Q.
Proof.
  intros Hd Hb. unfold roundingInterval. simpl snd.
  assert (Hm : Zpos m < 2 ^ 53).
  { pose proof (digits2_bounds m) as [_ H].
    assert (2 ^ Zpos (digits2_pos m) <= 2 ^ 53) by (apply Z.pow_le_mono_r; lia).
    lia. }
  destruct Hb as [He|[-> Hm']].
  - assert (Hp : (Qpower 2 (e - 1) <= Qpower 2 15)%Q).
    { apply Qpower_le_compat_l; [lia|discriminate]. }
    pose proof (pow2_pos (e - 1)) as Hp0.
    assert (HA : (inject_Z (2 * Zpos m + 1) <= inject_Z (2 ^ 54))%Q).
    { rewrite <- Zle_Qle. lia. }
    assert (HA0 : (0 < inject_Z (2 * Zpos m + 1))%Q).
    { change 0%Q with (inject_Z 0). rewrite <- Zlt_Qlt. lia. }
    apply Qle_lt_trans with (y := (inject_Z (2 ^ 54) * Qpower 2 15)%Q);
      [|reflexivity].
    apply Qle_trans with (y := (inject_Z (2 ^ 54) * Qpower 2 (e - 1))%Q).
    + apply Qmult_le_compat_r; [exact HA|apply Qlt_le_weak, Hp0].
    + rewrite (Qmult_comm _ (Qpower 2 (e - 1))), (Qmult_comm _ (Qpower 2 15)).
      apply Qmult_le_compat_r; [exact Hp|discriminate].
  - rewrite pow2_Z, pow10_Z by lia. rewrite <- inject_Z_mult, <- Zlt_Qlt.
    change (2 ^ (17 - 1)) with 65536. change (10 ^ 21) with (7629394531250000 * 131072).
    lia.
Qed.

(** What [Prim2SF] gives is a valid binary64. *)
Lemma finite_valid (x : float) (s : bool) (m : positive) (e : Z) :
  Prim2SF x = S754_finite s m e ->
  Zpos (digits2_pos m) <= 53 /\ -1074 <= e <= 971
  /\ (Zpos (digits2_pos m) = 53 \/ e = -1074).
Proof.
  intros E. pose proof (Prim2SF_valid x) as H. rewrite E in H.
  unfold valid_binary, bounded, canonical_mantissa, fexp, emin, prec, emax in H.
  apply andb_true_iff in H as [H1 H2].
  apply Z.eqb_eq in H1. apply Z.leb_le in H2. lia.
Qed.

(** *** Integers as binary64 *)

Lemma iter_xO (p k : positive) :
  Zpos (Pos.iter xO p k) = Zpos p * 2 ^ Zpos k
  /\ digits2_pos (Pos.iter xO p k) = (digits2_pos p + k)%positive.
Proof.
  induction k as [|k [IH1 IH2]] using Pos.peano_ind.
  - simpl. split; [lia|]. rewrite Pos.add_1_r. reflexivity.
  - rewrite Pos.iter_succ. split.
    + rewrite Pos2Z.inj_xO, IH1, Pos2Z.inj_succ, Z.pow_succ_r by lia. ring.
    + simpl. rewrite IH2, Pos.add_succ_r. reflexivity.
Qed.

Lemma binary_round_aux_canonical (s : bool) (m : positive) (e : Z) :
  Zpos (digits2_pos m) = 53 -> -1074 <= e <= 971 ->
  binary_round_aux prec emax s (Zpos m) e loc_Exact = S754_finite s m e.
Proof.
  intros Hd He. unfold binary_round_aux, shr_fexp, Zdigits2.
  assert (E : fexp prec emax (Zpos (digits2_pos m) + e) - e = 0).
  { rewrite Hd. unfold fexp, emin, prec, emax. lia. }
  rewrite E.
  cbn [shr shr_record_of_loc loc_of_shr_record shr_m shr_r shr_s
       round_nearest_even Zdigits2].
  rewrite E.
  cbn [shr shr_record_of_loc loc_of_shr_record shr_m shr_r shr_s].
  assert (H : (e <=? emax - prec) = true) by (apply Z.leb_le; unfold emax, prec; lia).
  rewrite H. reflexivity.
Qed.

Lemma binary_round_integer (s : bool) (p : positive) :
  Zpos p < 2 ^ 53 ->
  exists (m : positive) (e : Z),
    binary_round prec emax s p 0 = S754_finite s m e
    /\ Zpos (digits2_pos m) = 53 /\ -52 <= e <= 0
    /\ (magnitude m e == inject_Z (Zpos p))%Q.
Proof.
  intros Hp. pose proof (digits2_bounds p) as [Hlow _].
  assert (Hd : Zpos (digits2_pos p) <= 53).
  { destruct (Z_le_gt_dec (Zpos (digits2_pos p)) 53) as [H|H]; [exact H|].
    assert (2 ^ 53 <= 2 ^ (Zpos (digits2_pos p) - 1)) by (apply Z.pow_le_mono_r; lia).
    lia. }
  unfold binary_round, shl_align.
  assert (E : fexp prec emax (Zpos (digits2_pos p) + 0)
              = Zpos (digits2_pos p) - 53).
  { unfold fexp, emin, prec, emax. lia. }
  rewrite E, Z.sub_0_r.
  destruct (Zpos (digits2_pos p) - 53) as [|k|k] eqn:Ek; [|lia|].
  - exists p, 0. split; [|split; [lia|split; [lia|]]].
    + apply binary_round_aux_canonical; lia.
    + unfold magnitude. simpl Qpower. apply Qmult_1_r.
  - destruct (iter_xO p k) as [Hv Hdig].
    exists (Pos.iter xO p k), (Z.neg k).
    split; [|split; [|split; [lia|]]].
    + apply binary_round_aux_canonical; [rewrite Hdig|]; lia.
    + rewrite Hdig. lia.
    + unfold magnitude. rewrite Hv, inject_Z_mult.
      change (Z.neg k) with (- Zpos k). rewrite Qpower_opp, <- pow2_Z by lia.
      field. apply Qpower_not_0. discriminate.
Qed.

Lemma binary_normalize_integer (z : Z) :
  z <> 0 -> Z.abs z < 2 ^ 53 ->
  exists (m : positive) (e : Z),
    Prim2SF (SF2Prim (binary_normalize prec emax z 0 false))
    = S754_finite (z <? 0) m e
    /\ Zpos (digits2_pos m) = 53 /\ -52 <= e <= 0
    /\ (magnitude m e == inject_Z (Z.abs z))%Q.
Proof.
  intros Hz Habs.
  assert (H : exists (m : positive) (e : Z),
             binary_normalize prec emax z 0 false = S754_finite (z <? 0) m e
             /\ Zpos (digits2_pos m) = 53 /\ -52 <= e <= 0
             /\ (magnitude m e == inject_Z (Z.abs z))%Q).
  { destruct z as [|p|p]; [contradiction| |].
    - apply (binary_round_integer false p). exact Habs.
    - apply (binary_round_integer true p). exact Habs. }
  destruct H as [m [e [E [Hd [He Hv]]]]]. exists m, e.
  split; [|auto]. rewrite E. apply Prim2SF_SF2Prim.
  unfold valid_binary, bounded, canonical_mantissa, fexp, emin, prec, emax.
  rewrite Hd. apply andb_true_iff. split; [apply Z.eqb_eq|apply Z.leb_le]; lia.
Qed.

(** *** [Math.round] and [formatNumber] on integers *)

Lemma toQ_finite (n : float) (s : bool) (m : positive) (e : Z) :
  Prim2SF n = S754_finite s m e ->
  (toQ n == if s then - magnitude m e else magnitude m e)%Q.
Proof.
  intros E. unfold toQ, magnitude. rewrite E. destruct s; ring.
Qed.

Lemma Qfloor_half (a : Z) : Qfloor (inject_Z a + (1 # 2)) = a.
Proof.
  pose proof (Qfloor_le (inject_Z a + (1 # 2))) as H1.
  pose proof (Qlt_floor (inject_Z a + (1 # 2))) as H2.
  set (f := Qfloor (inject_Z a + (1 # 2))) in *.
  assert (H3 : (inject_Z (2 * f) <= inject_Z (2 * a + 1))%Q).
  { rewrite inject_Z_plus, !inject_Z_mult.
    change (inject_Z 2) with 2%Q. change (inject_Z 1) with 1%Q. lra. }
  assert (H4 : (inject_Z (2 * a + 1) < inject_Z (2 * f + 2))%Q).
  { rewrite inject_Z_plus in H2. rewrite !inject_Z_plus, !inject_Z_mult.
    change (inject_Z 2) with 2%Q. change (inject_Z 1) with 1%Q in *. lra. }
  rewrite <- Zle_Qle in H3. rewrite <- Zlt_Qlt in H4. lia.
Qed.

Lemma Qfloor_Qeq (x y : Q) : (x == y)%Q -> Qfloor x = Qfloor y.
Proof. intros E. rewrite E. reflexivity. Qed.

Lemma finite_cases (n : float) :
  isFinite n = true ->
  (exists s, Prim2SF n = S754_zero s)
  \/ (exists s m e, Prim2SF n = S754_finite s m e).
Proof.
  intros H. destruct (Prim2SF n) as [s|s| |s m e] eqn:E; eauto.
  - assert (H' : isFinite n = false) by (apply isFinite_false; eauto).
    congruence.
  - assert (H' : isFinite n = false) by (apply isFinite_false; eauto).
    congruence.
Qed.

Lemma ltb_1e21 (n : float) (s : bool) (m : positive) (e : Z) :
  Prim2SF n = S754_finite s m e ->
  (abs n <? 1e21)%float = true -> below21 m e.
Proof.
  intros E H. rewrite ltb_spec, abs_spec, E in H.
  change (Prim2SF 1e21) with (S754_finite false 7629394531250000 17) in H.
  unfold SFltb, SFabs, SFcompare, below21 in *.
  destruct (Z.compare_spec e 17) as [->|He|He]; [|lia|discriminate H].
  right. split; [reflexivity|].
  destruct (Pos.compare_cont Eq m 7629394531250000) eqn:Ec; try discriminate H.
  exact (proj1 (Pos.compare_lt_iff m 7629394531250000) Ec).
Qed.

Lemma magnitude_pos (m : positive) (e : Z) : (0 < magnitude m e)%Q.
Proof. apply Qmult_lt_0_compat; [reflexivity|apply pow2_pos]. Qed.

Lemma magnitude_integer (m : positive) (e : Z) :
  0 <= e -> (magnitude m e == inject_Z (Zpos m * 2 ^ e))%Q.
Proof.
  intros H. unfold magnitude. rewrite inject_Z_mult, pow2_Z by lia. reflexivity.
Qed.

Lemma String_integer (x : float) (s : bool) (m : positive) (e z : Z) :
  Prim2SF x = S754_finite s m e ->
  Zpos (digits2_pos m) <= 53 -> below21 m e ->
  (Zpos (digits2_pos m) = 53 \/ e <= 0) ->
  (magnitude m e == inject_Z (Z.abs z))%Q -> s = (z <? 0) ->
  integerString x z.
Proof.
  intros E Hd Hb Hn Hq ->.
  pose proof (roundingInterval_below21 m e Hd Hb) as Hhi.
  destruct (String_positive_integer m e (Z.abs z) Hq Hhi) as [Hdig Hex].
  exists (String_positive m e). unfold String_. rewrite E.
  split; [reflexivity|]. split; [exact Hdig|].
  intros Hz. apply Hex; [|lia].
  destruct (Z_le_gt_dec e 0) as [He|He]; [exact He|]. exfalso.
  destruct Hn as [Hn|Hn]; [|lia].
  pose proof (digits2_bounds m) as [Hlow _]. rewrite Hn in Hlow.
  rewrite magnitude_integer in Hq by lia. apply -> inject_Z_injective in Hq.
  assert (Hp : 2 ^ 1 <= 2 ^ e) by (apply Z.pow_le_mono_r; lia).
  change (2 ^ (53 - 1)) with 4503599627370496 in Hlow.
  change (2 ^ 53) with 9007199254740992 in Hz. change (2 ^ 1) with 2 in Hp.
  assert (4503599627370496 * 2 <= Zpos m * 2 ^ e)
    by (apply Z.mul_le_mono_nonneg; lia).
  lia.
Qed.

(** *** The shape of [toFixed] *)

Lemma forallb_firstn (p : char -> bool) (n : nat) (t : jsstring) :
  forallb p t = true -> forallb p (firstn n t) = true.
Proof.
  revert t. induction n as [|n IH]; intros t H; [reflexivity|].
  destruct t as [|c t]; [reflexivity|].
  simpl in *. apply andb_true_iff in H as [Hc Ht]. rewrite Hc. apply IH, Ht.
Qed.

Lemma magnitude_below21 (m : positive) (e : Z) :
  Zpos (digits2_pos m) <= 53 -> below21 m e ->
  (magnitude m e < Qpower 10 21)%Q.
Proof.
  intros Hd Hb. pose proof (roundingInterval_below21 m e Hd Hb) as Hhi.
  pose proof (roundingInterval_spec m e) as Hiv.
  destruct (roundingInterval m e) as [[lo hi] closed]. simpl in Hhi.
  cbv zeta in Hiv. destruct Hiv as [Ehi _].
  pose proof (pow2_pos (e - 1)) as Hp. lra.
Qed.

(** Below [1e21], [x.toFixed(12)] is a sign, digits, a dot and twelve
    digits. *)
Lemma toFixed_shape (x : float) :
  isFinite x = true -> (abs x <? 1e21)%float = true ->
  exists a b : jsstring,
    toFixed 12 x = (if (x <? 0)%float then js "-" else []) ++ a ++ js "." ++ b
    /\ a <> [] /\ forallb isDigit a = true
    /\ List.length b = 12%nat /\ forallb isDigit b = true.
Proof.
  intros Hfin Hlt. unfold toFixed. rewrite Hfin. simpl negb. cbv iota.
  assert (Hq : Qle_bool (Qpower 10 21) (Qabs (toQ x)) = false).
  { apply Qle_bool_false.
    destruct (finite_cases x Hfin) as [[s E]|[s [m [e E]]]].
    - unfold toQ. rewrite E. reflexivity.
    - destruct (finite_valid x s m e E) as [Hd _].
      pose proof (magnitude_below21 m e Hd (ltb_1e21 x s m e E Hlt)) as Hm.
      pose proof (magnitude_pos m e) as H0.
      rewrite (toQ_finite x s m e E).
      destruct s; [rewrite Qabs_opp|]; rewrite Qabs_pos; lra. }
  rewrite Hq.
  set (n := Qfloor _). set (m := zeros (12 + 1 - List.length (digitsOf n)) ++ digitsOf n).
  assert (Hm : forallb isDigit m = true).
  { subst m. rewrite forallb_app, zeros_digits, digitsOf_digits. reflexivity. }
  assert (Hlen : (13 <= List.length m)%nat).
  { subst m. unfold zeros. rewrite length_app, repeat_length. lia. }
  exists (firstn (List.length m - 12) m), (skipn (List.length m - 12) m).
  split; [reflexivity|]. split; [|split; [|split]].
  - intros E. apply (f_equal (@List.length char)) in E.
    rewrite length_firstn in E. simpl in E. lia.
  - apply forallb_firstn, Hm.
  - rewrite length_skipn. lia.
  - apply forallb_skipn, Hm.
Qed.

End IntegerStrings.

(** ** Decimal numerals *)

Section Numerals.

Local Open Scope Z_scope.

Lemma digitsValue_cons (c : char) (ds : jsstring) :
  digitsValue (c :: ds) = digitValue c * 10 ^ Z.of_nat (List.length ds) + digitsValue ds.
Proof.
  unfold digitsValue at 1. simpl fold_left. rewrite fold_digits. reflexivity.
Qed.

Lemma digitValue_bounds (c : char) : isDigit c = true -> 0 <= digitValue c <= 9.
Proof.
  intros H. unfold digitValue.
  assert (Hc : (48 <= c <= 57)%N) by classes.
  change (code "0") with 48%N. lia.
Qed.

Lemma digitValue_inj (c d : char) :
  isDigit c = true -> isDigit d = true -> digitValue c = digitValue d -> c = d.
Proof.
  intros Hc Hd. unfold digitValue.
  assert (Hc' : (48 <= c <= 57)%N) by classes.
  assert (Hd' : (48 <= d <= 57)%N) by classes.
  change (code "0") with 48%N. lia.
Qed.

Lemma digitsValue_bounds (ds : jsstring) :
  forallb isDigit ds = true -> 0 <= digitsValue ds < 10 ^ Z.of_nat (List.length ds).
Proof.
  induction ds as [|c ds IH]; [intros _; simpl; unfold digitsValue; simpl; lia|].
  intros H. simpl in H. apply andb_true_iff in H as [Hc Hds].
  specialize (IH Hds). pose proof (digitValue_bounds c Hc) as Hv.
  rewrite digitsValue_cons. simpl List.length. rewrite Nat2Z.inj_succ, Z.pow_succ_r by lia.
  nia.
Qed.

Lemma digits_inj (a : jsstring) :
  forall b : jsstring,
    List.length a = List.length b ->
    forallb isDigit a = true -> forallb isDigit b = true ->
    digitsValue a = digitsValue b -> a = b.
Proof.
  induction a as [|c a IH]; intros [|d b] Hlen Ha Hb Hv; try discriminate Hlen.
  - reflexivity.
  - simpl in Hlen, Ha, Hb. injection Hlen as Hlen.
    apply andb_true_iff in Ha as [Hc Ha]. apply andb_true_iff in Hb as [Hd Hb].
    rewrite !digitsValue_cons, <- Hlen in Hv.
    pose proof (digitsValue_bounds a Ha) as Ba.
    pose proof (digitsValue_bounds b Hb) as Bb. rewrite <- Hlen in Bb.
    set (P := 10 ^ Z.of_nat (List.length a)) in *.
    assert (E : digitValue c = digitValue d) by nia.
    rewrite E in Hv.
    f_equal; [apply digitValue_inj; assumption|apply IH; try assumption; lia].
Qed.

Lemma isNumeral_bounds (ds : jsstring) :
  isNumeral ds = true ->
  forallb isDigit ds = true
  /\ (ds = js "0"
      \/ 10 ^ (Z.of_nat (List.length ds) - 1) <= digitsValue ds).
Proof.
  destruct ds as [|c ds]; [discriminate|].
  unfold isNumeral. intros H. apply andb_true_iff in H as [Hd Hz].
  split; [exact Hd|].
  pose proof Hd as Hd'. simpl in Hd'. apply andb_true_iff in Hd' as [Hc Hds].
  destruct (isZero c) eqn:Ec.
  - simpl in Hz. destruct ds; [|discriminate]. left.
    unfold isZero in Ec. apply N.eqb_eq in Ec. subst c. reflexivity.
  - right. rewrite digitsValue_cons. simpl List.length.
    replace (Z.of_nat (S (List.length ds)) - 1) with (Z.of_nat (List.length ds)) by lia.
    pose proof (digitsValue_bounds ds Hds) as B.
    assert (1 <= digitValue c).
    { unfold digitValue. unfold isZero in Ec. apply N.eqb_neq in Ec.
      assert (Hc' : (48 <= c <= 57)%N) by classes.
      change (code "0") with 48%N in *. lia. }
    nia.
Qed.

(** A number has one numeral. *)
Lemma isNumeral_unique (a b : jsstring) :
  isNumeral a = true -> isNumeral b = true ->
  digitsValue a = digitsValue b -> a = b.
Proof.
  intros Ha Hb Hv.
  destruct (isNumeral_bounds a Ha) as [Da Ba]. destruct (isNumeral_bounds b Hb) as [Db Bb].
  pose proof (digitsValue_bounds a Da) as Ua. pose proof (digitsValue_bounds b Db) as Ub.
  assert (Hza : a = js "0" -> b = js "0").
  { intros ->. destruct Bb as [->|Bb]; [reflexivity|].
    rewrite <- Hv in Bb. change (digitsValue (js "0")) with 0 in Bb.
    assert (0 < 10 ^ (Z.of_nat (List.length b) - 1)).
    { destruct b; [discriminate Hb|]. apply Z.pow_pos_nonneg; simpl List.length; lia. }
    lia. }
  assert (Hzb : b = js "0" -> a = js "0").
  { intros ->. destruct Ba as [->|Ba]; [reflexivity|].
    rewrite Hv in Ba. change (digitsValue (js "0")) with 0 in Ba.
    assert (0 < 10 ^ (Z.of_nat (List.length a) - 1)).
    { destruct a; [discriminate Ha|]. apply Z.pow_pos_nonneg; simpl List.length; lia. }
    lia. }
  destruct Ba as [Ea|Ba]; [rewrite (Hza Ea); exact Ea|].
  destruct Bb as [Eb|Bb]; [rewrite (Hzb Eb); symmetry; exact Eb|].
  apply digits_inj; try assumption.
  rewrite <- Hv in Bb, Ub.
  assert (La : (0 < List.length a)%nat) by (destruct a; [discriminate Ha|simpl; lia]).
  assert (Lb : (0 < List.length b)%nat) by (destruct b; [discriminate Hb|simpl; lia]).
  assert (H1 : Z.of_nat (List.length a) - 1 < Z.of_nat (List.length b)).
  { apply (Z.pow_lt_mono_r_iff 10); lia. }
  assert (H2 : Z.of_nat (List.length b) - 1 < Z.of_nat (List.length a)).
  { apply (Z.pow_lt_mono_r_iff 10); lia. }
  lia.
Qed.

End Numerals.

(** [digitsOf] is the library's printer of natural numbers. *)
Section DecimalNumerals.

Local Open Scope Z_scope.

Lemma js_String (c : ascii) (s : string) : js (String c s) = N_of_ascii c :: js s.
Proof. reflexivity. Qed.

Lemma string_of_uint_acc (d : Decimal.uint) :
  forall acc : positive,
    fold_left (fun a c => 10 * a + digitValue c) (js (NilEmpty.string_of_uint d)) (Zpos acc)
    = Zpos (Pos.of_uint_acc d acc).
Proof.
  induction d; intros acc; cbn [NilEmpty.string_of_uint Pos.of_uint_acc];
    try reflexivity; rewrite js_String; cbn [fold_left]; rewrite <- IHd; f_equal;
    match goal with
    | |- context [digitValue ?c] =>
      let v := eval vm_compute in (digitValue c) in change (digitValue c) with v
    end; cbv delta [Pos.of_uint_acc]; try lia; change (Pos.mul _ acc) with (Pos.mul 10 acc) in *; lia.
Qed.

Lemma string_of_uint_value (d : Decimal.uint) :
  digitsValue (js (NilEmpty.string_of_uint d)) = Z.of_N (Pos.of_uint d).
Proof.
  unfold digitsValue.
  induction d; cbn [NilEmpty.string_of_uint Pos.of_uint]; try reflexivity;
    rewrite js_String; cbn [fold_left];
    match goal with
    | |- context [digitValue ?c] =>
      let v := eval vm_compute in (10 * 0 + digitValue c) in
      change (10 * 0 + digitValue c) with v
    end;
    first [exact IHd|apply string_of_uint_acc].
Qed.

Lemma nzhead_head (d x : Decimal.uint) : Decimal.nzhead d <> Decimal.D0 x.
Proof. induction d; simpl; try discriminate. exact IHd. Qed.

Lemma to_uint_head (p : positive) (x : Decimal.uint) : Pos.to_uint p <> Decimal.D0 x.
Proof.
  intros E.
  pose proof (DecimalPos.Unsigned.to_of (Pos.to_uint p)) as H.
  rewrite DecimalPos.Unsigned.of_to in H.
  change (N.to_uint (N.pos p)) with (Pos.to_uint p) in H.
  pose proof (DecimalPos.Unsigned.to_uint_nonzero p) as Hz.
  pose proof (nzhead_head (Pos.to_uint p)) as Hh.
  unfold Decimal.unorm in H.
  destruct (Decimal.nzhead (Pos.to_uint p)) as [|u|u|u|u|u|u|u|u|u|u].
  - apply Hz. exact H.
  - apply (Hh u). reflexivity.
  - rewrite H in E. discriminate E.
  - rewrite H in E. discriminate E.
  - rewrite H in E. discriminate E.
  - rewrite H in E. discriminate E.
  - rewrite H in E. discriminate E.
  - rewrite H in E. discriminate E.
  - rewrite H in E. discriminate E.
  - rewrite H in E. discriminate E.
  - rewrite H in E. discriminate E.
Qed.

Lemma string_of_uint_first (d : Decimal.uint) :
  match d with
  | Decimal.Nil | Decimal.D0 _ => True
  | _ => exists c r, js (NilEmpty.string_of_uint d) = c :: r /\ isZero c = false
  end.
Proof. destruct d; try exact I; eexists; eexists; split; reflexivity. Qed.

(** [digitsOf] gives the numeral of a natural number. *)
Lemma digitsOf_numeral (z : Z) :
  0 <= z -> isNumeral (digitsOf z) = true /\ digitsValue (digitsOf z) = z.
Proof.
  intros Hz. destruct z as [|p|p]; [split; reflexivity| |lia].
  unfold digitsOf. change (N.to_uint (Z.to_N (Zpos p))) with (Pos.to_uint p).
  pose proof (to_uint_head p) as Hh.
  pose proof (DecimalPos.Unsigned.to_uint_nonnil p) as Hn.
  assert (E : NilZero.string_of_uint (Pos.to_uint p) = NilEmpty.string_of_uint (Pos.to_uint p)).
  { destruct (Pos.to_uint p); [contradiction|reflexivity..]. }
  rewrite E. split.
  - pose proof (string_of_uint_digits (Pos.to_uint p)) as Hd.
    pose proof (string_of_uint_first (Pos.to_uint p)) as Hf.
    destruct (Pos.to_uint p) eqn:Ed; try contradiction;
      try (exfalso; apply (Hh u); reflexivity);
      destruct Hf as [c [r [Ec Hc]]]; rewrite Ec in *;
      unfold isNumeral; rewrite Hd, Hc; reflexivity.
  - rewrite string_of_uint_value, DecimalPos.Unsigned.of_to. reflexivity.
Qed.

End DecimalNumerals.

(** ** Seventeen digits *)

Section SeventeenDigits.

Local Open Scope Z_scope.

(** The rounding interval of [m * 2^e], from the number itself: half an
    ulp above, and half an ulp below or a quarter when [m] is [2^52]. *)
Lemma roundingInterval_width (m : positive) (e : Z) :
  let '(lo, hi, closed) := roundingInterval m e in
  let P := Qpower 2 (e - 2) in
  (hi == magnitude m e + 2 * P)%Q
  /\ ((lo == magnitude m e - 2 * P)%Q
      \/ (m = (2 ^ 52)%positive /\ (lo == magnitude m e - P)%Q)).
Proof.
  unfold roundingInterval, magnitude. cbv zeta.
  pose proof (pow2_succ e) as He. pose proof (pow2_succ (e - 1)) as He1.
  replace (e - 1 - 1) with (e - 2) in He1 by lia.
  set (h := Qpower 2 (e - 1)) in *. set (P := Qpower 2 (e - 2)) in *.
  set (M := inject_Z (Z.pos m)).
  split.
  - rewrite inject_Z_plus, inject_Z_mult, He, He1. fold M. change (inject_Z 2) with 2%Q.
    change (inject_Z 1) with 1%Q. ring.
  - destruct (Pos.eqb m (2 ^ 52)) eqn:Em; simpl andb.
    + apply Pos.eqb_eq in Em. destruct (-1074 <? e).
      * right. split; [exact Em|].
        unfold Z.sub. rewrite inject_Z_plus, inject_Z_mult. fold M.
        change (inject_Z 4) with 4%Q. change (inject_Z (- (1))) with (-1)%Q.
        rewrite He, He1. ring.
      * left. unfold Z.sub. rewrite inject_Z_plus, inject_Z_mult. fold M.
        change (inject_Z 2) with 2%Q. change (inject_Z (- (1))) with (-1)%Q.
        rewrite He, He1. ring.
    + left. unfold Z.sub. rewrite inject_Z_plus, inject_Z_mult. fold M.
      change (inject_Z 2) with 2%Q. change (inject_Z (- (1))) with (-1)%Q.
      rewrite He, He1. ring.
Qed.

Lemma Qfloor_scaled (z j : Z) :
  0 <= j -> Qfloor (inject_Z z * Qpower 10 (- j)) = z / 10 ^ j.
Proof.
  intros Hj.
  assert (Hp : 0 < 10 ^ j) by (apply Z.pow_pos_nonneg; lia).
  destruct (10 ^ j) as [|d|d] eqn:Ed; try lia.
  rewrite (Qfloor_Qeq _ (z # d)); [reflexivity|].
  rewrite Qpower_opp, pow10_Z, Ed by lia.
  rewrite Qmake_Qdiv. reflexivity.
Qed.

(** Seventeen digits are enough for an integer binary64 of eighteen
    digits or more. *)
Lemma candidates_17 (m : positive) (e z N : Z) :
  (magnitude m e == inject_Z z)%Q ->
  Zpos (digits2_pos m) <= 53 -> 0 <= e ->
  18 <= N -> 10 ^ (N - 1) <= z < 10 ^ N ->
  candidates (roundingInterval m e) (magnitude m e) N 17 <> [].
Proof.
  intros Hq Hd He HN Hz.
  pose proof (roundingInterval_width m e) as Hiv.
  destruct (roundingInterval m e) as [[lo hi] closed]. cbv zeta in Hiv.
  destruct Hiv as [Ehi Hlo].
  set (P := Qpower 2 (e - 2)) in *.
  assert (EP : (inject_Z (2 ^ e) == 4 * P)%Q).
  { rewrite <- pow2_Z by lia. rewrite (pow2_succ e), (pow2_succ (e - 1)).
    replace (e - 1 - 1) with (e - 2) by lia. fold P. ring. }
  assert (HP : (0 < P)%Q) by apply pow2_pos.
  assert (Ez : z = Zpos m * 2 ^ e).
  { apply inject_Z_injective. rewrite <- Hq. apply magnitude_integer, He. }
  assert (Hm : Zpos m < 2 ^ 53).
  { pose proof (digits2_bounds m) as [_ H].
    assert (2 ^ Zpos (digits2_pos m) <= 2 ^ 53) by (apply Z.pow_le_mono_r; lia). lia. }
  set (sp := 10 ^ (N - 17)).
  assert (Hsp : 0 < sp) by (apply Z.pow_pos_nonneg; lia).
  assert (E16 : 10 ^ (N - 1) = 10 ^ 16 * sp).
  { unfold sp. rewrite <- Z.pow_add_r by lia. f_equal. lia. }
  assert (E17 : 10 ^ N = 10 ^ 17 * sp).
  { unfold sp. rewrite <- Z.pow_add_r by lia. f_equal. lia. }
  assert (H2e : 0 < 2 ^ e) by (apply Z.pow_pos_nonneg; lia).
  change (2 ^ 53) with 9007199254740992 in Hm.
  change (10 ^ 16) with 10000000000000000 in E16.
  change (10 ^ 17) with 100000000000000000 in E17.
  assert (Hsp1 : sp < 2 ^ e) by nia.
  assert (Hsp2 : m = (2 ^ 52)%positive -> 2 * sp < 2 ^ e).
  { intros ->. change (Zpos (2 ^ 52)) with 4503599627370496 in Ez. nia. }
  set (s := z / sp). set (r := z mod sp).
  assert (Ediv : z = sp * s + r) by (apply Z.div_mod; lia).
  assert (Hr : 0 <= r < sp) by (apply Z.mod_pos_bound; lia).
  assert (Hs : 10 ^ 16 <= s < 10 ^ 17).
  { change (10 ^ 16) with 10000000000000000.
    change (10 ^ 17) with 100000000000000000. nia. }
  assert (Hfloor : Qfloor (magnitude m e * Qpower 10 (17 - N)) = s).
  { rewrite (Qfloor_Qeq _ (inject_Z z * Qpower 10 (- (N - 17)))).
    - apply Qfloor_scaled. lia.
    - rewrite Hq. replace (17 - N) with (- (N - 17)) by lia. reflexivity. }
  assert (Hin : forall c : Z * Z,
             In c [(N, s); (N, s + 1); (N + 1, 10 ^ (17 - 1))] ->
             10 ^ 16 <= snd c < 10 ^ 17 ->
             roundsTo (lo, hi, closed) (candidateValue 17 c) = true ->
             candidates (lo, hi, closed) (magnitude m e) N 17 <> []).
  { intros c Hc Hrange Hround E.
    assert (Hf : In c (candidates (lo, hi, closed) (magnitude m e) N 17)).
    { unfold candidates. apply filter_In. rewrite Hfloor. split; [exact Hc|].
      rewrite Hround, andb_true_r. apply andb_true_iff.
      split; [apply Z.leb_le|apply Z.ltb_lt]; change (17 - 1) with 16; lia. }
    rewrite E in Hf. destruct Hf. }
  assert (Hlow : (inject_Z r < 2 * P)%Q ->
                 (m = (2 ^ 52)%positive -> (inject_Z r < P)%Q) ->
                 (lo < inject_Z (s * sp))%Q).
  { intros H1 H2.
    assert (Ev : (inject_Z (s * sp) == inject_Z z - inject_Z r)%Q).
    { unfold Qminus. rewrite <- inject_Z_opp, <- inject_Z_plus.
      replace (z + - r) with (s * sp) by lia. reflexivity. }
    rewrite Ev. destruct Hlo as [Hlo|[Em Hlo]]; rewrite Hlo, Hq.
    - lra.
    - specialize (H2 Em). lra. }
  destruct (Z_le_gt_dec (2 * r) sp) as [Hnear|Hnear].
  - apply (Hin (N, s)); [left; reflexivity|exact Hs|].
    rewrite (roundsTo_Qeq _ _ _ (candidateValue_integer N 17 s ltac:(lia))).
    fold sp. apply roundsTo_inside.
    + apply Hlow.
      * assert (H : (inject_Z (2 * r) < inject_Z (2 ^ e))%Q) by (rewrite <- Zlt_Qlt; lia).
        rewrite inject_Z_mult, EP in H. change (inject_Z 2) with 2%Q in H. lra.
      * intros Em. specialize (Hsp2 Em).
        assert (H : (inject_Z (4 * r) < inject_Z (2 ^ e))%Q) by (rewrite <- Zlt_Qlt; lia).
        rewrite inject_Z_mult, EP in H. change (inject_Z 4) with 4%Q in H. lra.
    + rewrite Ehi, Hq.
      assert (H : (inject_Z (s * sp) <= inject_Z z)%Q) by (rewrite <- Zle_Qle; lia).
      lra.
  - assert (Hv2 : (lo < inject_Z ((s + 1) * sp) /\ inject_Z ((s + 1) * sp) < hi)%Q).
    { assert (Ev : (inject_Z ((s + 1) * sp) == inject_Z z + inject_Z (sp - r))%Q).
      { rewrite <- inject_Z_plus.
        replace (z + (sp - r)) with ((s + 1) * sp) by lia. reflexivity. }
      assert (H : (inject_Z (2 * (sp - r)) < inject_Z (2 ^ e))%Q) by (rewrite <- Zlt_Qlt; lia).
      rewrite inject_Z_mult, EP in H. change (inject_Z 2) with 2%Q in H.
      assert (H0 : (0 < inject_Z (sp - r))%Q).
      { change 0%Q with (inject_Z 0). rewrite <- Zlt_Qlt. lia. }
      rewrite Ev, Ehi, Hq. split; [|lra].
      destruct Hlo as [Hlo|[_ Hlo]]; rewrite Hlo, Hq; lra. }
    destruct (Z_lt_ge_dec (s + 1) (10 ^ 17)) as [Hs1|Hs1].
    + apply (Hin (N, s + 1)); [right; left; reflexivity|simpl; lia|].
      rewrite (roundsTo_Qeq _ _ _ (candidateValue_integer N 17 (s + 1) ltac:(lia))).
      fold sp. apply roundsTo_inside; apply Hv2.
    + apply (Hin (N + 1, 10 ^ (17 - 1))); [right; right; left; reflexivity|simpl; lia|].
      rewrite (roundsTo_Qeq _ _ _ (candidateValue_integer (N + 1) 17 _ ltac:(lia))).
      assert (E : 10 ^ (17 - 1) * 10 ^ (N + 1 - 17) = (s + 1) * sp).
      { replace (s + 1) with (10 ^ 17) by lia.
        unfold sp. rewrite <- !Z.pow_add_r by lia. f_equal. lia. }
      rewrite E. apply roundsTo_inside; apply Hv2.
Qed.

End SeventeenDigits.

(** ** The strings of integers *)

Section NumeralStrings.

Local Open Scope Z_scope.

Lemma decimalDigits_first (k : nat) :
  forall s : Z,
    (1 <= k)%nat -> 10 ^ (Z.of_nat k - 1) <= s < 10 ^ Z.of_nat k ->
    exists (c : char) (t : jsstring),
      decimalDigits k s = c :: t /\ isZero c = false.
Proof.
  induction k as [|k IH]; intros s Hk Hs; [lia|].
  cbn [decimalDigits]. destruct k as [|k].
  - change (Z.of_nat 1 - 1) with 0 in Hs. change (10 ^ Z.of_nat 1) with 10 in Hs.
    change (10 ^ 0) with 1 in Hs.
    exists (code "0" + Z.to_N (s mod 10))%N, []. split; [reflexivity|].
    rewrite Z.mod_small by lia. unfold isZero. apply N.eqb_neq. lia.
  - destruct (IH (s / 10)) as [c [t [E Hc]]]; [lia| |].
    + replace (Z.of_nat (S (S k)) - 1) with (Z.succ (Z.of_nat (S k) - 1)) in Hs by lia.
      replace (Z.of_nat (S (S k))) with (Z.succ (Z.of_nat (S k))) in Hs by lia.
      rewrite !Z.pow_succ_r in Hs by lia. split.
      * apply Z.div_le_lower_bound; lia.
      * apply Z.div_lt_upper_bound; lia.
    + rewrite E. exists c, (t ++ [(code "0" + Z.to_N (s mod 10))%N]).
      split; [reflexivity|exact Hc].
Qed.

Lemma isNumeral_decimalDigits (k s : Z) (j : nat) :
  1 <= k -> 10 ^ (k - 1) <= s < 10 ^ k ->
  isNumeral (decimalDigits (Z.to_nat k) s ++ zeros j) = true.
Proof.
  intros Hk Hs.
  assert (Hd : forallb isDigit (decimalDigits (Z.to_nat k) s ++ zeros j) = true).
  { rewrite forallb_app, decimalDigits_digits, zeros_digits. reflexivity. }
  destruct (decimalDigits_first (Z.to_nat k) s) as [c [t [E Hc]]];
    [lia|rewrite Z2Nat.id by lia; exact Hs|].
  rewrite E in *. unfold isNumeral. cbn [app]. cbn [app] in Hd.
  rewrite Hd, Hc. reflexivity.
Qed.

(** The search for the digits of a positive integer binary64 finds
    some. *)
Lemma shortest_some (m : positive) (e z : Z) :
  let iv := roundingInterval m e in
  let q := magnitude m e in
  let N := decimalExponent 700 q 0 in
  (q == inject_Z z)%Q -> Zpos (digits2_pos m) <= 53 ->
  z < 10 ^ 700 -> (0 <= e \/ z < 10 ^ 17) ->
  1 <= N /\ 10 ^ (N - 1) <= z < 10 ^ N
  /\ exists n k s : Z,
       shortest iv q N digitCounts = Some (n, k, s)
       /\ 1 <= k <= 17 /\ (n = N \/ n = N + 1)
       /\ 10 ^ (k - 1) <= s < 10 ^ k
       /\ roundsTo iv (candidateValue k (n, s)) = true.
Proof.
  intros iv q N Hq Hd H700 He.
  assert (Hz1 : 1 <= z).
  { pose proof (magnitude_pos m e) as H0. fold q in H0.
    rewrite Hq in H0. change 0%Q with (inject_Z 0) in H0.
    rewrite <- Zlt_Qlt in H0. lia. }
  destruct (decimalExponent_integer q z Hq Hz1 700 0) as [HN1 HN];
    [lia|left; reflexivity|exact H700|].
  fold N in HN1, HN. split; [exact HN1|]. split; [exact HN|].
  assert (Hne : exists k : Z, 1 <= k <= 17 /\ candidates iv q N k <> []).
  { destruct (Z_le_gt_dec N 17) as [H17|H17].
    - exists N. split; [lia|]. intros E.
      assert (Hself : roundsTo iv q = true).
      { pose proof (roundingInterval_spec m e) as Hiv. fold iv in Hiv. fold q in Hiv.
        destruct iv as [[lo hi] closed]. cbv zeta in Hiv.
        destruct Hiv as [Ehi [_ Hlt]]. pose proof (pow2_pos (e - 1)) as Hh.
        apply roundsTo_inside; [exact Hlt|rewrite Ehi; lra]. }
      pose proof (candidates_exact iv q N z Hq HN Hself) as Hin.
      rewrite E in Hin. destruct Hin.
    - exists 17. split; [lia|]. apply (candidates_17 m e z N Hq Hd); [|lia|exact HN].
      destruct He as [He|He]; [exact He|].
      assert (10 ^ 17 <= 10 ^ (N - 1)) by (apply Z.pow_le_mono_r; lia). lia. }
  destruct Hne as [k' [Hk' Hne]].
  destruct (shortest iv q N digitCounts) as [[[n k] s]|] eqn:Es.
  - exists n, k, s. split; [reflexivity|].
    destruct (shortest_candidate _ _ _ _ _ _ _ Es) as [Hk Hin].
    apply digitCounts_In in Hk.
    apply candidates_In in Hin as [Hn [Hs Hr]].
    split; [exact Hk|]. split; [tauto|]. split; [exact Hs|exact Hr].
  - exfalso. apply (shortest_found iv q N digitCounts k') in Es;
      [exact Es|apply digitCounts_In; exact Hk'|exact Hne].
Qed.

(** [String] of a positive integer below [10^21]: a numeral, of an
    integer that rounds to the same binary64; the integer's own numeral
    when [e <= 0], where neighbouring numbers are at most 1 apart. *)
Lemma String_positive_numeral (m : positive) (e z : Z) :
  (magnitude m e == inject_Z z)%Q ->
  (snd (fst (roundingInterval m e)) < Qpower 10 21)%Q ->
  Zpos (digits2_pos m) <= 53 -> (0 <= e \/ z < 10 ^ 17) ->
  isNumeral (String_positive m e) = true
  /\ roundsTo (roundingInterval m e)
       (inject_Z (digitsValue (String_positive m e))) = true
  /\ (e <= 0 -> z < 10 ^ 17 -> String_positive m e = digitsOf z).
Proof.
  intros Hq Hhi Hd He.
  pose proof (shortest_integer m e z Hq Hhi) as H.
  assert (H700 : z < 10 ^ 700).
  { pose proof (roundingInterval_spec m e) as Hiv.
    destruct (roundingInterval m e) as [[lo hi] closed]. simpl in Hhi.
    cbv zeta in Hiv. destruct Hiv as [Ehi _]. pose proof (pow2_pos (e - 1)) as Hp.
    assert (Hlt : (inject_Z z < inject_Z (10 ^ 21))%Q).
    { rewrite <- pow10_Z by lia. rewrite <- Hq. lra. }
    rewrite <- Zlt_Qlt in Hlt.
    assert (10 ^ 21 <= 10 ^ 700) by (apply Z.pow_le_mono_r; lia). lia. }
  destruct (shortest_some m e z Hq Hd H700 He) as [_ [_ [n [k [s [Es _]]]]]].
  cbv zeta in H. rewrite Es in H. destruct H as [Hk [Hn [Hs Hr]]].
  assert (Ev : digitsValue (decimalDigits (Z.to_nat k) s ++ zeros (Z.to_nat (n - k)))
               = s * 10 ^ (n - k)).
  { rewrite digitsValue_app, digitsValue_zeros, digitsValue_decimalDigits.
    unfold zeros. rewrite repeat_length, !Z2Nat.id by lia.
    rewrite Z.mod_small by lia. lia. }
  assert (Hnum : isNumeral (decimalDigits (Z.to_nat k) s ++ zeros (Z.to_nat (n - k))) = true)
    by (apply isNumeral_decimalDigits; lia).
  assert (ES : String_positive m e
               = decimalDigits (Z.to_nat k) s ++ zeros (Z.to_nat (n - k))).
  { unfold String_positive. fold (magnitude m e). rewrite Es.
    apply layout_integer; lia. }
  rewrite ES. split; [exact Hnum|]. split; [rewrite Ev; exact Hr|].
  intros He0 Hz. apply isNumeral_unique; [exact Hnum|apply digitsOf_numeral| ].
  - pose proof (magnitude_pos m e) as H0. rewrite Hq in H0.
    change 0%Q with (inject_Z 0) in H0. rewrite <- Zlt_Qlt in H0. lia.
  - destruct (String_positive_integer m e z Hq Hhi) as [_ Hex].
    destruct (Hex He0 Hz) as [_ Hv]. rewrite ES in Hv. rewrite Hv.
    symmetry. apply digitsOf_numeral.
    pose proof (magnitude_pos m e) as H0. rewrite Hq in H0.
    change 0%Q with (inject_Z 0) in H0. rewrite <- Zlt_Qlt in H0. lia.
Qed.

(** [Math.round] of a finite number below [1e21] in magnitude: a zero, or
    the binary64 of the nearest integer. *)
Lemma Math_round_cases (n : float) :
  isFinite n = true -> (abs n <? 1e21)%float = true ->
  let z := Qfloor (toQ n + (1 # 2)) in
  (z = 0 /\ exists s : bool, Prim2SF (Math_round n) = S754_zero s)
  \/ (exists (m : positive) (e : Z),
         Prim2SF (Math_round n) = S754_finite (z <? 0) m e
         /\ Zpos (digits2_pos m) <= 53 /\ below21 m e
         /\ (Zpos (digits2_pos m) = 53 \/ e <= 0)
         /\ (0 <= e \/ Z.abs z < 2 ^ 53)
         /\ (magnitude m e == inject_Z (Z.abs z))%Q).
Proof.
  intros Hfin Hlt. destruct (finite_cases n Hfin) as [[s E]|[s [m [e E]]]].
  - left. unfold Math_round, toQ. rewrite E. split; [reflexivity|]. exists s. exact E.
  - destruct (finite_valid n s m e E) as [Hd [He Hn]].
    pose proof (ltb_1e21 n s m e E Hlt) as Hb.
    pose proof (toQ_finite n s m e E) as Hq.
    unfold Math_round. rewrite E.
    destruct (0 <=? e) eqn:He0.
    + apply Z.leb_le in He0.
      pose proof (magnitude_integer m e He0) as Hm.
      assert (Hz : Qfloor (toQ n + (1 # 2))
                   = if s then - (Zpos m * 2 ^ e) else Zpos m * 2 ^ e).
      { rewrite <- (Qfloor_half (if s then _ else _)). apply Qfloor_Qeq.
        rewrite Hq. destruct s; rewrite Hm; [rewrite inject_Z_opp|]; reflexivity. }
      assert (Hpos : 0 < Zpos m * 2 ^ e) by (apply Z.mul_pos_pos; [lia|apply Z.pow_pos_nonneg; lia]).
      right. exists m, e. cbv zeta. rewrite Hz.
      split; [|split; [exact Hd|split; [exact Hb|split; [lia|split; [lia|]]]]].
      * rewrite E. f_equal. destruct s; symmetry; [apply Z.ltb_lt|apply Z.ltb_ge]; lia.
      * rewrite Hm. destruct s; f_equiv; lia.
    + apply Z.leb_gt in He0. cbv zeta.
      set (z := Qfloor (toQ n + (1 # 2))).
      destruct (z =? 0) eqn:Hz0.
      * apply Z.eqb_eq in Hz0. left. split; [exact Hz0|].
        exists s. destruct s; reflexivity.
      * apply Z.eqb_neq in Hz0.
        assert (Habs : Z.abs z < 2 ^ 53).
        { pose proof (Qfloor_le (toQ n + (1 # 2))) as H1.
          pose proof (Qlt_floor (toQ n + (1 # 2))) as H2. fold z in H1, H2.
          pose proof (magnitude_pos m e) as Hm0.
          assert (Hm : (magnitude m e < inject_Z (2 ^ 52))%Q).
          { unfold magnitude.
            pose proof (pow2_half (e + 1) ltac:(lia)) as Hh.
            replace (e + 1 - 1) with e in Hh by lia.
            pose proof (pow2_pos e) as Hp.
            pose proof (digits2_bounds m) as [_ Hup].
            assert (Hm53 : Zpos m < 2 ^ 53).
            { assert (2 ^ Zpos (digits2_pos m) <= 2 ^ 53) by (apply Z.pow_le_mono_r; lia).
              lia. }
            assert (HM : (inject_Z (Zpos m) < inject_Z (2 ^ 53))%Q)
              by (rewrite <- Zlt_Qlt; exact Hm53).
            change (inject_Z (2 ^ 53)) with (9007199254740992 # 1)%Q in HM.
            change (inject_Z (2 ^ 52)) with (4503599627370496 # 1)%Q.
            set (M := inject_Z (Zpos m)) in *. set (P := Qpower 2 e) in *.
            assert (HM0 : (0 < M)%Q) by reflexivity.
            apply Qle_lt_trans with (y := (M * (1 # 2))%Q).
            - rewrite (Qmult_comm M P), (Qmult_comm M (1 # 2)).
              apply Qmult_le_compat_r; [exact Hh|apply Qlt_le_weak, HM0].
            - lra. }
          change (inject_Z (2 ^ 52)) with (4503599627370496 # 1)%Q in Hm.
          assert (Hx : (- (4503599627370496 # 1) < toQ n < (4503599627370496 # 1))%Q).
          { rewrite Hq. destruct s; lra. }
          assert (H3 : (inject_Z z < inject_Z (4503599627370496 + 1))%Q).
          { rewrite inject_Z_plus. change (inject_Z 4503599627370496) with (4503599627370496 # 1)%Q.
            change (inject_Z 1) with 1%Q. lra. }
          assert (H4 : (inject_Z (- 4503599627370496 - 1) < inject_Z z)%Q).
          { rewrite inject_Z_plus in H2. change (inject_Z 1) with 1%Q in H2.
            change (inject_Z (- 4503599627370496 - 1)) with (- (4503599627370496 # 1) - 1)%Q.
            lra. }
          rewrite <- Zlt_Qlt in H3, H4.
          change (2 ^ 53) with 9007199254740992. lia. }
        destruct (binary_normalize_integer z Hz0 Habs) as [mz [ez [Ez [Hdz [Hez Hvz]]]]].
        right. exists mz, ez.
        split; [exact Ez|]. split; [lia|]. split; [left; lia|].
        split; [left; lia|]. split; [right; exact Habs|exact Hvz].
Qed.

Lemma isNumeral_digits (ds : jsstring) :
  isNumeral ds = true -> forallb isDigit ds = true /\ ds <> [].
Proof.
  destruct ds as [|c ds]; [discriminate|]. unfold isNumeral.
  intros H. apply andb_true_iff in H as [H _]. split; [exact H|discriminate].
Qed.

(** [formatNumber] of a number that passes the test, below [1e21]. *)
Lemma formatNumber_numeral (n : float) :
  isFinite n = true -> nearInteger n = true -> (abs n <? 1e21)%float = true ->
  let z := Qfloor (toQ n + (1 # 2)) in
  exists ds : jsstring,
    formatNumber n = (if z <? 0 then js "-" else []) ++ ds
    /\ forallb isDigit ds = true /\ isNumeral ds = true
    /\ (forall (s : bool) (m : positive) (e : Z),
           Prim2SF (Math_round n) = S754_finite s m e ->
           roundsTo (roundingInterval m e) (inject_Z (digitsValue ds)) = true)
    /\ (Z.abs z < 2 ^ 53 ->
        ds = digitsOf (Z.abs z) /\ ds <> [] /\ digitsValue ds = Z.abs z).
Proof.
  intros Hfin Hnear Hlt z. unfold formatNumber. rewrite Hfin, Hnear. simpl negb.
  cbv iota.
  destruct (Math_round_cases n Hfin Hlt) as [[Hz [s E]]|[m [e [E [Hd [Hb [Hn [He Hq]]]]]]]];
    fold z in Hz || fold z in E, He, Hq.
  - exists (js "0"). unfold String_. rewrite E, Hz.
    split; [reflexivity|]. split; [reflexivity|]. split; [reflexivity|].
    split; [intros s' m e E'; discriminate E'|].
    intros _. split; [reflexivity|]. split; [discriminate|reflexivity].
  - pose proof (roundingInterval_below21 m e Hd Hb) as Hhi.
    assert (H17 : 2 ^ 53 < 10 ^ 17) by reflexivity.
    destruct (String_positive_numeral m e (Z.abs z) Hq Hhi Hd ltac:(lia))
      as [Hnum [Hr Hex]].
    exists (String_positive m e). unfold String_. rewrite E.
    split; [reflexivity|]. split; [apply isNumeral_digits, Hnum|].
    split; [exact Hnum|]. split.
    + intros s' m' e' E'. injection E' as _ <- <-. exact Hr.
    + intros Hz.
      assert (E0 : String_positive m e = digitsOf (Z.abs z)).
      { apply Hex; [|lia].
        destruct (Z_le_gt_dec e 0) as [He0|He0]; [exact He0|]. exfalso.
        destruct Hn as [Hn|Hn]; [|lia].
        pose proof (digits2_bounds m) as [Hlow _]. rewrite Hn in Hlow.
        rewrite magnitude_integer in Hq by lia. apply -> inject_Z_injective in Hq.
        assert (Hp : 2 ^ 1 <= 2 ^ e) by (apply Z.pow_le_mono_r; lia).
        change (2 ^ (53 - 1)) with 4503599627370496 in Hlow.
        change (2 ^ 53) with 9007199254740992 in Hz. change (2 ^ 1) with 2 in Hp.
        assert (4503599627370496 * 2 <= Zpos m * 2 ^ e)
          by (apply Z.mul_le_mono_nonneg; lia).
        lia. }
      split; [exact E0|]. split; [apply isNumeral_digits, Hnum|].
      rewrite E0. apply digitsOf_numeral. lia.
Qed.

(** *** From [1e21] on *)

Lemma geb_1e21 (n : float) (s : bool) (m : positive) (e : Z) :
  Prim2SF n = S754_finite s m e ->
  (abs n <? 1e21)%float = false ->
  17 <= e /\ 10 ^ 21 <= Zpos m * 2 ^ e.
Proof.
  intros E H. destruct (finite_valid n s m e E) as [Hd [He Hn]].
  rewrite ltb_spec, abs_spec, E in H.
  change (Prim2SF 1e21) with (S754_finite false 7629394531250000 17) in H.
  unfold SFltb, SFabs, SFcompare in H.
  destruct (Z.compare_spec e 17) as [->|Hlt|Hgt]; [| discriminate H|].
  - split; [lia|].
    destruct (Pos.compare_cont Eq m 7629394531250000) eqn:Ec; try discriminate H.
    + apply Pos.compare_eq in Ec. subst m. vm_compute. discriminate.
    + apply Pos.compare_gt_iff in Ec.
      change (10 ^ 21) with (7629394531250000 * 2 ^ 17).
      apply Z.mul_le_mono_nonneg_r; [vm_compute; discriminate|].
      clear - Ec. apply Pos2Z.pos_lt_pos in Ec. lia.
  - split; [lia|].
    destruct Hn as [Hn|Hn]; [|lia].
    pose proof (digits2_bounds m) as [Hlow _]. rewrite Hn in Hlow.
    assert (Hp : 2 ^ 18 <= 2 ^ e) by (apply Z.pow_le_mono_r; lia).
    apply Z.le_trans with (m := 2 ^ (53 - 1) * 2 ^ 18); [vm_compute; discriminate|].
    apply Z.mul_le_mono_nonneg; try lia; vm_compute; discriminate.
Qed.

Lemma layout_exponent (n k : Z) (c : char) (t : jsstring) :
  21 < n -> (k = 1 <-> t = []) ->
  layout n k (c :: t)
  = c :: (if isEmpty t then [] else code "." :: t) ++ js "e+" ++ digitsOf (n - 1).
Proof.
  intros Hn Hk. unfold layout.
  replace (n <=? 21) with false by (symmetry; apply Z.leb_gt; lia).
  replace (n <=? 0) with false by (symmetry; apply Z.leb_gt; lia).
  rewrite !andb_false_r.
  unfold signedExponent.
  replace (n - 1 <? 0) with false by (symmetry; apply Z.ltb_ge; lia).
  rewrite Z.abs_eq by lia.
  destruct (k =? 1) eqn:Ek.
  - apply Z.eqb_eq in Ek. rewrite (proj1 Hk Ek). reflexivity.
  - apply Z.eqb_neq in Ek. destruct t as [|d t]; [tauto|].
    cbn [firstn skipn isEmpty app]. simpl. try reflexivity.
Qed.

(** [String] of a positive integer binary64 from [10^21] on: a digit that
    is not [0], a dot and more digits unless there is only that one, and
    the exponent, 21 or more. *)
Lemma String_positive_exponent (m : positive) (e z : Z) :
  (magnitude m e == inject_Z z)%Q ->
  Zpos (digits2_pos m) <= 53 -> 0 <= e -> 10 ^ 21 <= z < 10 ^ 700 ->
  exists (a : char) (f : jsstring) (x : Z),
    String_positive m e
    = a :: (if isEmpty f then [] else code "." :: f) ++ js "e+" ++ digitsOf x
    /\ isDigit a = true /\ isZero a = false
    /\ forallb isDigit f = true /\ 21 <= x.
Proof.
  intros Hq Hd He Hz.
  destruct (shortest_some m e z Hq Hd ltac:(lia) ltac:(lia))
    as [HN1 [HN [n [k [s [Es [Hk [Hn [Hs _]]]]]]]]].
  set (N := decimalExponent 700 (magnitude m e) 0) in *.
  assert (HN21 : 21 < N).
  { destruct (Z_le_gt_dec N 21) as [H|H]; [|lia].
    assert (10 ^ N <= 10 ^ 21) by (apply Z.pow_le_mono_r; lia). lia. }
  unfold String_positive. fold (magnitude m e). fold N. rewrite Es.
  destruct (decimalDigits_first (Z.to_nat k) s) as [c [t [E Hc]]];
    [lia|rewrite Z2Nat.id by lia; exact Hs|].
  pose proof (decimalDigits_digits (Z.to_nat k) s) as Hdig.
  pose proof (decimalDigits_length (Z.to_nat k) s) as Hlen.
  rewrite E in *. cbn [forallb List.length] in Hdig, Hlen.
  apply andb_true_iff in Hdig as [Hdc Hdt].
  exists c, t, (n - 1). split; [|split; [exact Hdc|split; [exact Hc|split; [exact Hdt|lia]]]].
  apply layout_exponent; [lia|].
  split.
  - intros ->. destruct t; [reflexivity|]. simpl in Hlen. lia.
  - intros ->. simpl in Hlen. lia.
Qed.

Lemma ltb_zero (n : float) (s : bool) (m : positive) (e : Z) :
  Prim2SF n = S754_finite s m e -> (n <? 0)%float = s.
Proof.
  intros E. rewrite ltb_spec, E. destruct s; reflexivity.
Qed.

(** [formatNumber] of a finite number from [1e21] on: it passes the test,
    and is rendered in exponent notation. *)
Lemma formatNumber_exponent (n : float) :
  isFinite n = true -> (abs n <? 1e21)%float = false ->
  nearInteger n = true
  /\ exists (a : char) (f : jsstring) (x : Z),
       formatNumber n
       = (if (n <? 0)%float then js "-" else [])
           ++ a :: (if isEmpty f then [] else code "." :: f)
           ++ js "e+" ++ digitsOf x
       /\ isDigit a = true /\ isZero a = false
       /\ forallb isDigit f = true /\ 21 <= x.
Proof.
  intros Hfin Hge. destruct (finite_cases n Hfin) as [[s E]|[s [m [e E]]]].
  - exfalso. rewrite ltb_spec, abs_spec, E in Hge. discriminate Hge.
  - destruct (finite_valid n s m e E) as [Hd [He _]].
    destruct (geb_1e21 n s m e E Hge) as [He17 Hz].
    assert (Hr : Math_round n = n).
    { unfold Math_round. rewrite E.
      replace (0 <=? e) with true by (symmetry; apply Z.leb_le; lia). reflexivity. }
    assert (Hnear : nearInteger n = true).
    { unfold nearInteger. rewrite Hr.
      rewrite ltb_spec, abs_spec, sub_spec, E.
      unfold SF64sub, SFsub. rewrite Z.sub_diag. reflexivity. }
    split; [exact Hnear|].
    unfold formatNumber. rewrite Hfin, Hnear, Hr. simpl negb. cbv iota.
    unfold String_. rewrite E, (ltb_zero n s m e E).
    destruct (String_positive_exponent m e (Zpos m * 2 ^ e)) as [a [f [x [ES H]]]].
    + apply magnitude_integer. lia.
    + exact Hd.
    + lia.
    + split; [exact Hz|].
      pose proof (digits2_bounds m) as [_ Hup].
      assert (Hm53 : Zpos m < 2 ^ 53).
      { assert (2 ^ Zpos (digits2_pos m) <= 2 ^ 53) by (apply Z.pow_le_mono_r; lia). lia. }
      assert (Hp : 2 ^ e <= 2 ^ 971) by (apply Z.pow_le_mono_r; lia).
      assert (Hp0 : 0 < 2 ^ e) by (apply Z.pow_pos_nonneg; lia).
      assert (Hbig : 2 ^ 53 * 2 ^ 971 <= 10 ^ 700)
        by (apply Z.leb_le; vm_compute; reflexivity).
      apply Z.lt_le_trans with (m := 2 ^ 53 * 2 ^ e).
      * apply Z.mul_lt_mono_pos_r; assumption.
      * apply Z.le_trans with (m := 2 ^ 53 * 2 ^ 971); [|exact Hbig].
        apply Z.mul_le_mono_nonneg_l; [discriminate|exact Hp].
    + exists a, f, x. rewrite ES. split; [reflexivity|exact H].
Qed.

End NumeralStrings.

(** C8, as the code has it.  [formatNumber] returns "Error" for NaN and
    the infinities, the numbers that are not finite.  For a finite [n]
    that passes the test [Math.abs(n - Math.round(n)) < 1e-12] it returns
    [String] of the rounded value.  Below [1e21] in magnitude that is a
    numeral with nothing after it, a minus sign first for a negative
    integer: one digit or more with no leading zero, the digits of an
    integer that rounds to the same binary64, and the decimal digits of
    the nearest integer [z] itself when it is below [2^53].  From [1e21]
    on every finite [n] passes the test, and the result is in exponent
    notation: a sign, a digit that is not zero, a dot and more digits or
    nothing, "e+" and the exponent, 21 or more.  For a finite [n] that
    fails the test it returns [n.toFixed(12)], which below [1e21] is a
    sign, digits, a dot and twelve digits, with its trailing zeros (and
    then a trailing dot) stripped.  The number of "4" is rendered "4",
    [2^60], 1152921504606846976, as "1152921504606847000", and 1.5e21 as
    "1.5e+21". *)
Theorem formatNumber_cases :
  (forall n : float,
      isFinite n = false
      <-> Prim2SF n = S754_nan \/ exists s : bool, Prim2SF n = S754_infinity s)
  /\ (forall n : float, isFinite n = false -> formatNumber n = js "Error")
  /\ (forall n : float,
         isFinite n = true -> nearInteger n = true ->
         formatNumber n = String_ (Math_round n))
  /\ (forall n : float,
         isFinite n = true -> nearInteger n = true ->
         (abs n <? 1e21)%float = true ->
         let z := Qfloor (toQ n + (1 # 2)) in
         exists ds : jsstring,
           formatNumber n = (if (z <? 0)%Z then js "-" else []) ++ ds
           /\ forallb isDigit ds = true /\ isNumeral ds = true
           /\ (forall (s : bool) (m : positive) (e : Z),
                  Prim2SF (Math_round n) = S754_finite s m e ->
                  roundsTo (roundingInterval m e) (inject_Z (digitsValue ds)) = true)
           /\ ((Z.abs z < 2 ^ 53)%Z ->
               ds = digitsOf (Z.abs z) /\ ds <> [] /\ digitsValue ds = Z.abs z))
  /\ (forall n : float,
         isFinite n = true -> (abs n <? 1e21)%float = false ->
         nearInteger n = true
         /\ exists (a : char) (f : jsstring) (x : Z),
              formatNumber n
              = (if (n <? 0)%float then js "-" else [])
                  ++ a :: (if isEmpty f then [] else code "." :: f)
                  ++ js "e+" ++ digitsOf x
              /\ isDigit a = true /\ isZero a = false
              /\ forallb isDigit f = true /\ (21 <= x)%Z)
  /\ (forall n : float,
         isFinite n = true -> nearInteger n = false ->
         formatNumber n = stripTrailingZeros (toFixed 12 n))
  /\ (forall n : float,
         isFinite n = true -> (abs n <? 1e21)%float = true ->
         exists a b : jsstring,
           toFixed 12 n
           = (if (n <? 0)%float then js "-" else []) ++ a ++ js "." ++ b
           /\ a <> [] /\ forallb isDigit a = true
           /\ List.length b = 12%nat /\ forallb isDigit b = true)
  /\ formatNumber (Number (js "4")) = js "4"
  /\ Number (formatNumber (Number (js "4"))) = Number (js "4")
  /\ formatNumber (-3)%float = js "-3"
  /\ formatNumber 0.5%float = js "0.5"
  /\ formatNumber (1 / 3)%float = js "0.333333333333"
  /\ formatNumber 0x1p+60%float = js "1152921504606847000"
  /\ formatNumber 1e21%float = js "1e+21"
  /\ formatNumber 1.5e21%float = js "1.5e+21".
Proof.
  split; [exact isFinite_false|].
  split; [intros n H; unfold formatNumber; rewrite H; reflexivity|].
  split; [intros n H1 H2; unfold formatNumber; rewrite H1, H2; reflexivity|].
  split; [exact formatNumber_numeral|].
  split; [exact formatNumber_exponent|].
  split; [|split; [exact toFixed_shape|repeat split; vm_compute; reflexivity]].
  intros n H1 H2. unfold formatNumber. rewrite H1, H2. simpl negb.
  apply replaceDotZeros_strip, toFixed_end.
Qed.

Lemma formatNumber_cases_witness :
  formatNumber (0 / 0)%float = js "Error"
  /\ formatNumber 7%float = String_ (Math_round 7%float)
  /\ (exists ds : jsstring,
         formatNumber (-0x1.4ffffffffffffp+5)%float = js "-" ++ ds
         /\ forallb isDigit ds = true /\ isNumeral ds = true
         /\ (forall (s : bool) (m : positive) (e : Z),
                Prim2SF (Math_round (-0x1.4ffffffffffffp+5)%float) = S754_finite s m e ->
                roundsTo (roundingInterval m e) (inject_Z (digitsValue ds)) = true)
         /\ ((42 < 2 ^ 53)%Z -> ds = js "42" /\ ds <> [] /\ digitsValue ds = 42%Z))
  /\ (nearInteger 1.5e21%float = true
      /\ exists (a : char) (f : jsstring) (x : Z),
           formatNumber 1.5e21%float
           = a :: (if isEmpty f then [] else code "." :: f) ++ js "e+" ++ digitsOf x
           /\ isDigit a = true /\ isZero a = false
           /\ forallb isDigit f = true /\ (21 <= x)%Z)
  /\ formatNumber 2.5%float = stripTrailingZeros (toFixed 12 2.5%float)
  /\ (exists a b : jsstring,
         toFixed 12 (-2.5)%float = js "-" ++ a ++ js "." ++ b
         /\ a <> [] /\ forallb isDigit a = true
         /\ List.length b = 12%nat /\ forallb isDigit b = true).
Proof.
  destruct formatNumber_cases as [_ [H1 [H2 [H3 [H4 [H5 [H6 _]]]]]]].
  split; [apply H1; reflexivity|].
  split; [apply H2; reflexivity|].
  split; [exact (H3 (-0x1.4ffffffffffffp+5)%float eq_refl eq_refl eq_refl)|].
  split; [exact (H4 1.5e21%float eq_refl eq_refl)|].
  split; [apply H5; reflexivity|].
  exact (H6 (-2.5)%float eq_refl eq_refl).
Defined.

(** Against C8 as stated: 1.5e21 is finite and is an integer, the number
    of the text "1500000000000000000000", and [formatNumber] renders it
    with a fractional part, in exponent notation. *)
Lemma formatNumber_exponent_notation :
  Number (js "1500000000000000000000") = 1.5e21%float
  /\ isFinite 1.5e21%float = true
  /\ nearInteger 1.5e21%float = true
  /\ Math_round 1.5e21%float = 1.5e21%float
  /\ formatNumber 1.5e21%float = js "1.5e+21"
  /\ In (code ".") (formatNumber 1.5e21%float).
Proof. vm_compute. repeat split; auto 10. Qed.

(** * Further properties of the code *)

(** ** The tokenizer's characters and tokens *)

Lemma isKnown_false (c : char) :
  isKnown c = false ->
  isWhite c = false /\ isDigit c || (c =? code ".") = false
  /\ (c =? code "(") = false /\ (c =? code ")") = false /\ (c =? code "%") = false
  /\ isOperator c = false /\ isAlpha c = false.
Proof.
  unfold isKnown. rewrite !orb_false_iff. tauto.
Qed.

Lemma tokenize_from_unknown (c : char) (s : jsstring) (tokens : list token) :
  isKnown c = false -> tokenize_from (c :: s) tokens = Throw (InvalidCharacter c).
Proof.
  intros H. apply isKnown_false in H as [H1 [H2 [H3 [H4 [H5 [H6 H7]]]]]].
  simpl. rewrite H1, H2, H3, H4, H5, H6, H7. reflexivity.
Qed.

Lemma forallb_skip (p q : char -> bool) (s : jsstring) :
  forallb q s = true -> forallb q (skip p s) = true.
Proof.
  induction s as [|c s IH]; simpl; [reflexivity|].
  intros H. apply andb_true_iff in H as [Hc Hs].
  destruct (p c); [apply IH, Hs|]. simpl. rewrite Hc, Hs. reflexivity.
Qed.

Lemma tokenize_from_known (n : nat) :
  forall (s : jsstring) (tokens : list token),
    (List.length s <= n)%nat -> forallb isKnown s = true ->
    exists new : list token, tokenize_from s tokens = Ok (tokens ++ new).
Proof.
  induction n as [|n IH]; intros s tokens Hlen Hall.
  - destruct s; [|simpl in Hlen; lia]. exists []. rewrite app_nil_r. reflexivity.
  - destruct s as [|c s]; [exists []; rewrite app_nil_r; reflexivity|].
    simpl in Hlen, Hall. apply andb_true_iff in Hall as [Hc Hs].
    assert (Hnext : forall (s' : jsstring) (pushed : list token),
               (List.length s' <= List.length s)%nat -> forallb isKnown s' = true ->
               exists new, tokenize_from s' (tokens ++ pushed) = Ok (tokens ++ new)).
    { intros s' pushed Hl Hk.
      destruct (IH s' (tokens ++ pushed)) as [new Hn]; [lia|exact Hk|].
      exists (pushed ++ new). rewrite Hn, app_assoc. reflexivity. }
    simpl.
    destruct (isWhite c) eqn:E1; [apply IH; [lia|exact Hs]|].
    destruct (isDigit c || (c =? code ".")) eqn:E2.
    { apply Hnext; [apply skip_length|apply forallb_skip, Hs]. }
    destruct (c =? code "(") eqn:E3; [apply Hnext; [lia|exact Hs]|].
    destruct (c =? code ")") eqn:E4; [apply Hnext; [lia|exact Hs]|].
    destruct (c =? code "%") eqn:E5; [apply Hnext; [lia|exact Hs]|].
    destruct (isOperator c) eqn:E6; [apply Hnext; [lia|exact Hs]|].
    destruct (isAlpha c) eqn:E7.
    { apply Hnext; [apply skip_length|apply forallb_skip, Hs]. }
    unfold isKnown in Hc. rewrite E1 in Hc. simpl in Hc.
    rewrite orb_false_iff in E2. destruct E2 as [E2 E2'].
    rewrite E2, E2', E3, E4, E5, E6, E7 in Hc. discriminate Hc.
Qed.

Lemma isKnown_run (c : char) : isKnown c = false -> isNumChar c = false /\ isAlnum c = false.
Proof.
  intros H. apply isKnown_false in H as [_ [H2 [_ [_ [_ [_ H7]]]]]].
  unfold isNumChar, isAlnum. rewrite H2, H7. simpl.
  apply orb_false_iff in H2 as [H2 _]. rewrite H2. split; reflexivity.
Qed.

Lemma first_unknown (s : jsstring) :
  forallb isKnown s = false ->
  exists (s1 : jsstring) (c : char) (s2 : jsstring),
    s = s1 ++ c :: s2 /\ forallb isKnown s1 = true /\ isKnown c = false.
Proof.
  induction s as [|a s IH]; simpl; [discriminate|].
  destruct (isKnown a) eqn:Ea; simpl.
  - intros H. destruct (IH H) as [s1 [c [s2 [E [H1 Hc]]]]].
    exists (a :: s1), c, s2. subst s. simpl. rewrite Ea, H1. auto.
  - intros _. exists [], a, s. auto.
Qed.

Lemma tokenize_unknown (s1 : jsstring) (c : char) (s2 : jsstring) :
  forallb isKnown s1 = true -> isKnown c = false ->
  tokenize (s1 ++ c :: s2) = Throw (InvalidCharacter c).
Proof.
  intros H1 Hc. unfold tokenize.
  destruct (isKnown_run c Hc) as [Hn Ha].
  rewrite (tokenize_from_split c s2 Hn Ha (List.length s1) s1 []) by lia.
  destruct (tokenize_from_known (List.length s1) s1 [] (le_n _) H1) as [new ->].
  simpl bind. apply tokenize_from_unknown, Hc.
Qed.

(** X1. The tokenizer fails on the first character it has no branch for
    (one that is not white space, a digit, a dot, a parenthesis, [%], an
    operator or an ASCII letter), with 'Invalid character: ' and that
    character; on a string of characters it has branches for it returns
    tokens, and it throws nothing else.  [evaluateExpression] fails with
    that error on such a string, whatever else is wrong with it. *)
Theorem tokenize_invalid_character :
  (forall s : jsstring,
      forallb isKnown s = true -> exists tokens, tokenize s = Ok tokens)
  /\ (forall (s1 : jsstring) (c : char) (s2 : jsstring),
         forallb isKnown s1 = true -> isKnown c = false ->
         tokenize (s1 ++ c :: s2) = Throw (InvalidCharacter c))
  /\ (forall (s : jsstring) (e : error),
         tokenize s = Throw e ->
         exists (s1 : jsstring) (c : char) (s2 : jsstring),
           s = s1 ++ c :: s2 /\ forallb isKnown s1 = true /\ isKnown c = false
           /\ e = InvalidCharacter c)
  /\ (forall (Math_pow : float -> float -> float)
             (s1 : jsstring) (c : char) (s2 : jsstring),
         forallb isKnown s1 = true -> isKnown c = false ->
         evaluateExpression Math_pow (s1 ++ c :: s2) = Throw (InvalidCharacter c)).
Proof.
  split; [|split; [exact tokenize_unknown|split]]; cycle 2.
  { intros Math_pow s1 c s2 H1 Hc. unfold evaluateExpression.
    destruct (isKnown_false c Hc) as [Hw _].
    rewrite (trim_nonblank (s1 ++ c :: s2) c (in_elt c s1 s2) Hw).
    rewrite (tokenize_unknown s1 c s2 H1 Hc). reflexivity. }
  - intros s H. destruct (tokenize_from_known (List.length s) s [] (le_n _) H) as [new Hn].
    exists new. exact Hn.
  - intros s e He. destruct (forallb isKnown s) eqn:Hall.
    + destruct (tokenize_from_known (List.length s) s [] (le_n _) Hall) as [new Hn].
      unfold tokenize in He. rewrite Hn in He. discriminate He.
    + destruct (first_unknown s Hall) as [s1 [c [s2 [E [H1 Hc]]]]].
      exists s1, c, s2. repeat split; try assumption.
      subst s. rewrite (tokenize_unknown s1 c s2 H1 Hc) in He. injection He as <-. reflexivity.
Qed.

Lemma tokenize_invalid_character_witness :
  tokenize (js "2+3" ++ code "$" :: js "4") = Throw (InvalidCharacter (code "$"))
  /\ (exists tokens, tokenize (js "2+3") = Ok tokens)
  /\ evaluateExpression samplePow (js "(2+" ++ code "$" :: js "4")
     = Throw (InvalidCharacter (code "$")).
Proof.
  destruct tokenize_invalid_character as [H1 [H2 [_ H4]]].
  split; [apply H2|split; [apply H1|apply H4]]; reflexivity.
Defined.

Lemma operatorTokens_tokenized (c : char) (tokens : list token) :
  isOperator c = true -> forallb tokenized (operatorTokens c tokens) = true.
Proof.
  intros H. unfold operatorTokens.
  destruct (_ && _); simpl; rewrite H; reflexivity.
Qed.

Lemma isLiteral_run (c : char) (s : jsstring) :
  isDigit c || (c =? code ".") = true -> isLiteral (c :: run isNumChar s) = true.
Proof.
  intros H. unfold isLiteral. simpl. unfold isNumChar at 1. rewrite H. simpl.
  apply run_forallb.
Qed.

Lemma tokenize_from_tokenized (n : nat) :
  forall (s : jsstring) (acc tokens : list token),
    (List.length s <= n)%nat ->
    tokenize_from s acc = Ok tokens ->
    forallb tokenized acc = true -> forallb tokenized tokens = true.
Proof.
  induction n as [|n IH]; intros s acc tokens Hlen Ht Hacc.
  - destruct s; [|simpl in Hlen; lia]. injection Ht as <-. exact Hacc.
  - destruct s as [|c s]; [injection Ht as <-; exact Hacc|].
    simpl in Hlen, Ht.
    assert (Hnext : forall (s' : jsstring) (pushed : list token),
               (List.length s' <= List.length s)%nat ->
               forallb tokenized pushed = true ->
               tokenize_from s' (acc ++ pushed) = Ok tokens ->
               forallb tokenized tokens = true).
    { intros s' pushed Hl Hp Hs'. apply (IH s' (acc ++ pushed)); [lia|exact Hs'|].
      rewrite forallb_app, Hacc, Hp. reflexivity. }
    destruct (isWhite c); [apply (IH s acc); [lia|exact Ht|exact Hacc]|].
    destruct (isDigit c || (c =? code ".")) eqn:E2.
    { apply (Hnext _ _ (skip_length _ _)) in Ht; [exact Ht|].
      simpl. rewrite (isLiteral_run c s E2). reflexivity. }
    destruct (c =? code "("); [apply (Hnext s [lparen]); auto|].
    destruct (c =? code ")"); [apply (Hnext s [rparen]); auto|].
    destruct (c =? code "%"); [apply (Hnext s [percent]); auto|].
    destruct (isOperator c) eqn:E6.
    { apply (Hnext s (operatorTokens c acc)); auto.
      apply operatorTokens_tokenized, E6. }
    destruct (isAlpha c) eqn:E7; [|discriminate Ht].
    apply (Hnext _ _ (skip_length _ _)) in Ht; [exact Ht|].
    simpl. rewrite E7, run_forallb. reflexivity.
Qed.

Lemma tokenized_evaluable (t : token) : tokenized t = true -> evaluable t = true.
Proof. destruct t as [x|v|f| | |]; simpl; try reflexivity. intros ->. reflexivity. Qed.

Lemma forallb_impl {A : Type} (p q : A -> bool) (l : list A) :
  (forall a, p a = true -> q a = true) -> forallb p l = true -> forallb q l = true.
Proof.
  intros H. rewrite !forallb_forall. auto.
Qed.

(** ** Operators the evaluator knows *)

Lemma popOperators_evaluable (v : char) (ops out : list token) :
  forallb evaluable out = true -> forallb evaluable ops = true ->
  forallb evaluable (fst (popOperators v out ops)) = true
  /\ forallb evaluable (snd (popOperators v out ops)) = true.
Proof.
  revert out. induction ops as [|t ops IH]; intros out Hout Hops; [auto|].
  simpl in Hops. apply andb_true_iff in Hops as [Ht Hops].
  destruct t as [x|w|f| | |]; simpl; try (rewrite Hout, ?Ht, Hops; auto).
  destruct (yields v w).
  - apply IH; [|exact Hops]. rewrite forallb_app, Hout. simpl in *. rewrite Ht. reflexivity.
  - simpl in *. rewrite Hout, Ht, Hops. auto.
Qed.

Lemma popToParen_evaluable (ops out : list token) :
  forallb evaluable out = true -> forallb evaluable ops = true ->
  forallb evaluable (fst (popToParen out ops)) = true
  /\ forallb evaluable (snd (popToParen out ops)) = true.
Proof.
  revert out. induction ops as [|t ops IH]; intros out Hout Hops; [auto|].
  pose proof Hops as Hops'. simpl in Hops'. apply andb_true_iff in Hops' as [Ht Hops'].
  assert (Hnext : forallb evaluable (out ++ [t]) = true).
  { rewrite forallb_app, Hout. simpl. rewrite Ht. reflexivity. }
  destruct t as [x|w|f| | |]; try (simpl; apply IH; assumption).
  simpl popToParen. auto.
Qed.

Lemma drain_evaluable (ops out rpn : list token) :
  forallb evaluable out = true -> forallb evaluable ops = true ->
  drain out ops = Ok rpn -> forallb evaluable rpn = true.
Proof.
  revert out. induction ops as [|t ops IH]; intros out Hout Hops H.
  - injection H as <-. exact Hout.
  - simpl in Hops. apply andb_true_iff in Hops as [Ht Hops].
    assert (Hnext : forallb evaluable (out ++ [t]) = true).
    { rewrite forallb_app, Hout. simpl. rewrite Ht. reflexivity. }
    destruct t as [x|w|f| | |]; simpl in H; try discriminate H;
      apply (IH _ Hnext Hops H).
Qed.

Lemma toRPN_from_evaluable (tokens : list token) :
  forall out ops rpn : list token,
    forallb evaluable tokens = true ->
    forallb evaluable out = true -> forallb evaluable ops = true ->
    toRPN_from tokens out ops = Ok rpn -> forallb evaluable rpn = true.
Proof.
  induction tokens as [|t rest IH]; intros out ops rpn Ht Hout Hops H.
  - apply (drain_evaluable ops out rpn Hout Hops H).
  - simpl in Ht. apply andb_true_iff in Ht as [Ht Hrest].
    destruct t as [x|v|f| | |]; simpl in H.
    + apply (IH _ _ _ Hrest) in H; [exact H| |exact Hops].
      rewrite forallb_app, Hout. reflexivity.
    + destruct (popOperators_evaluable v ops out Hout Hops) as [H1 H2].
      destruct (popOperators v out ops) as [out' ops']. simpl in H1, H2.
      apply (IH _ _ _ Hrest H1) in H; [exact H|].
      simpl. simpl in Ht. rewrite Ht, H2. reflexivity.
    + apply (IH _ _ _ Hrest Hout) in H; [exact H|]. simpl. exact Hops.
    + apply (IH _ _ _ Hrest) in H; [exact H| |exact Hops].
      rewrite forallb_app, Hout. reflexivity.
    + apply (IH _ _ _ Hrest Hout) in H; [exact H|]. simpl. exact Hops.
    + destruct (popToParen_evaluable ops out Hout Hops) as [H1 H2].
      destruct (popToParen out ops) as [out' ops']. simpl in H1, H2.
      destruct ops' as [|t1 ops']; [discriminate H|].
      simpl in H2. apply andb_true_iff in H2 as [_ H2].
      destruct ops' as [|t2 ops'']; [apply (IH _ _ _ Hrest H1 H2 H)|].
      simpl in H2. apply andb_true_iff in H2 as [Ht2 H2'].
      destruct t2 as [x|v|g| | |];
        try (apply (IH _ _ _ Hrest H1) in H; [exact H|simpl in *; rewrite ?Ht2; exact H2']).
      apply (IH _ _ _ Hrest) in H; [exact H| |exact H2'].
      rewrite forallb_app, H1. reflexivity.
Qed.

Section KnownOperators.

Variable Math_pow : float -> float -> float.

Lemma binaryOperator_unknown (v w : char) (st : list float) :
  binaryOperator Math_pow v st = Throw (UnknownOp w) ->
  w = v /\ isOperator v = false.
Proof.
  unfold binaryOperator. destruct st as [|b [|a st]]; try discriminate.
  unfold isOperator, existsb.
  destruct (v =? code "+"); [discriminate|].
  destruct (v =? code "-"); [discriminate|].
  destruct (v =? code "*"); [discriminate|].
  destruct (v =? code "/"); [destruct (b =? 0)%float; discriminate|].
  destruct (v =? code "^"); [discriminate|].
  intros H. injection H as <-. auto.
Qed.

Lemma evalToken_unknown (t : token) (w : char) (st : list float) :
  evalToken Math_pow t st = Throw (UnknownOp w) ->
  t = op w /\ isOperator w = false /\ (w =? code "%") = false.
Proof.
  destruct t as [x|v|f| | |]; simpl; try discriminate.
  - destruct (v =? code "%") eqn:E; [destruct st; discriminate|].
    intros H. apply binaryOperator_unknown in H as [-> H]. auto.
  - destruct st as [|a st]; [discriminate|].
    unfold callFunc. destruct (jsstring_eqb f (js "sqrt")); discriminate.
Qed.

Lemma evalRPN_from_unknown (rpn : list token) (w : char) :
  forall st : list float,
    evalRPN_from Math_pow rpn st = Throw (UnknownOp w) ->
    In (op w) rpn /\ isOperator w = false /\ (w =? code "%") = false.
Proof.
  induction rpn as [|t rest IH]; intros st H; [discriminate H|].
  simpl in H. destruct (evalToken Math_pow t st) as [st'|e] eqn:E.
  - simpl in H. destruct (IH st' H) as [Hin Hw]. split; [right; exact Hin|exact Hw].
  - simpl in H. injection H as ->. apply evalToken_unknown in E as [-> Hw].
    split; [left; reflexivity|exact Hw].
Qed.

Lemma evalRPN_unknown (rpn : list token) (w : char) :
  evalRPN Math_pow rpn = Throw (UnknownOp w) ->
  In (op w) rpn /\ isOperator w = false /\ (w =? code "%") = false.
Proof.
  unfold evalRPN. destruct (evalRPN_from Math_pow rpn []) as [st|e] eqn:E.
  - simpl. destruct st as [|v [|]]; discriminate.
  - simpl. intros H. injection H as ->. apply (evalRPN_from_unknown rpn w [] E).
Qed.

End KnownOperators.

(** X2. Every token of a tokenized string is well formed: a [num] holds
    one or more digits and dots, an [op] one of [+ - * / ^] (never [%]),
    a [func] a letter followed by letters and digits. *)
Theorem tokenize_tokens (s : jsstring) (tokens : list token) :
  tokenize s = Ok tokens -> forallb tokenized tokens = true.
Proof.
  intros H. apply (tokenize_from_tokenized (List.length s) s [] tokens (le_n _) H).
  reflexivity.
Qed.

Lemma tokenize_tokens_witness :
  forallb tokenized
    [func (js "sqrt"); lparen; num (js "0"); op (code "-"); num (js "1.5");
     rparen; percent] = true.
Proof.
  apply (tokenize_tokens (js "sqrt(-1.5)%")). reflexivity.
Defined.

(** X6. The [default] case of the evaluator's [switch] is dead code on
    strings: [evalRPN] throws 'Unknown op' only on an [op] token that is
    neither one of [+ - * / ^] nor [%], the converter puts out no such
    token unless it is given one, and [evaluateExpression] never throws
    'Unknown op'. *)
Theorem evaluateExpression_known_operators (Math_pow : float -> float -> float) :
  (forall (rpn : list token) (w : char),
      evalRPN Math_pow rpn = Throw (UnknownOp w) ->
      In (op w) rpn /\ isOperator w = false /\ w <> code "%")
  /\ (forall (tokens rpn : list token),
         forallb evaluable tokens = true -> toRPN tokens = Ok rpn ->
         forallb evaluable rpn = true)
  /\ (forall (s : jsstring) (w : char),
         evaluateExpression Math_pow s <> Throw (UnknownOp w)).
Proof.
  split; [|split].
  - intros rpn w H. apply evalRPN_unknown in H as [H1 [H2 H3]].
    apply N.eqb_neq in H3. auto.
  - intros tokens rpn Ht H. apply (toRPN_from_evaluable tokens [] [] rpn Ht); auto.
  - intros s w H. unfold evaluateExpression in H.
    destruct (isEmpty s || isEmpty (trim s)); [discriminate H|].
    destruct (tokenize s) as [tokens|e] eqn:Et.
    + simpl in H. destruct (toRPN tokens) as [rpn|e] eqn:Er.
      * simpl in H. apply evalRPN_unknown in H as [Hin [Hw Hp]].
        assert (Hev : forallb evaluable rpn = true).
        { apply (toRPN_from_evaluable tokens [] [] rpn); auto.
          apply (forallb_impl tokenized evaluable _ tokenized_evaluable).
          apply (tokenize_from_tokenized (List.length s) s [] tokens (le_n _) Et).
          reflexivity. }
        rewrite forallb_forall in Hev. specialize (Hev _ Hin). simpl in Hev.
        rewrite Hw, Hp in Hev. discriminate Hev.
      * simpl in H. injection H as ->.
        pose proof (toRPN_parens tokens) as Hp. rewrite Er in Hp.
        destruct (balanced tokens); [destruct Hp as [rpn Hp]|]; discriminate Hp.
    + simpl in H. injection H as ->.
      destruct (forallb isWhite s) eqn:Hw.
      * unfold tokenize in Et. rewrite (tokenize_from_white s [] Hw) in Et. discriminate.
      * destruct (first_unknown s) as [s1 [c [s2 [E [H1 Hc]]]]].
        { destruct (forallb isKnown s) eqn:Hk; [|reflexivity].
          destruct (tokenize_from_known (List.length s) s [] (le_n _) Hk) as [new Hn].
          unfold tokenize in Et. rewrite Hn in Et. discriminate Et. }
        subst s. rewrite (tokenize_unknown s1 c s2 H1 Hc) in Et. discriminate Et.
Qed.

Lemma evaluateExpression_known_operators_witness :
  let rpn := [num (js "1"); num (js "2"); op (code "&")] in
  evalRPN samplePow rpn = Throw (UnknownOp (code "&"))
  /\ In (op (code "&")) rpn /\ isOperator (code "&") = false
  /\ code "&" <> code "%".
Proof.
  intros rpn. split; [reflexivity|].
  destruct (evaluateExpression_known_operators samplePow) as [H _].
  apply (H rpn). reflexivity.
Defined.

(** ** What the converter keeps *)

Lemma popOperators_emitted (v : char) (ops out : list token) :
  forallb held ops = true ->
  fst (popOperators v out ops) ++ flat_map emitted (snd (popOperators v out ops))
  = out ++ flat_map emitted ops
  /\ forallb held (snd (popOperators v out ops)) = true
  /\ filter direct (fst (popOperators v out ops)) = filter direct out.
Proof.
  revert out. induction ops as [|t ops IH]; intros out Hops; [auto|].
  pose proof Hops as Hops'. simpl in Hops'. apply andb_true_iff in Hops' as [Ht Hops'].
  destruct t as [x|w|f| | |]; try discriminate Ht; simpl popOperators; auto.
  destruct (yields v w); [|auto].
  destruct (IH (out ++ [op w]) Hops') as [H1 [H2 H3]].
  rewrite H1, H3, filter_app, <- app_assoc. simpl. rewrite app_nil_r. auto.
Qed.

Lemma popToParen_emitted (ops out : list token) :
  forallb held ops = true ->
  fst (popToParen out ops) ++ flat_map emitted (snd (popToParen out ops))
  = out ++ flat_map emitted ops
  /\ forallb held (snd (popToParen out ops)) = true
  /\ filter direct (fst (popToParen out ops)) = filter direct out
  /\ hd lparen (snd (popToParen out ops)) = lparen.
Proof.
  revert out. induction ops as [|t ops IH]; intros out Hops; [auto|].
  pose proof Hops as Hops'. simpl in Hops'. apply andb_true_iff in Hops' as [Ht Hops'].
  destruct t as [x|w|f| | |]; try discriminate Ht; simpl popToParen; auto;
    match goal with
    | |- context [popToParen (out ++ [?t]) ops] =>
      destruct (IH (out ++ [t]) Hops') as [H1 [H2 [H3 H4]]]
    end;
    rewrite H1, H3, filter_app, <- app_assoc; simpl; rewrite app_nil_r; auto.
Qed.

Lemma drain_emitted (ops out rpn : list token) :
  forallb held ops = true -> drain out ops = Ok rpn ->
  rpn = out ++ flat_map emitted ops /\ filter direct rpn = filter direct out.
Proof.
  revert out. induction ops as [|t ops IH]; intros out Hops H.
  - injection H as <-. simpl. rewrite app_nil_r. auto.
  - simpl in Hops. apply andb_true_iff in Hops as [Ht Hops].
    destruct t as [x|w|f| | |]; try discriminate Ht; simpl in H; try discriminate H;
      destruct (IH _ Hops H) as [H1 H2];
      rewrite H2, H1, filter_app, <- app_assoc; simpl; rewrite app_nil_r; auto.
Qed.

Lemma toRPN_from_emitted (tokens : list token) :
  forall out ops rpn : list token,
    forallb held ops = true ->
    toRPN_from tokens out ops = Ok rpn ->
    Permutation rpn (out ++ flat_map emitted ops ++ flat_map emitted tokens)
    /\ filter direct rpn = filter direct out ++ filter direct tokens.
Proof.
  induction tokens as [|t rest IH]; intros out ops rpn Hops H.
  - destruct (drain_emitted ops out rpn Hops H) as [-> H2].
    simpl. rewrite !app_nil_r. split; [apply Permutation_refl|exact H2].
  - assert (Hout : forall new : list token,
               Permutation ((out ++ new) ++ flat_map emitted ops ++ flat_map emitted rest)
                           (out ++ flat_map emitted ops ++ new ++ flat_map emitted rest)).
    { intros new. rewrite <- app_assoc. apply Permutation_app_head.
      apply Permutation_app_swap_app. }
    destruct t as [x|v|f| | |]; simpl in H.
    + destruct (IH _ _ _ Hops H) as [H1 H2]. split.
      * apply (perm_trans H1), (Hout [num x]).
      * rewrite H2, filter_app, <- app_assoc. reflexivity.
    + destruct (popOperators_emitted v ops out Hops) as [E [Hh Hf]].
      destruct (popOperators v out ops) as [out' ops']. simpl in E, Hh, Hf.
      destruct (IH out' (op v :: ops') rpn Hh H) as [H1 H2]. split.
      * apply (perm_trans H1). simpl.
        apply perm_trans with (op v :: out' ++ flat_map emitted ops' ++ flat_map emitted rest).
        { apply Permutation_sym, Permutation_middle. }
        rewrite app_assoc, E, <- app_assoc.
        rewrite (app_assoc out (flat_map emitted ops)).
        rewrite (app_assoc out (flat_map emitted ops) (op v :: _)).
        apply Permutation_middle.
      * rewrite H2, Hf. reflexivity.
    + destruct (IH out (func f :: ops) rpn Hops H) as [H1 H2]. split; [|exact H2].
      apply (perm_trans H1). simpl. apply Permutation_app_head.
      apply Permutation_middle.
    + destruct (IH _ _ _ Hops H) as [H1 H2]. split.
      * apply (perm_trans H1), (Hout [percent; op (code "%")]).
      * rewrite H2, filter_app, <- app_assoc. reflexivity.
    + destruct (IH out (lparen :: ops) rpn Hops H) as [H1 H2]. split; assumption.
    + destruct (popToParen_emitted ops out Hops) as [E [Hh [Hf Hp]]].
      destruct (popToParen out ops) as [out' ops']. simpl in E, Hh, Hf, Hp.
      simpl. rewrite <- Hf, (app_assoc out), <- E.
      destruct ops' as [|t1 ops']; [discriminate H|].
      simpl in Hp. subst t1.
      simpl in Hh. simpl flat_map.
      destruct ops' as [|t2 ops'']; [rewrite <- app_assoc; apply (IH _ _ _ Hh H)|].
      pose proof Hh as Hh'. simpl in Hh'. apply andb_true_iff in Hh' as [_ Hh'].
      destruct t2 as [x|v|g| | |];
        try (rewrite <- app_assoc; apply (IH _ _ _ Hh H)).
      destruct (IH _ _ _ Hh' H) as [H1 H2]. split.
      * simpl. rewrite <- !app_assoc in *. exact H1.
      * rewrite H2, filter_app, app_nil_r. reflexivity.
Qed.

(** *** Percent marks in the output *)

Lemma paired_app (a b : list token) :
  paired a = true -> paired b = true -> paired (a ++ b) = true.
Proof.
  intros Ha Hb. induction a as [|t a IH]; [exact Hb|].
  destruct t; simpl in *; try (apply IH, Ha).
  destruct a as [|u a]; [discriminate Ha|].
  destruct u; try discriminate Ha. cbn [app].
  apply andb_true_iff in Ha as [Hv Ha]. rewrite Hv. apply IH, Ha.
Qed.

Lemma paired_held (out : list token) (t : token) :
  paired out = true -> held t = true -> paired (out ++ [t]) = true.
Proof.
  intros Ho Ht. apply paired_app; [exact Ho|]. destruct t; try discriminate Ht; reflexivity.
Qed.

Lemma popOperators_paired (v : char) (ops out : list token) :
  paired out = true -> paired (fst (popOperators v out ops)) = true.
Proof.
  revert out. induction ops as [|t ops IH]; intros out Ho; [exact Ho|].
  destruct t as [x|w|f| | |]; simpl; try exact Ho.
  destruct (yields v w); [|exact Ho].
  apply IH, paired_held; [exact Ho|reflexivity].
Qed.

Lemma popToParen_paired (ops out : list token) :
  forallb held ops = true -> paired out = true ->
  paired (fst (popToParen out ops)) = true.
Proof.
  revert out. induction ops as [|t ops IH]; intros out Hops Ho; [exact Ho|].
  simpl in Hops. apply andb_true_iff in Hops as [Ht Hops].
  destruct t as [x|w|f| | |]; try discriminate Ht; simpl; try exact Ho;
    apply (IH _ Hops), paired_held; auto.
Qed.

Lemma drain_paired (ops out rpn : list token) :
  forallb held ops = true -> paired out = true ->
  drain out ops = Ok rpn -> paired rpn = true.
Proof.
  revert out. induction ops as [|t ops IH]; intros out Hops Ho H.
  - injection H as <-. exact Ho.
  - simpl in Hops. apply andb_true_iff in Hops as [Ht Hops].
    destruct t as [x|w|f| | |]; try discriminate Ht; simpl in H; try discriminate H;
      apply (IH _ Hops) in H; auto; apply paired_held; auto.
Qed.

Lemma toRPN_from_paired (tokens : list token) :
  forall out ops rpn : list token,
    forallb held ops = true -> paired out = true ->
    toRPN_from tokens out ops = Ok rpn -> paired rpn = true.
Proof.
  induction tokens as [|t rest IH]; intros out ops rpn Hops Ho H.
  - exact (drain_paired ops out rpn Hops Ho H).
  - destruct t as [x|v|f| | |]; simpl in H.
    + apply (IH _ _ _ Hops) in H; [exact H|]. apply paired_app; [exact Ho|reflexivity].
    + pose proof (popOperators_paired v ops out Ho) as Hp.
      destruct (popOperators_emitted v ops out Hops) as [_ [Hh _]].
      destruct (popOperators v out ops) as [out' ops']. simpl in Hp, Hh.
      apply (IH out' (op v :: ops') rpn); assumption.
    + apply (IH out (func f :: ops) rpn); assumption.
    + apply (IH _ _ _ Hops) in H; [exact H|]. apply paired_app; [exact Ho|reflexivity].
    + apply (IH out (lparen :: ops) rpn); assumption.
    + pose proof (popToParen_paired ops out Hops Ho) as Hp.
      destruct (popToParen_emitted ops out Hops) as [_ [Hh _]].
      destruct (popToParen out ops) as [out' ops']. simpl in Hp, Hh.
      destruct ops' as [|t1 ops']; [discriminate H|].
      simpl in Hh. apply andb_true_iff in Hh as [_ Hh].
      destruct ops' as [|t2 ops'']; [apply (IH _ _ _ Hh Hp H)|].
      pose proof Hh as Hh'. simpl in Hh'. apply andb_true_iff in Hh' as [_ Hh'].
      destruct t2 as [x|v|g| | |]; try (apply (IH _ _ _ Hh Hp H)).
      apply (IH _ _ _ Hh') in H; [exact H|]. apply paired_held; [exact Hp|reflexivity].
Qed.

(** X5. The converter loses and invents nothing: its output is a
    rearrangement of the tokens without the parentheses, with the
    synthetic [op %] of each [percent]; the numbers and the percent
    marks come out in the order they went in, and each [percent] of the
    output has an [op %] right after it. *)
Theorem toRPN_keeps_tokens (tokens rpn : list token) :
  toRPN tokens = Ok rpn ->
  Permutation rpn (flat_map emitted tokens)
  /\ filter direct rpn = filter direct tokens
  /\ paired rpn = true.
Proof.
  intros H. destruct (toRPN_from_emitted tokens [] [] rpn eq_refl H) as [H1 H2].
  split; [exact H1|]. split; [exact H2|].
  exact (toRPN_from_paired tokens [] [] rpn eq_refl eq_refl H).
Qed.

Lemma toRPN_keeps_tokens_witness :
  let tokens := [num (js "1"); op (code "+"); func (js "sqrt"); lparen; num (js "2");
                 op (code "*"); num (js "3"); percent; rparen] in
  let rpn := [num (js "1"); num (js "2"); num (js "3"); percent; op (code "%");
              op (code "*"); func (js "sqrt"); op (code "+")] in
  Permutation rpn (flat_map emitted tokens)
  /\ filter direct rpn = filter direct tokens
  /\ paired rpn = true.
Proof.
  intros tokens rpn. apply (toRPN_keeps_tokens tokens rpn). reflexivity.
Defined.

(** ** White space *)

Lemma blank_forallb (s : jsstring) :
  isEmpty s || isEmpty (trim s) = forallb isWhite s.
Proof.
  destruct (forallb isWhite s) eqn:E.
  - apply white_blank, E.
  - destruct (isEmpty s || isEmpty (trim s)) eqn:B; [|reflexivity].
    apply blank_white in B. congruence.
Qed.

Lemma evaluateExpression_tokens (Math_pow : float -> float -> float) (s s' : jsstring) :
  forallb isWhite s = forallb isWhite s' -> tokenize s = tokenize s' ->
  evaluateExpression Math_pow s = evaluateExpression Math_pow s'.
Proof.
  intros Hw Ht. unfold evaluateExpression. rewrite !blank_forallb, Hw, Ht. reflexivity.
Qed.

Lemma tokenize_from_single (c : char) (s : jsstring) (tokens : list token) :
  isRunChar c = false ->
  tokenize_from (c :: s) tokens = (t <- tokenize_from [c] tokens ;; tokenize_from s t).
Proof.
  unfold isRunChar, isNumChar, isAlnum. rewrite !orb_false_iff.
  intros [[Hd Hdot] [Ha _]]. simpl. rewrite Hd, Hdot, Ha. simpl.
  destruct (isWhite c); [reflexivity|].
  destruct (c =? code "("); [reflexivity|].
  destruct (c =? code ")"); [reflexivity|].
  destruct (c =? code "%"); [reflexivity|].
  destruct (isOperator c); reflexivity.
Qed.

Lemma bind_assoc {A B C : Type} (r : result A) (f : A -> result B) (g : B -> result C) :
  (y <- (x <- r ;; f x) ;; g y) = (x <- r ;; y <- f x ;; g y).
Proof. destruct r; reflexivity. Qed.

Lemma isRunChar_false (c : char) :
  isRunChar c = false -> isNumChar c = false /\ isAlnum c = false.
Proof. unfold isRunChar. apply orb_false_iff. Qed.

(** The tokenizer works through a string piece by piece, wherever the
    pieces do not share a number or a name. *)
Lemma tokenize_from_app (s1 s2 : jsstring) (tokens : list token) :
  stops isRunChar s2 = true \/ stops isRunChar (rev s1) = true ->
  tokenize_from (s1 ++ s2) tokens
  = (t <- tokenize_from s1 tokens ;; tokenize_from s2 t).
Proof.
  intros [H|H].
  - destruct s2 as [|c s2].
    + rewrite app_nil_r. destruct (tokenize_from s1 tokens); reflexivity.
    + simpl in H. apply negb_true_iff, isRunChar_false in H as [Hn Ha].
      apply (tokenize_from_split c s2 Hn Ha (List.length s1)). lia.
  - destruct (rev s1) as [|c r] eqn:E.
    + apply (f_equal (@rev char)) in E. rewrite rev_involutive in E. subst s1.
      reflexivity.
    + apply (f_equal (@rev char)) in E. rewrite rev_involutive in E. simpl in E.
      subst s1. simpl in H. apply negb_true_iff in H.
      destruct (isRunChar_false c H) as [Hn Ha].
      rewrite <- app_assoc. simpl.
      rewrite !(tokenize_from_split c _ Hn Ha (List.length (rev r))) by lia.
      rewrite bind_assoc. destruct (tokenize_from (rev r) tokens) as [t|e]; [|reflexivity].
      simpl bind. apply tokenize_from_single, H.
Qed.

Lemma isWhite_run (w : char) : isWhite w = true -> isRunChar w = false.
Proof. intros H. unfold isRunChar. classes. Qed.

(** X3. White space counts only where it splits a number or a name: a
    white-space character between two pieces of a string that do not
    both border it with a digit, a dot or a letter changes neither the
    tokens nor the value, and white space at either end of a string
    changes nothing. *)
Theorem white_space_between_tokens (Math_pow : float -> float -> float) :
  (forall (s1 s2 : jsstring) (w : char),
      isWhite w = true ->
      stops isRunChar s2 = true \/ stops isRunChar (rev s1) = true ->
      tokenize (s1 ++ w :: s2) = tokenize (s1 ++ s2)
      /\ evaluateExpression Math_pow (s1 ++ w :: s2)
         = evaluateExpression Math_pow (s1 ++ s2))
  /\ (forall s ws : jsstring,
         forallb isWhite ws = true ->
         evaluateExpression Math_pow (ws ++ s) = evaluateExpression Math_pow s
         /\ evaluateExpression Math_pow (s ++ ws) = evaluateExpression Math_pow s).
Proof.
  split.
  - intros s1 s2 w Hw Hb.
    assert (Ht : tokenize (s1 ++ w :: s2) = tokenize (s1 ++ s2)).
    { unfold tokenize. rewrite (tokenize_from_app s1 s2 [] Hb).
      rewrite (tokenize_from_app s1 (w :: s2) [])
        by (left; simpl; rewrite (isWhite_run w Hw); reflexivity).
      destruct (tokenize_from s1 []) as [t|e]; [|reflexivity].
      simpl. rewrite Hw. reflexivity. }
    split; [exact Ht|]. apply evaluateExpression_tokens; [|exact Ht].
    rewrite !forallb_app. simpl. rewrite Hw. reflexivity.
  - intros s ws Hws. split; apply evaluateExpression_tokens.
    + rewrite forallb_app, Hws. reflexivity.
    + unfold tokenize. rewrite tokenize_from_app.
      * rewrite (tokenize_from_white ws [] Hws). reflexivity.
      * right. destruct (rev ws) as [|w r] eqn:E; [reflexivity|]. simpl.
        rewrite isWhite_run; [reflexivity|].
        rewrite forallb_forall in Hws. apply Hws, in_rev. rewrite E. left. reflexivity.
    + rewrite forallb_app, Hws. apply andb_true_r.
    + unfold tokenize. rewrite tokenize_from_app.
      * destruct (tokenize_from s []) as [t|e]; [|reflexivity].
        simpl. apply tokenize_from_white, Hws.
      * left. destruct ws as [|w r]; [reflexivity|]. simpl.
        simpl in Hws. apply andb_true_iff in Hws as [Hw _].
        rewrite (isWhite_run w Hw). reflexivity.
Qed.

Lemma white_space_between_tokens_witness :
  evaluateExpression samplePow (js "2" ++ 32 :: js "*(3+4)")
  = evaluateExpression samplePow (js "2" ++ js "*(3+4)")
  /\ evaluateExpression samplePow (js "  " ++ js "2*(3+4)")
     = evaluateExpression samplePow (js "2*(3+4)")
  /\ evaluateExpression samplePow (js "2*(3+4)" ++ js "  ")
     = evaluateExpression samplePow (js "2*(3+4)")
  /\ tokenize (js "1" ++ 32 :: js "2") <> tokenize (js "1" ++ js "2").
Proof.
  destruct (white_space_between_tokens samplePow) as [H1 H2].
  split; [|split; [|split; [|discriminate]]].
  - apply (H1 (js "2") (js "*(3+4)") 32 eq_refl). left. reflexivity.
  - apply (H2 (js "2*(3+4)") (js "  ") eq_refl).
  - apply (H2 (js "2*(3+4)") (js "  ") eq_refl).
Defined.

(** ** A sign in unary position *)

Lemma tokenize_from_open (n : nat) :
  forall (s1 : jsstring) (acc t : list token),
    (List.length s1 <= n)%nat ->
    tokenize_from s1 acc = Ok t -> unaryPosition (prev t) = true ->
    forall rest : jsstring, tokenize_from (s1 ++ rest) acc = tokenize_from rest t.
Proof.
  induction n as [|n IH]; intros s1 acc t Hlen Ht Hu rest.
  - destruct s1; [|simpl in Hlen; lia]. injection Ht as <-. reflexivity.
  - destruct s1 as [|c s]; [injection Ht as <-; reflexivity|].
    simpl in Hlen, Ht. simpl.
    assert (Hrun : forall (p : char -> bool) (mk : jsstring -> token),
               unaryPosition (Some (mk (c :: run p s))) = false ->
               tokenize_from (skip p s) (acc ++ [mk (c :: run p s)]) = Ok t ->
               tokenize_from (skip p (s ++ rest)) (acc ++ [mk (c :: run p (s ++ rest))])
               = tokenize_from rest t).
    { intros p mk Hmk Hs.
      destruct (skip p s) as [|d s'] eqn:Es.
      - injection Hs as <-. rewrite prev_last, Hmk in Hu. discriminate Hu.
      - pose proof (skip_stops p s) as Hd. rewrite Es in Hd.
        pose proof (run_skip p s) as Ers. rewrite Es in Ers.
        assert (E1 : run p (s ++ rest) = run p s).
        { rewrite <- Ers at 1. rewrite <- app_assoc.
          apply run_all; [apply run_forallb|exact Hd]. }
        assert (E2 : skip p (s ++ rest) = (d :: s') ++ rest).
        { rewrite <- Ers at 1. rewrite <- app_assoc.
          apply skip_all; [apply run_forallb|exact Hd]. }
        rewrite E1, E2. apply (IH (d :: s')); [|exact Hs|exact Hu].
        pose proof (skip_length p s) as Hl. rewrite Es in Hl. lia. }
    destruct (isWhite c); [apply (IH s); [lia|exact Ht|exact Hu]|].
    destruct (isDigit c || (c =? code ".")); [apply (Hrun isNumChar num eq_refl Ht)|].
    destruct (c =? code "("); [apply (IH s); [lia|exact Ht|exact Hu]|].
    destruct (c =? code ")"); [apply (IH s); [lia|exact Ht|exact Hu]|].
    destruct (c =? code "%"); [apply (IH s); [lia|exact Ht|exact Hu]|].
    destruct (isOperator c); [apply (IH s); [lia|exact Ht|exact Hu]|].
    destruct (isAlpha c); [apply (Hrun isAlnum func eq_refl Ht)|discriminate Ht].
Qed.

(** X4. A [+] or [-] in unary position means what it means with [0]
    written before it: the same tokens and the same value.  The sign has
    the precedence of the binary operator, so ["2*-3"] is [2*0-3], and
    ["-3^2"] is [0-3^2]. *)
Theorem unary_sign_as_zero (Math_pow : float -> float -> float)
    (s1 s2 : jsstring) (c : char) (t1 : list token) :
  c = code "+" \/ c = code "-" ->
  tokenize s1 = Ok t1 -> signPosition t1 ->
  tokenize (s1 ++ c :: s2) = tokenize (s1 ++ code "0" :: c :: s2)
  /\ evaluateExpression Math_pow (s1 ++ c :: s2)
     = evaluateExpression Math_pow (s1 ++ code "0" :: c :: s2).
Proof.
  intros Hc H1 Hp.
  assert (Hop : isOperator c = true) by (destruct Hc as [-> | ->]; reflexivity).
  assert (Hw : isWhite c = false) by (destruct Hc as [-> | ->]; reflexivity).
  apply unaryPosition_prev in Hp.
  assert (Ht : tokenize (s1 ++ c :: s2) = tokenize (s1 ++ code "0" :: c :: s2)).
  { unfold tokenize.
    rewrite !(tokenize_from_open (List.length s1) s1 [] t1 (le_n _) H1 Hp).
    rewrite (tokenize_from_operator c s2 t1 Hop).
    change (code "0" :: c :: s2) with ([code "0"] ++ c :: s2).
    rewrite (tokenize_from_literal [code "0"] (c :: s2) t1 eq_refl)
      by (simpl; destruct (isOperator_classes c Hop) as [-> _]; reflexivity).
    rewrite (tokenize_from_operator c s2 _ Hop).
    unfold operatorTokens. rewrite prev_last, Hp.
    destruct Hc as [-> | ->]; simpl; rewrite <- app_assoc; reflexivity. }
  split; [exact Ht|]. apply evaluateExpression_tokens; [|exact Ht].
  rewrite !forallb_app. simpl. rewrite Hw, !andb_false_r. reflexivity.
Qed.

Lemma unary_sign_as_zero_witness :
  evaluateExpression samplePow (js "2*-3") = evaluateExpression samplePow (js "2*0-3")
  /\ evaluateExpression samplePow (js "2*0-3") = Ok (-3)%float
  /\ evaluateExpression samplePow (js "-3^2") = evaluateExpression samplePow (js "0-3^2")
  /\ evaluateExpression samplePow (js "0-3^2") = Ok (-9)%float.
Proof.
  split; [|split; [reflexivity|split; [|reflexivity]]].
  - apply (unary_sign_as_zero samplePow (js "2*") (js "3") (code "-")
             [num (js "2"); op (code "*")]); [right; reflexivity|reflexivity|].
    right. right. exists [num (js "2")], (code "*"). reflexivity.
  - apply (unary_sign_as_zero samplePow [] (js "3^2") (code "-") []);
      [right; reflexivity|reflexivity|left; reflexivity].
Defined.

(** ** Function calls *)

Lemma toRPN_from_operand (e : expr) :
  standard e = true ->
  forall rest out ops : list token,
    guarded e ops = true -> callFree ops = true ->
    toRPN_from (tokensOf e ++ rest) out ops
    = toRPN_from rest (out ++ body e) (spine e ++ ops).
Proof.
  induction e as [text|o l IHl r IHr|e IH]; intros Hstd rest out ops Hg Ha.
  - reflexivity.
  - pose proof Hstd as Hstd'. simpl in Hstd'. rewrite !andb_true_iff in Hstd'.
    destruct Hstd' as [[[Hl Hr] _] _].
    destruct (guarded_operands o l r ops Hg) as [Ho Hgl].
    simpl tokensOf. rewrite <- app_assoc. rewrite (IHl Hl) by assumption.
    simpl. unfold spine at 1.
    rewrite popOperators_spine
      by (try assumption; intros w Hw; apply (left_operand_yields o l r w Hstd Hw)).
    fold (binopToken o).
    rewrite (IHr Hr)
      by (try apply (right_operand_guarded o l r ops Hstd); reflexivity).
    rewrite (postfix_body_spine l). unfold spine. simpl.
    rewrite map_app, <- !app_assoc. reflexivity.
  - simpl in Hstd. simpl tokensOf. rewrite <- app_comm_cons. simpl toRPN_from at 1.
    rewrite <- app_assoc.
    rewrite (IH Hstd) by (try apply guarded_lparen; reflexivity).
    simpl. unfold spine at 1. rewrite popToParen_spine.
    rewrite <- app_assoc, <- postfix_body_spine.
    destruct ops as [|[] ops]; try reflexivity. discriminate.
Qed.

Lemma isAlpha_classes (c : char) :
  isAlpha c = true ->
  isWhite c = false /\ isDigit c || (c =? code ".") = false
  /\ (c =? code "(") = false /\ (c =? code ")") = false /\ (c =? code "%") = false
  /\ isOperator c = false.
Proof.
  intros H. rewrite orb_false_iff. classes.
Qed.

Lemma tokenize_from_name (name rest : jsstring) (tokens : list token) :
  isName name = true -> stops isAlnum rest = true ->
  tokenize_from (name ++ rest) tokens = tokenize_from rest (tokens ++ [func name]).
Proof.
  destruct name as [|c name]; [discriminate|]. simpl.
  intros H Hrest. apply andb_true_iff in H as [Hc Hname].
  destruct (isAlpha_classes c Hc) as [H1 [H2 [H3 [H4 [H5 H6]]]]].
  rewrite H1, H2, H3, H4, H5, H6, Hc.
  rewrite (run_all isAlnum name rest Hname Hrest).
  rewrite (skip_all isAlnum name rest Hname Hrest). reflexivity.
Qed.

(** X7. A name followed by a parenthesised expression is a call: the
    function token goes to the output right after the argument, and the
    value is [callFunc] of the name on the argument's value (the square
    root for [sqrt], 'Unknown function' for any other name), the errors
    of the argument coming first. *)
Theorem function_of_expression (Math_pow : float -> float -> float)
    (name : jsstring) (e : expr) :
  isName name = true -> standard e = true ->
  tokenize (name ++ render (Paren e)) = Ok (func name :: tokensOf (Paren e))
  /\ toRPN (func name :: tokensOf (Paren e)) = Ok (postfix e ++ [func name])
  /\ evaluateExpression Math_pow (name ++ render (Paren e))
     = (v <- value Math_pow e ;; callFunc name [v]).
Proof.
  intros Hname Hstd.
  assert (Ht : tokenize (name ++ render (Paren e)) = Ok (func name :: tokensOf (Paren e))).
  { unfold tokenize.
    rewrite (tokenize_from_name name (render (Paren e)) [] Hname eq_refl).
    rewrite <- (app_nil_r (render (Paren e))).
    rewrite (tokenize_from_render (Paren e) Hstd [] _ eq_refl). reflexivity. }
  assert (Hr : toRPN (func name :: tokensOf (Paren e)) = Ok (postfix e ++ [func name])).
  { unfold toRPN. simpl.
    rewrite (toRPN_from_operand e Hstd [rparen] [] [lparen; func name]
               (guarded_lparen e _) eq_refl).
    simpl. unfold spine. rewrite popToParen_spine. fold (spine e).
    rewrite <- postfix_body_spine. reflexivity. }
  split; [exact Ht|]. split; [exact Hr|].
  unfold evaluateExpression.
  destruct name as [|c name]; [discriminate|].
  simpl in Hname. apply andb_true_iff in Hname as [Hc _].
  destruct (isAlpha_classes c Hc) as [Hw _].
  rewrite (trim_nonblank ((c :: name) ++ render (Paren e)) c (or_introl eq_refl) Hw).
  rewrite Ht. cbv beta iota delta [bind]. rewrite Hr.
  unfold evalRPN. rewrite evalRPN_from_postfix.
  destruct (value Math_pow e) as [v|err]; [|reflexivity].
  simpl. destruct (callFunc (c :: name) [v]); reflexivity.
Qed.

Lemma function_of_expression_witness :
  evaluateExpression samplePow (js "sqrt" ++ render (Paren (Bin Add (Lit (js "7")) (Lit (js "9")))))
  = Ok 4%float
  /\ evaluateExpression samplePow (js "cbrt" ++ render (Paren (Bin Div (Lit (js "8")) (Lit (js "0")))))
     = Throw DivideByZero
  /\ evaluateExpression samplePow (js "cbrt" ++ render (Paren (Lit (js "8"))))
     = Throw (UnknownFunction (js "cbrt")).
Proof.
  split; [|split].
  - destruct (function_of_expression samplePow (js "sqrt")
                (Bin Add (Lit (js "7")) (Lit (js "9"))) eq_refl eq_refl) as [_ [_ H]].
    rewrite H. reflexivity.
  - destruct (function_of_expression samplePow (js "cbrt")
                (Bin Div (Lit (js "8")) (Lit (js "0"))) eq_refl eq_refl) as [_ [_ H]].
    rewrite H. reflexivity.
  - destruct (function_of_expression samplePow (js "cbrt")
                (Lit (js "8")) eq_refl eq_refl) as [_ [_ H]].
    rewrite H. reflexivity.
Defined.

(** ** The text "Error" *)

Lemma digits_notE (s : jsstring) : forallb isDigit s = true -> forallb notE s = true.
Proof.
  apply forallb_impl. intros c H. unfold notE. apply negb_true_iff. classes.
Qed.

Lemma signedExponent_notE (e : Z) : forallb notE (signedExponent e) = true.
Proof.
  unfold signedExponent. rewrite forallb_app, (digits_notE _ (digitsOf_digits _)).
  destruct (e <? 0)%Z; reflexivity.
Qed.

Lemma layout_notE (n k : Z) (ds : jsstring) :
  forallb isDigit ds = true -> forallb notE (layout n k ds) = true.
Proof.
  intros H. pose proof (digits_notE ds H) as Hds.
  assert (H1 : forall j, forallb notE (firstn j ds) = true)
    by (intros j; apply forallb_firstn, Hds).
  assert (H2 : forall j, forallb notE (skipn j ds) = true)
    by (intros j; apply forallb_skipn, Hds).
  assert (H3 : forall j, forallb notE (zeros j) = true)
    by (intros j; apply digits_notE, zeros_digits).
  unfold layout.
  repeat match goal with |- context [if ?b then _ else _] => destruct b end;
    rewrite ?forallb_app, ?Hds, ?H1, ?H2, ?H3, ?signedExponent_notE; reflexivity.
Qed.

Lemma String_positive_notE (m : positive) (e : Z) :
  forallb notE (String_positive m e) = true.
Proof.
  unfold String_positive.
  destruct (shortest _ _ _ _) as [[[n k] s]|]; [|reflexivity].
  apply layout_notE, decimalDigits_digits.
Qed.

Lemma String_notE (x : float) : forallb notE (String_ x) = true.
Proof.
  unfold String_. destruct (Prim2SF x) as [s|s| |s m e]; try reflexivity.
  - destruct s; reflexivity.
  - rewrite forallb_app, String_positive_notE. destruct s; reflexivity.
Qed.

Lemma toFixed_notE (f : nat) (x : float) : forallb notE (toFixed f x) = true.
Proof.
  unfold toFixed. destruct (negb (isFinite x)); [apply String_notE|].
  rewrite forallb_app.
  replace (forallb notE (if (x <? 0)%float then js "-" else [])) with true
    by (destruct (x <? 0)%float; reflexivity).
  destruct (Qle_bool _ _); [apply String_notE|].
  destruct f as [|f]; [apply digits_notE, digitsOf_digits|].
  set (m := zeros _ ++ digitsOf _).
  assert (Hm : forallb notE m = true).
  { unfold m. rewrite forallb_app, (digits_notE _ (zeros_digits _)).
    apply digits_notE, digitsOf_digits. }
  rewrite !forallb_app, (forallb_firstn _ _ _ Hm), (forallb_skipn _ _ _ Hm).
  reflexivity.
Qed.

Lemma replaceDotZeros_forallb (p : char -> bool) (s : jsstring) :
  forallb p s = true -> forallb p (replaceDotZeros s) = true.
Proof.
  induction s as [|c s IH]; [reflexivity|].
  intros H. simpl in H. apply andb_true_iff in H as [Hc Hs].
  cbn [replaceDotZeros]. destruct (matchesDotZeros (c :: s)); [reflexivity|].
  simpl. rewrite Hc. apply IH, Hs.
Qed.

Lemma formatNumber_notE (n : float) :
  isFinite n = true -> forallb notE (formatNumber n) = true.
Proof.
  intros H. unfold formatNumber. rewrite H. simpl.
  destruct (nearInteger n); [apply String_notE|].
  apply replaceDotZeros_forallb, toFixed_notE.
Qed.

Lemma formatNumber_Error_iff (n : float) :
  formatNumber n = js "Error" <-> isFinite n = false.
Proof.
  split.
  - intros H. destruct (isFinite n) eqn:E; [|reflexivity].
    pose proof (formatNumber_notE n E) as Hn. rewrite H in Hn. discriminate Hn.
  - intros H. unfold formatNumber. rewrite H. reflexivity.
Qed.

(** X8. [formatNumber] returns "Error" for the numbers that are not
    finite and for no other: the text of a finite number has no [E] in
    it. *)
Theorem formatNumber_error (n : float) :
  (formatNumber n = js "Error" <-> isFinite n = false)
  /\ (isFinite n = true -> ~ In (code "E") (formatNumber n)).
Proof.
  split; [apply formatNumber_Error_iff|].
  intros H Hin. pose proof (formatNumber_notE n H) as Hn.
  rewrite forallb_forall in Hn. specialize (Hn _ Hin). discriminate Hn.
Qed.

Lemma formatNumber_error_witness :
  formatNumber (1 / 0)%float = js "Error"
  /\ ~ In (code "E") (formatNumber 1e21%float).
Proof.
  destruct (formatNumber_error (1 / 0)%float) as [H _].
  destruct (formatNumber_error 1e21%float) as [_ H'].
  split; [apply H|apply H']; reflexivity.
Defined.

(** ** The sign key *)

Lemma matchesUnsigned_tail (a : char) (x : jsstring) :
  matchesUnsigned (a :: x) = true -> x <> [] -> matchesUnsigned x = true.
Proof.
  unfold matchesUnsigned. simpl. destruct (isDigit a) eqn:Ea.
  - intros H Hx. destruct (skip isDigit x); [|exact H].
    destruct x; [contradiction|reflexivity].
  - intros H Hx. rewrite !andb_true_iff in H. destruct H as [[_ H1] H2].
    apply skip_nil_forallb in H2. rewrite H2. exact H1.
Qed.

Lemma matchesUnsigned_head (a : char) (x : jsstring) :
  matchesUnsigned (a :: x) = true -> isNumChar a = true.
Proof.
  unfold matchesUnsigned, isNumChar. simpl. destruct (isDigit a); [reflexivity|].
  intros H. rewrite !andb_true_iff in H. destruct H as [[H _] _]. exact H.
Qed.

Lemma matchesUnsigned_chars (d : jsstring) :
  matchesUnsigned d = true -> forallb isNumChar d = true.
Proof.
  induction d as [|a x IH]; [reflexivity|].
  intros H. simpl. rewrite (matchesUnsigned_head a x H).
  destruct x as [|b x]; [reflexivity|].
  apply IH, (matchesUnsigned_tail a (b :: x) H). discriminate.
Qed.

Lemma matchesUnsigned_last (s : jsstring) (c : char) :
  matchesUnsigned (s ++ [c]) = true -> isDigit c = true.
Proof.
  induction s as [|a s IH].
  - unfold matchesUnsigned. simpl. destruct (isDigit c); [reflexivity|].
    rewrite andb_false_r. discriminate.
  - intros H. apply IH, (matchesUnsigned_tail a _ H). destruct s; discriminate.
Qed.

Lemma matchesNumber_unsigned (d : jsstring) :
  matchesUnsigned d = true -> matchesNumber d = true.
Proof.
  intros H. destruct d as [|a x]; [discriminate H|].
  simpl. destruct (a =? code "-") eqn:Ea; [|exact H].
  apply N.eqb_eq in Ea. subst a. apply matchesUnsigned_head in H. discriminate H.
Qed.

Lemma matchesNumber_signed (d : jsstring) :
  matchesNumber (code "-" :: d) = matchesUnsigned d.
Proof. reflexivity. Qed.

Lemma matchesNumber_tail (a : char) (x : jsstring) :
  matchesNumber (a :: x) = true -> x <> [] -> matchesNumber x = true.
Proof.
  simpl. destruct (a =? code "-").
  - intros H _. apply matchesNumber_unsigned, H.
  - intros H Hx. apply matchesNumber_unsigned, (matchesUnsigned_tail a x H Hx).
Qed.

Lemma matchesNumber_rest (a : char) (x : jsstring) :
  matchesNumber (a :: x) = true -> forallb isNumChar x = true.
Proof.
  simpl. destruct (a =? code "-").
  - apply matchesUnsigned_chars.
  - intros H. apply matchesUnsigned_chars in H. simpl in H.
    apply andb_true_iff in H as [_ H]. exact H.
Qed.

Lemma matchesNumber_last (s : jsstring) (c : char) :
  matchesNumber (s ++ [c]) = true -> isDigit c = true.
Proof.
  destruct s as [|a s]; simpl.
  - destruct (c =? code "-"); [discriminate|]. apply (matchesUnsigned_last []).
  - destruct (a =? code "-"); [apply matchesUnsigned_last|].
    apply (matchesUnsigned_last (a :: s)).
Qed.

Lemma matchesNumber_line (s : jsstring) :
  matchesNumber s = true -> existsb isLineTerminator s = false.
Proof.
  intros H. destruct s as [|a x]; [reflexivity|].
  pose proof (matchesNumber_rest a x H) as Hx.
  simpl. replace (isLineTerminator a) with false.
  - simpl. apply not_true_is_false. intros E. apply existsb_exists in E as [c [Hin Hc]].
    rewrite forallb_forall in Hx. specialize (Hx c Hin).
    unfold isLineTerminator in Hc. classes.
  - simpl in H. destruct (a =? code "-") eqn:Ea.
    + apply N.eqb_eq in Ea. subst a. reflexivity.
    + apply matchesUnsigned_head in H. symmetry. apply not_true_is_false.
      intros Hc. unfold isLineTerminator in Hc. classes.
Qed.

(** No match from a start position with a line terminator ahead. *)
Lemma matchFrom_line (s : jsstring) :
  existsb isLineTerminator s = true ->
  forall before : jsstring, matchFrom before s = None.
Proof.
  induction s as [|c s IH]; [discriminate|].
  intros H before. cbn [matchFrom].
  destruct (matchesNumber (c :: s)) eqn:E.
  { apply matchesNumber_line in E. congruence. }
  destruct (isLineTerminator c) eqn:Ec; [reflexivity|].
  simpl in H. rewrite Ec in H. apply IH, H.
Qed.

(** The lazy group stops at the first rest that matches. *)
Lemma matchFrom_first (p t : jsstring) :
  matchesNumber t = true -> existsb isLineTerminator p = false ->
  (forall p1 p2 : jsstring, p = p1 ++ p2 -> p2 <> [] -> matchesNumber (p2 ++ t) = false) ->
  forall before : jsstring, matchFrom before (p ++ t) = Some (before ++ p, t).
Proof.
  intros Ht. induction p as [|c p IH]; intros Hp Hnone before.
  - rewrite app_nil_r. simpl. destruct t; cbn [matchFrom]; rewrite Ht; reflexivity.
  - simpl in Hp. apply orb_false_iff in Hp as [Hc Hp].
    simpl app. cbn [matchFrom].
    assert (Hm : matchesNumber ((c :: p) ++ t) = false)
      by (apply (Hnone [] (c :: p) eq_refl); discriminate).
    change ((c :: p) ++ t) with (c :: p ++ t) in Hm. rewrite Hm, Hc.
    rewrite IH; [rewrite <- app_assoc; reflexivity|exact Hp|].
    intros p1 p2 E Hp2. apply (Hnone (c :: p1) p2); [rewrite E; reflexivity|exact Hp2].
Qed.

Lemma matchLastNumber_eq (s : jsstring) :
  matchLastNumber s
  = match matchFrom [] s with
    | Some m => Some m
    | None =>
      match s with
      | [] => None
      | _ :: s' => matchLastNumber s'
      end
    end.
Proof. destruct s; reflexivity. Qed.

(** What comes before the last line terminator is out of the match. *)
Lemma matchLastNumber_line (q : jsstring) (lt : char) (s : jsstring) :
  isLineTerminator lt = true ->
  matchLastNumber (q ++ lt :: s) = matchLastNumber s.
Proof.
  intros Hlt. induction q as [|a q IH].
  - simpl app. rewrite matchLastNumber_eq.
    rewrite matchFrom_line; [reflexivity|]. simpl. rewrite Hlt. reflexivity.
  - simpl app. rewrite matchLastNumber_eq.
    rewrite matchFrom_line; [exact IH|].
    simpl. rewrite existsb_app. simpl. rewrite Hlt, !orb_true_r. reflexivity.
Qed.

Lemma matchFrom_none (s : jsstring) (c : char) :
  isDigit c = false -> forall before : jsstring, matchFrom before (s ++ [c]) = None.
Proof.
  intros Hc. induction s as [|a s IH]; intros before.
  - simpl app. cbn [matchFrom].
    destruct (matchesNumber [c]) eqn:E.
    { apply (matchesNumber_last []) in E. congruence. }
    destruct (isLineTerminator c); reflexivity.
  - simpl app. cbn [matchFrom].
    destruct (matchesNumber (a :: s ++ [c])) eqn:E.
    { apply (matchesNumber_last (a :: s)) in E. congruence. }
    destruct (isLineTerminator a); [reflexivity|apply IH].
Qed.

Lemma matchLastNumber_none (s : jsstring) (c : char) :
  isDigit c = false -> matchLastNumber (s ++ [c]) = None.
Proof.
  intros Hc. induction s as [|a s IH].
  - rewrite matchLastNumber_eq, (matchFrom_none [] c Hc). reflexivity.
  - rewrite matchLastNumber_eq, (matchFrom_none (a :: s) c Hc). exact IH.
Qed.

Lemma matchLastNumber_found (pre p t : jsstring) :
  endsLine pre -> matchesNumber t = true -> existsb isLineTerminator p = false ->
  (forall p1 p2 : jsstring, p = p1 ++ p2 -> p2 <> [] -> matchesNumber (p2 ++ t) = false) ->
  matchLastNumber (pre ++ p ++ t) = Some (p, t).
Proof.
  intros Hpre Ht Hp Hnone.
  assert (H : matchLastNumber (p ++ t) = Some (p, t)).
  { rewrite matchLastNumber_eq, (matchFrom_first p t Ht Hp Hnone []). reflexivity. }
  destruct Hpre as [->|[q [lt [-> Hlt]]]]; [exact H|].
  rewrite <- app_assoc. simpl. rewrite (matchLastNumber_line q lt _ Hlt). exact H.
Qed.

Lemma jsstring_eqb_eq (s t : jsstring) : jsstring_eqb s t = true <-> s = t.
Proof.
  unfold jsstring_eqb. destruct (list_eq_dec N.eq_dec s t); split; auto; discriminate.
Qed.

Lemma startsWith_minus (d : jsstring) :
  startsWith d (js "-") = true -> exists x : jsstring, d = code "-" :: x.
Proof.
  destruct d as [|a d]; [discriminate|].
  change (startsWith (a :: d) (js "-")) with ((code "-" =? a) && true).
  rewrite andb_true_r. intros H. apply N.eqb_eq in H. subst a. exists d. reflexivity.
Qed.

Section SignKey.

Variable Math_pow : float -> float -> float.

Lemma handleCommand_plusMinus (st : calculator) :
  handleCommand Math_pow plusMinus st
  = if isEmpty (expression st) then animateValue (js "0") (setExpr (js "-") st)
    else
      match matchLastNumber (expression st) with
      | Some (before, last) =>
        if startsWith last (js "-") then setExpr (before ++ tl last) st
        else setExpr (before ++ js "-" ++ last) st
      | None => setExpr (js "-" ++ expression st) st
      end.
Proof. reflexivity. Qed.

End SignKey.

(** X10. The sign key.  On an empty expression it writes ["-"] and shows
    0.  Otherwise it works on the number [d] the expression ends with
    (digits, with a dot before the last run of them at most), on the line
    it is on: a [-] right before [d] is removed, whether it was a sign or
    a subtraction (["3-5"] becomes ["35"]); with no [-] there, one is put
    before the longest such [d]; what comes before the last line
    terminator is dropped.  An expression that does not end with a digit
    gets a [-] in front.  The value on display, the history and the last
    result stay as they are. *)
Theorem sign_key (Math_pow : float -> float -> float) (st : calculator) :
  let st' := handleCommand Math_pow plusMinus st in
  (expression st = [] -> expression st' = js "-" /\ valueText st' = js "0")
  /\ (forall pre p d : jsstring,
         endsLine pre -> existsb isLineTerminator p = false ->
         matchesUnsigned d = true ->
         expression st = pre ++ p ++ js "-" ++ d ->
         expression st' = p ++ d)
  /\ (forall pre p d : jsstring,
         endsLine pre -> existsb isLineTerminator p = false ->
         matchesUnsigned d = true ->
         (p = [] \/ exists (p' : jsstring) (c : char),
                      p = p' ++ [c] /\ matchesNumber (c :: d) = false) ->
         expression st = pre ++ p ++ d ->
         expression st' = p ++ js "-" ++ d)
  /\ (forall (s : jsstring) (c : char),
         isDigit c = false -> expression st = s ++ [c] ->
         expression st' = js "-" ++ s ++ [c])
  /\ (expression st <> [] ->
      valueText st' = valueText st /\ history st' = history st
      /\ lastResult st' = lastResult st).
Proof.
  intros st'. unfold st'. rewrite handleCommand_plusMinus.
  split; [intros ->; split; reflexivity|].
  split; [|split; [|split]].
  - intros pre p d Hpre Hp Hd E.
    assert (Hne : isEmpty (expression st) = false).
    { rewrite E. destruct pre, p; reflexivity. }
    rewrite Hne, E.
    rewrite (matchLastNumber_found pre p (js "-" ++ d) Hpre Hd Hp).
    + reflexivity.
    + intros p1 p2 _ Hp2. destruct p2 as [|a p2]; [contradiction|].
      apply not_true_is_false. intros H. apply matchesNumber_rest in H.
      rewrite forallb_app in H. apply andb_true_iff in H as [_ H]. discriminate H.
  - intros pre p d Hpre Hp Hd Hlast E.
    assert (Hne : isEmpty (expression st) = false).
    { rewrite E. destruct pre, p, d; try reflexivity. discriminate Hd. }
    rewrite Hne, E.
    rewrite (matchLastNumber_found pre p d Hpre (matchesNumber_unsigned d Hd) Hp).
    + destruct (startsWith d (js "-")) eqn:Es; [|reflexivity].
      apply startsWith_minus in Es as [x ->].
      apply matchesUnsigned_head in Hd. discriminate Hd.
    + intros p1 p2 Ep Hp2. destruct Hlast as [->|[p' [c [-> Hc]]]].
      { destruct p1, p2; try discriminate Ep. contradiction. }
      apply not_true_is_false. intros H.
      assert (Hsuf : forall x : jsstring, matchesNumber (x ++ c :: d) = true ->
                                          matchesNumber (c :: d) = true).
      { induction x as [|a x IHx]; [auto|]. intros Hx. apply IHx.
        apply (matchesNumber_tail a _ Hx). destruct x; discriminate. }
      destruct (@exists_last _ p2 Hp2) as [x [c' Ex]]. subst p2.
      rewrite app_assoc in Ep. apply app_inj_tail in Ep as [_ <-].
      rewrite <- app_assoc in H. simpl in H. apply Hsuf in H. congruence.
  - intros s c Hc E. rewrite E.
    replace (isEmpty (s ++ [c])) with false by (destruct s; reflexivity).
    rewrite (matchLastNumber_none s c Hc). reflexivity.
  - intros Hne. destruct (expression st) as [|a e] eqn:E; [contradiction|].
    cbn [isEmpty].
    destruct (matchLastNumber (a :: e)) as [[before last]|];
      [destruct (startsWith last (js "-"))|]; auto.
Qed.

Lemma sign_key_witness :
  let st := setExpr (js "3-5") initial in
  let st2 := setExpr (js "2*5") initial in
  let st3 := setExpr (js "1" ++ [10] ++ js "2") initial in
  expression (handleCommand samplePow plusMinus st) = js "35"
  /\ expression (handleCommand samplePow plusMinus st2) = js "2*-5"
  /\ expression (handleCommand samplePow plusMinus (handleCommand samplePow plusMinus st2))
     = js "2*5"
  /\ expression (handleCommand samplePow plusMinus st3) = js "-2"
  /\ expression (handleCommand samplePow plusMinus (setExpr (js "2+") initial)) = js "-2+".
Proof.
  intros st st2 st3.
  split; [|split; [|split; [|split]]].
  - destruct (sign_key samplePow st) as [_ [H _]].
    apply (H [] (js "3") (js "5")); [left|..]; reflexivity.
  - destruct (sign_key samplePow st2) as [_ [_ [H _]]].
    apply (H [] (js "2*") (js "5")); [left; reflexivity|reflexivity|reflexivity| |reflexivity].
    right. exists (js "2"), (code "*"). split; reflexivity.
  - destruct (sign_key samplePow (handleCommand samplePow plusMinus st2)) as [_ [H _]].
    apply (H [] (js "2*") (js "5")); [left|..]; reflexivity.
  - destruct (sign_key samplePow st3) as [_ [_ [H _]]].
    apply (H (js "1" ++ [10]) [] (js "2")); [|reflexivity|reflexivity|left; reflexivity|reflexivity].
    right. exists (js "1"), 10. split; reflexivity.
  - destruct (sign_key samplePow (setExpr (js "2+") initial)) as [_ [_ [_ [H _]]]].
    apply (H (js "2") (code "+")); reflexivity.
Defined.

(** ** The state along the events *)

Lemma removelast_length {A : Type} (l : list A) :
  List.length (removelast l) = pred (List.length l).
Proof.
  induction l as [|a l IH]; [reflexivity|].
  destruct l as [|b l]; [reflexivity|].
  change (removelast (a :: b :: l)) with (a :: removelast (b :: l)).
  simpl List.length in *. rewrite IH. reflexivity.
Qed.

Lemma removelast_Forall {A : Type} (P : A -> Prop) (l : list A) :
  Forall P l -> Forall P (removelast l).
Proof.
  induction 1 as [|a l Ha Hl IH]; [constructor|].
  destruct l as [|b l]; [constructor|].
  change (removelast (a :: b :: l)) with (a :: removelast (b :: l)).
  constructor; assumption.
Qed.

Section Events.

Variable Math_pow : float -> float -> float.

Lemma consistent_setExpr (s : jsstring) (st : calculator) :
  consistent Math_pow st -> consistent Math_pow (setExpr s st).
Proof. intros [_ H]. split; [reflexivity|exact H]. Qed.

Lemma consistent_animateValue (v : jsstring) (st : calculator) :
  consistent Math_pow st -> consistent Math_pow (animateValue v st).
Proof. intros H. exact H. Qed.

Lemma consistent_setLastResult (v : float) (st : calculator) :
  consistent Math_pow st -> consistent Math_pow (setLastResult v st).
Proof. intros H. exact H. Qed.

Lemma consistent_pushHistoryItem (e r : jsstring) (st : calculator) :
  recorded Math_pow {| entryExpr := e; entryResult := r |} ->
  consistent Math_pow st -> consistent Math_pow (pushHistoryItem e r st).
Proof.
  intros Hr [H1 [H2 H3]]. split; [exact H1|].
  unfold pushHistoryItem. cbn [history].
  set (h := {| entryExpr := e; entryResult := r |} :: history st).
  assert (Hh : Forall (recorded Math_pow) h) by (constructor; assumption).
  destruct (100 <? List.length h)%nat eqn:E.
  - split; [|apply removelast_Forall, Hh].
    rewrite removelast_length. unfold h. simpl. exact H2.
  - split; [apply Nat.ltb_ge, E|exact Hh].
Qed.

Lemma consistent_handleCommand (cmd : jsstring) (st : calculator) :
  consistent Math_pow st -> consistent Math_pow (handleCommand Math_pow cmd st).
Proof.
  intros H. unfold handleCommand.
  destruct (jsstring_eqb cmd (js "AC")); [apply consistent_setExpr, H|].
  destruct (jsstring_eqb cmd plusMinus).
  { destruct (isEmpty (expression st)); [apply consistent_setExpr, H|].
    destruct (matchLastNumber (expression st)) as [[before last]|];
      [destruct (startsWith last (js "-"))|]; apply consistent_setExpr, H. }
  destruct (jsstring_eqb cmd (js "%")); [apply consistent_setExpr, H|].
  destruct (jsstring_eqb cmd (js "=")).
  { destruct (evaluateExpression Math_pow (expression st)) as [res|e] eqn:E; [|exact H].
    apply consistent_animateValue, consistent_setExpr, consistent_setLastResult.
    apply consistent_pushHistoryItem; [|exact H]. exists res. split; [exact E|reflexivity]. }
  cbv zeta.
  destruct (evaluateExpression Math_pow _); apply consistent_setExpr, H.
Qed.

Lemma consistent_handle (ev : event) (st : calculator) :
  consistent Math_pow st -> consistent Math_pow (handle Math_pow ev st).
Proof.
  intros H. destruct ev as [cmd|key| |i]; simpl.
  - apply consistent_handleCommand, H.
  - unfold keydown.
    destruct (jsstring_eqb key (js "Enter")); [apply consistent_handleCommand, H|].
    destruct (jsstring_eqb key (js "Backspace")); [apply consistent_setExpr, H|].
    destruct (includes allowed key); [apply consistent_handleCommand, H|exact H].
  - destruct H as [H1 _]. split; [exact H1|]. split; [simpl; lia|constructor].
  - unfold historyClick. destruct (nth_error (history st) i); [|exact H].
    apply consistent_animateValue, consistent_setExpr, H.
Qed.

Lemma consistent_handleAll (evs : list event) :
  forall st : calculator,
    consistent Math_pow st -> consistent Math_pow (handleAll Math_pow evs st).
Proof.
  induction evs as [|ev evs IH]; intros st H; [exact H|].
  apply IH, consistent_handle, H.
Qed.

End Events.

(** X15. Through every sequence of clicks and keys from the initial
    state, the expression on display is the expression, the history
    holds at most 100 entries, and every entry records an expression
    whose evaluation succeeded, with the formatted value. *)
Theorem events_keep_consistent (Math_pow : float -> float -> float) :
  consistent Math_pow initial
  /\ (forall (ev : event) (st : calculator),
         consistent Math_pow st -> consistent Math_pow (handle Math_pow ev st))
  /\ (forall evs : list event, consistent Math_pow (handleAll Math_pow evs initial)).
Proof.
  assert (H0 : consistent Math_pow initial).
  { split; [reflexivity|]. split; [simpl; lia|constructor]. }
  split; [exact H0|]. split; [apply consistent_handle|].
  intros evs. apply consistent_handleAll, H0.
Qed.

Lemma events_keep_consistent_witness :
  let st := handleAll samplePow
              [KeyDown (js "2"); KeyDown (js "+"); KeyDown (js "3"); KeyDown (js "Enter");
               Click (js "AC"); Click (js "7"); Click (js "=")] initial in
  consistent samplePow st
  /\ history st = [{| entryExpr := js "7"; entryResult := js "7" |};
                   {| entryExpr := js "2+3"; entryResult := js "5" |}].
Proof.
  intros st. split; [|reflexivity].
  destruct (events_keep_consistent samplePow) as [_ [_ H]]. apply H.
Defined.

(** ** Keys, the live value and ['='] *)

Lemma includes_In (s : jsstring) (c : char) : includes s [c] = true -> In c s.
Proof.
  induction s as [|a s IH]; [discriminate|].
  cbn [includes startsWith]. rewrite orb_true_iff, andb_true_r. intros [H|H].
  - apply N.eqb_eq in H. left. symmetry. exact H.
  - right. apply IH, H.
Qed.

Section Keys.

Variable Math_pow : float -> float -> float.

Lemma handleCommand_appended (cmd : jsstring) (st : calculator) :
  isAppended cmd = true ->
  handleCommand Math_pow cmd st
  = let st' := setExpr (expression st ++ cmd) st in
    match evaluateExpression Math_pow (expression st ++ cmd ++ cmd) with
    | Ok v => animateValue (formatNumber v) st'
    | Throw _ => st'
    end.
Proof.
  unfold isAppended. rewrite !andb_true_iff, !negb_true_iff.
  intros [[[H1 H2] H3] H4]. unfold handleCommand. rewrite H1, H2, H3, H4.
  cbn [setExpr expression]. rewrite <- app_assoc. reflexivity.
Qed.

Lemma handleCommand_key (c : char) (st : calculator) :
  In c allowed -> expression (handleCommand Math_pow [c] st) = expression st ++ [c].
Proof.
  intros Hin.
  destruct (jsstring_eqb [c] (js "%")) eqn:E3.
  { apply jsstring_eqb_eq in E3. injection E3 as ->. reflexivity. }
  rewrite handleCommand_appended.
  - cbv zeta. destruct (evaluateExpression Math_pow _); reflexivity.
  - unfold isAppended. rewrite E3.
    replace (jsstring_eqb [c] (js "AC")) with false
      by (symmetry; apply not_true_is_false; intros H; apply jsstring_eqb_eq in H;
          discriminate H).
    replace (jsstring_eqb [c] plusMinus) with false.
    2:{ symmetry. apply not_true_is_false. intros H. apply jsstring_eqb_eq in H.
        injection H as ->. vm_compute in Hin. intuition discriminate. }
    replace (jsstring_eqb [c] (js "=")) with false; [reflexivity|].
    symmetry. apply not_true_is_false. intros H. apply jsstring_eqb_eq in H.
    injection H as ->. vm_compute in Hin. intuition discriminate.
Qed.

Lemma keydown_key (c : char) (st : calculator) :
  includes allowed [c] = true ->
  expression (keydown Math_pow [c] st) = expression st ++ [c].
Proof.
  intros H. unfold keydown.
  replace (jsstring_eqb [c] (js "Enter")) with false
    by (symmetry; apply not_true_is_false; intros E; apply jsstring_eqb_eq in E;
        discriminate E).
  replace (jsstring_eqb [c] (js "Backspace")) with false
    by (symmetry; apply not_true_is_false; intros E; apply jsstring_eqb_eq in E;
        discriminate E).
  rewrite H. apply handleCommand_key, includes_In, H.
Qed.

Lemma keydown_keys (text : jsstring) :
  forallb (fun c => includes allowed [c]) text = true ->
  forall st : calculator,
    expression (handleAll Math_pow (map (fun c => KeyDown [c]) text) st)
    = expression st ++ text.
Proof.
  induction text as [|c text IH]; intros H st.
  - simpl. rewrite app_nil_r. reflexivity.
  - simpl in H. apply andb_true_iff in H as [Hc H].
    simpl. rewrite (IH H), (keydown_key c st Hc), <- app_assoc. reflexivity.
Qed.

Lemma backspaces (text : jsstring) :
  forall (s : jsstring) (st : calculator),
    expression st = s ++ text ->
    expression (handleAll Math_pow
                  (repeat (KeyDown (js "Backspace")) (List.length text)) st) = s.
Proof.
  induction text as [|c text IH] using rev_ind; intros s st E.
  - simpl. rewrite E, app_nil_r. reflexivity.
  - rewrite length_app. simpl List.length. rewrite Nat.add_comm. simpl.
    apply IH. change (keydown Math_pow (js "Backspace") st)
      with (setExpr (removelast (expression st)) st).
    cbn [setExpr expression]. rewrite E, app_assoc. apply removelast_last.
Qed.

End Keys.

(** X11. Typing allowed keys appends them to the expression one by one,
    and as many Backspace keys take them away again. *)
Theorem keys_type_and_erase (Math_pow : float -> float -> float)
    (text : jsstring) (st : calculator) :
  forallb (fun c => includes allowed [c]) text = true ->
  let typed := handleAll Math_pow (map (fun c => KeyDown [c]) text) st in
  expression typed = expression st ++ text
  /\ expression (handleAll Math_pow
                   (repeat (KeyDown (js "Backspace")) (List.length text)) typed)
     = expression st.
Proof.
  intros H typed.
  assert (E : expression typed = expression st ++ text) by apply (keydown_keys _ _ H).
  split; [exact E|]. apply (backspaces Math_pow text (expression st) typed E).
Qed.

Lemma keys_type_and_erase_witness :
  let typed := handleAll samplePow (map (fun c => KeyDown [c]) (js "(1+2)*3%")) initial in
  expression typed = js "(1+2)*3%"
  /\ expression (handleAll samplePow (repeat (KeyDown (js "Backspace")) 8) typed) = [].
Proof.
  apply (keys_type_and_erase samplePow (js "(1+2)*3%") initial). reflexivity.
Defined.

(** X12. The live value of a command that is appended counts the
    command twice: the expression becomes [expression + cmd], and the
    value shown is that of [expression + cmd + cmd] (the old value stays
    when that does not evaluate).  Typing the digit [d] after the digits
    [p] shows the number [p d d]. *)
Theorem live_value_repeats_command (Math_pow : float -> float -> float)
    (st : calculator) :
  (forall cmd : jsstring,
      isAppended cmd = true ->
      let st' := handleCommand Math_pow cmd st in
      expression st' = expression st ++ cmd
      /\ valueText st'
         = match evaluateExpression Math_pow (expression st ++ cmd ++ cmd) with
           | Ok v => formatNumber v
           | Throw _ => valueText st
           end)
  /\ (forall d : char,
         isDigit d = true -> forallb isDigit (expression st) = true ->
         valueText (handleCommand Math_pow [d] st)
         = formatNumber (Number (expression st ++ [d; d]))).
Proof.
  split.
  - intros cmd H st'. unfold st'. rewrite (handleCommand_appended Math_pow cmd st H).
    cbv zeta. destruct (evaluateExpression Math_pow _); split; reflexivity.
  - intros d Hd He.
    assert (Happ : isAppended [d] = true).
    { unfold isAppended. rewrite !andb_true_iff, !negb_true_iff.
      repeat split; apply not_true_is_false; intros H; apply jsstring_eqb_eq in H;
        try discriminate H; injection H as ->; discriminate Hd. }
    rewrite (handleCommand_appended Math_pow [d] st Happ). cbv zeta.
    assert (Hlit : isLiteral (expression st ++ [d] ++ [d]) = true).
    { unfold isLiteral. rewrite !forallb_app.
      replace (forallb isNumChar (expression st)) with true.
      - simpl. unfold isNumChar. rewrite Hd. destruct (expression st); reflexivity.
      - symmetry. apply (forallb_impl isDigit); [|exact He].
        intros c Hc. unfold isNumChar. rewrite Hc. reflexivity. }
    destruct (evaluateExpression_literal Math_pow _ Hlit) as [_ ->]. reflexivity.
Qed.

Lemma live_value_repeats_command_witness :
  let st := handleAll samplePow [Click (js "1"); Click (js "2")] initial in
  expression st = js "12" /\ valueText st = js "122".
Proof.
  intros st. split; [reflexivity|].
  destruct (live_value_repeats_command samplePow (handleCommand samplePow (js "1") initial))
    as [_ H].
  apply (H (code "2")); reflexivity.
Defined.

Lemma handleCommand_equals (Math_pow : float -> float -> float) (st : calculator) :
  handleCommand Math_pow (js "=") st
  = match evaluateExpression Math_pow (expression st) with
    | Ok res =>
      let str := formatNumber res in
      animateValue str
        (setExpr str (setLastResult res (pushHistoryItem (expression st) str st)))
    | Throw _ => animateValue (js "Error") st
    end.
Proof. reflexivity. Qed.

Lemma pushed_first (item : entry) (h : list entry) :
  nth_error (if (100 <? List.length (item :: h))%nat
             then removelast (item :: h) else item :: h) 0 = Some item.
Proof.
  destruct (100 <? List.length (item :: h))%nat eqn:E; [|reflexivity].
  destruct h as [|b h]; [discriminate E|reflexivity].
Qed.

(** X13. The equals key.  When the expression does not evaluate, only
    the value on display changes, to "Error".  When it evaluates to [v],
    the formatted [v] becomes the expression and the value on display,
    [v] the last result, and the evaluation is recorded first in the
    history, where a click brings the expression back.  The expression
    becomes "Error" exactly when the value is not finite (or when it was
    "Error" already). *)
Theorem equals_key (Math_pow : float -> float -> float) (st : calculator) :
  let st' := handleCommand Math_pow (js "=") st in
  (forall e : error,
      evaluateExpression Math_pow (expression st) = Throw e ->
      st' = animateValue (js "Error") st)
  /\ (forall v : float,
         evaluateExpression Math_pow (expression st) = Ok v ->
         expression st' = formatNumber v /\ valueText st' = formatNumber v
         /\ lastResult st' = Some v
         /\ nth_error (history st') 0
            = Some {| entryExpr := expression st; entryResult := formatNumber v |}
         /\ expression (historyClick 0 st') = expression st)
  /\ (expression st' = js "Error"
      <-> (exists v : float,
              evaluateExpression Math_pow (expression st) = Ok v /\ isFinite v = false)
          \/ expression st = js "Error").
Proof.
  intros st'. unfold st'.
  rewrite handleCommand_equals.
  pose proof pushed_first as Hhead.
  destruct (evaluateExpression Math_pow (expression st)) as [res|err] eqn:E.
  - split; [discriminate|]. split.
    + intros v Hv. injection Hv as <-. cbv zeta.
      repeat split.
      * apply Hhead.
      * unfold historyClick. cbn [history animateValue setExpr setLastResult pushHistoryItem].
        rewrite Hhead. reflexivity.
    + cbv zeta. cbn [expression animateValue setExpr]. rewrite formatNumber_Error_iff.
      split.
      * intros H. left. exists res. auto.
      * intros [[v [Hv Hf]]|H]; [injection Hv as <-; exact Hf|].
        rewrite H in E. discriminate E.
  - split; [reflexivity|]. split; [discriminate|].
    cbn [expression animateValue]. split; [auto|].
    intros [[v [Hv _]]|H]; [discriminate Hv|exact H].
Qed.

Lemma equals_key_witness :
  let st := setExpr (js "1/0") initial in
  handleCommand samplePow (js "=") st = animateValue (js "Error") st
  /\ expression (handleCommand samplePow (js "=") (setExpr (js "sqrt(0-1)") initial))
     = js "Error".
Proof.
  intros st. split.
  - destruct (equals_key samplePow st) as [H _]. apply (H DivideByZero). reflexivity.
  - destruct (equals_key samplePow (setExpr (js "sqrt(0-1)") initial)) as [_ [_ H]].
    apply H. left. exists nan. split; reflexivity.
Defined.

(** ** From the formatted text back to the number *)

Section RoundTrip.

Local Open Scope Z_scope.

Lemma binary_round_aux_even (s : bool) (q : positive) (e : Z) :
  Zpos (digits2_pos q) = 53 -> -1075 <= e <= 970 ->
  binary_round_aux prec emax s (Zpos (xO q)) e loc_Exact = S754_finite s q (e + 1).
Proof.
  intros Hd He. unfold binary_round_aux, shr_fexp, Zdigits2.
  assert (Hd' : Zpos (digits2_pos (xO q)) = 54).
  { change (digits2_pos (xO q)) with (Pos.succ (digits2_pos q)). lia. }
  assert (E : fexp prec emax (Zpos (digits2_pos (xO q)) + e) - e = 1).
  { rewrite Hd'. unfold fexp, emin, prec, emax. lia. }
  rewrite E.
  cbn [shr shr_record_of_loc loc_of_shr_record shr_m shr_r shr_s
       round_nearest_even Zdigits2 iter_pos Pos.iter shr_1 orb].
  assert (E' : fexp prec emax (Zpos (digits2_pos q) + (e + 1)) - (e + 1) = 0).
  { rewrite Hd. unfold fexp, emin, prec, emax. lia. }
  rewrite E'.
  cbn [shr shr_record_of_loc loc_of_shr_record shr_m shr_r shr_s].
  assert (H : (e + 1 <=? emax - prec) = true) by (apply Z.leb_le; unfold emax, prec; lia).
  rewrite H. reflexivity.
Qed.

(** The quotient of the integer [p] by 1, as [Number] computes it. *)
Lemma SFdiv_integer (p : positive) :
  Zpos p < 2 ^ 53 ->
  exists (m : positive) (e : Z),
    SFdiv prec emax (S754_finite false p 0) (S754_finite false 1 0)
    = S754_finite false m e
    /\ Zpos (digits2_pos m) = 53 /\ -52 <= e <= 0
    /\ (magnitude m e == inject_Z (Zpos p))%Q.
Proof.
  intros Hp. pose proof (digits2_bounds p) as [Hlow _].
  assert (Hd : Zpos (digits2_pos p) <= 53).
  { destruct (Z_le_gt_dec (Zpos (digits2_pos p)) 53) as [H|H]; [exact H|].
    assert (2 ^ 53 <= 2 ^ (Zpos (digits2_pos p) - 1)) by (apply Z.pow_le_mono_r; lia).
    lia. }
  unfold SFdiv, SFdiv_core_binary.
  change (Zdigits2 1) with 1. change (Zdigits2 (Zpos p)) with (Zpos (digits2_pos p)).
  assert (E : Z.min (fexp prec emax (Zpos (digits2_pos p) + 0 - (1 + 0))) (0 - 0)
              = Zpos (digits2_pos p) - 54).
  { unfold fexp, emin, prec, emax. lia. }
  rewrite E.
  destruct (0 - 0 - (Zpos (digits2_pos p) - 54)) as [|k|k] eqn:Ek; [lia| |lia].
  assert (Hk : Zpos k = 54 - Zpos (digits2_pos p)) by lia.
  assert (Es : Z.shiftl (Zpos p) (Zpos k) = Zpos (Pos.iter xO p k)).
  { symmetry. apply (Pos.iter_swap_gen _ _ Zpos xO (Z.mul 2)). reflexivity. }
  rewrite Es.
  assert (Eq : exists q : positive,
             Pos.iter xO p k = xO q /\ Zpos (digits2_pos q) = 53
             /\ Zpos q = Zpos p * 2 ^ (Zpos k - 1)).
  { destruct (Pos.eq_dec k 1) as [->|Hk1].
    - exists p. split; [reflexivity|]. split; [lia|]. simpl. lia.
    - destruct (Pos.succ_pred_or k) as [->|Ek']; [contradiction|].
      destruct (iter_xO p (Pos.pred k)) as [Hv Hdig].
      exists (Pos.iter xO p (Pos.pred k)).
      split; [rewrite <- Ek' at 1; apply Pos.iter_succ|].
      split; [rewrite Hdig; lia|].
      rewrite Hv. f_equal. f_equal. lia. }
  destruct Eq as [q [-> [Hdq Hvq]]].
  assert (Ed : Z.div_eucl (Zpos (xO q)) 1 = (Zpos (xO q), 0)).
  { pose proof (Z.div_1_r (Zpos (xO q))) as H1.
    pose proof (Z.mod_1_r (Zpos (xO q))) as H2.
    unfold Z.div, Z.modulo in H1, H2.
    destruct (Z.div_eucl (Zpos (xO q)) 1) as [a b]. subst. reflexivity. }
  rewrite Ed. change (new_location 1 0) with loc_Exact.
  exists q, (Zpos (digits2_pos p) - 53).
  split; [|split; [exact Hdq|split; [lia|]]].
  - replace (Zpos (digits2_pos p) - 53) with (Zpos (digits2_pos p) - 54 + 1) by lia.
    apply binary_round_aux_even; [exact Hdq|lia].
  - unfold magnitude. rewrite Hvq, inject_Z_mult.
    replace (Zpos (digits2_pos p) - 53) with (- (Zpos k - 1)) by lia.
    rewrite Qpower_opp, <- pow2_Z by lia.
    field. apply Qpower_not_0. discriminate.
Qed.

Lemma magnitude_scaled (m : positive) (e : Z) :
  -52 <= e <= 0 ->
  (magnitude m e * inject_Z (2 ^ 52) == inject_Z (Zpos m * 2 ^ (e + 52)))%Q.
Proof.
  intros He. unfold magnitude. rewrite inject_Z_mult.
  rewrite <- !pow2_Z by lia. rewrite <- Qmult_assoc, <- Qpower_plus by discriminate.
  reflexivity.
Qed.

Lemma canonical_unique (m m' : positive) (e e' : Z) :
  Zpos (digits2_pos m) = 53 -> Zpos (digits2_pos m') = 53 ->
  -52 <= e <= 0 -> -52 <= e' <= 0 ->
  (magnitude m e == magnitude m' e')%Q -> m = m' /\ e = e'.
Proof.
  intros Hd Hd' He He' Hq.
  pose proof (digits2_bounds m) as [L U]. pose proof (digits2_bounds m') as [L' U'].
  rewrite Hd in L, U. rewrite Hd' in L', U'.
  change (2 ^ (53 - 1)) with 4503599627370496 in L, L'.
  change (2 ^ 53) with 9007199254740992 in U, U'.
  assert (H : Zpos m * 2 ^ (e + 52) = Zpos m' * 2 ^ (e' + 52)).
  { apply inject_Z_injective. rewrite <- !magnitude_scaled by lia. rewrite Hq. reflexivity. }
  assert (Hcase : forall (a b : positive) (i j : Z),
             4503599627370496 <= Zpos a < 9007199254740992 ->
             4503599627370496 <= Zpos b < 9007199254740992 ->
             0 <= i -> i < j -> Zpos a * 2 ^ i = Zpos b * 2 ^ j -> False).
  { intros a b i j Ha Hb Hi Hij E.
    replace j with (i + (j - i)) in E by lia.
    rewrite Z.pow_add_r in E by lia.
    assert (Hpi : 0 < 2 ^ i) by (apply Z.pow_pos_nonneg; lia).
    assert (Hpd : 2 ^ 1 <= 2 ^ (j - i)) by (apply Z.pow_le_mono_r; lia).
    change (2 ^ 1) with 2 in Hpd.
    rewrite (Z.mul_comm (2 ^ i)), Z.mul_assoc in E.
    apply Z.mul_cancel_r in E; [|lia]. nia. }
  destruct (Z.lt_trichotomy e e') as [Hlt|[Heq|Hgt]].
  - exfalso. apply (Hcase m m' (e + 52) (e' + 52)); lia.
  - subst e'. split; [|reflexivity].
    assert (Hp : 0 < 2 ^ (e + 52)) by (apply Z.pow_pos_nonneg; lia).
    apply Z.mul_cancel_r in H; [|lia]. congruence.
  - exfalso. apply (Hcase m' m (e' + 52) (e + 52)); lia.
Qed.

Lemma integral_unique (y y' : float) (z : Z) :
  integral y z -> integral y' z -> y = y'.
Proof.
  intros [m [e [E [Hd [He Hq]]]]] [m' [e' [E' [Hd' [He' Hq']]]]].
  destruct (canonical_unique m m' e e' Hd Hd' He He') as [-> ->].
  { rewrite Hq, Hq'. reflexivity. }
  apply Prim2SF_inj. rewrite E, E'. reflexivity.
Qed.

Lemma integral_finite (y : float) (z : Z) : integral y z -> isFinite y = true.
Proof.
  intros [m [e [E _]]]. destruct (isFinite y) eqn:H; [reflexivity|].
  apply isFinite_false in H as [H|[s H]]; rewrite E in H; discriminate H.
Qed.

Lemma valid_canonical (s : bool) (m : positive) (e : Z) :
  Zpos (digits2_pos m) = 53 -> -52 <= e <= 0 ->
  valid_binary (S754_finite s m e) = true.
Proof.
  intros Hd He.
  unfold valid_binary, bounded, canonical_mantissa, fexp, emin, prec, emax.
  rewrite Hd. apply andb_true_iff. split; [apply Z.eqb_eq|apply Z.leb_le]; lia.
Qed.

(** The binary64 of a positive integer, as [Number] reads it from its
    digits. *)
Lemma decimalToFloat_integer (p : positive) :
  Zpos p < 2 ^ 53 -> integral (decimalToFloat (Zpos p) 0) (Zpos p).
Proof.
  intros Hp. destruct (SFdiv_integer p Hp) as [m [e [E [Hd [He Hq]]]]].
  exists m, e. split; [|auto].
  unfold decimalToFloat. change (Z.to_pos (10 ^ Z.of_nat 0)) with 1%positive.
  rewrite E. apply Prim2SF_SF2Prim, valid_canonical; assumption.
Qed.

Lemma integral_opp (x : float) (p : positive) :
  integral x (Zpos p) -> integral (0 - x)%float (Zneg p).
Proof.
  intros [m [e [E H]]]. exists m, e. split; [|exact H].
  rewrite sub_spec, E. reflexivity.
Qed.

Lemma ltb_2p53 (n : float) (s : bool) (m : positive) (e : Z) :
  Prim2SF n = S754_finite s m e -> (abs n <? 0x1p+53)%float = true -> e <= 0.
Proof.
  intros E H. destruct (finite_valid n s m e E) as [_ [_ Hn]].
  rewrite ltb_spec, abs_spec, E in H.
  change (Prim2SF 0x1p+53) with (S754_finite false 4503599627370496 1) in H.
  unfold SFltb, SFabs, SFcompare in H.
  destruct (Z.compare_spec e 1) as [->|He|He]; [|lia|discriminate H].
  exfalso. destruct Hn as [Hn|Hn]; [|discriminate Hn].
  destruct (Pos.compare_cont Eq m 4503599627370496) eqn:Ec; try discriminate H.
  pose proof (proj1 (Pos.compare_lt_iff m 4503599627370496) Ec) as Hlt.
  pose proof (digits2_bounds m) as [L _]. rewrite Hn in L.
  change (2 ^ (53 - 1)) with 4503599627370496 in L.
  clear - L Hlt. apply Pos2Z.pos_lt_pos in Hlt. lia.
Qed.

End RoundTrip.

Section RoundTripValue.

Local Open Scope Z_scope.

Lemma round_below_53 (n : float) (s : bool) (m : positive) (e : Z) :
  Prim2SF n = S754_finite s m e -> e < 0 ->
  Z.abs (Qfloor (toQ n + (1 # 2))) < 2 ^ 53.
Proof.
  intros E He0. destruct (finite_valid n s m e E) as [Hd [He Hn]].
  pose proof (toQ_finite n s m e E) as Hq.
  set (z := Qfloor (toQ n + (1 # 2))).
  pose proof (Qfloor_le (toQ n + (1 # 2))) as H1.
  pose proof (Qlt_floor (toQ n + (1 # 2))) as H2. fold z in H1, H2.
  pose proof (magnitude_pos m e) as Hm0.
  assert (Hm : (magnitude m e < inject_Z (2 ^ 52))%Q).
  { unfold magnitude.
    pose proof (pow2_half (e + 1) ltac:(lia)) as Hh.
    replace (e + 1 - 1) with e in Hh by lia.
    pose proof (pow2_pos e) as Hp.
    pose proof (digits2_bounds m) as [_ Hup].
    assert (Hm53 : Zpos m < 2 ^ 53).
    { assert (2 ^ Zpos (digits2_pos m) <= 2 ^ 53) by (apply Z.pow_le_mono_r; lia).
      lia. }
    assert (HM : (inject_Z (Zpos m) < inject_Z (2 ^ 53))%Q)
      by (rewrite <- Zlt_Qlt; exact Hm53).
    change (inject_Z (2 ^ 53)) with (9007199254740992 # 1)%Q in HM.
    change (inject_Z (2 ^ 52)) with (4503599627370496 # 1)%Q.
    set (M := inject_Z (Zpos m)) in *. set (P := Qpower 2 e) in *.
    assert (HM0 : (0 < M)%Q) by reflexivity.
    apply Qle_lt_trans with (y := (M * (1 # 2))%Q).
    - rewrite (Qmult_comm M P), (Qmult_comm M (1 # 2)).
      apply Qmult_le_compat_r; [exact Hh|apply Qlt_le_weak, HM0].
    - lra. }
  change (inject_Z (2 ^ 52)) with (4503599627370496 # 1)%Q in Hm.
  assert (Hx : (- (4503599627370496 # 1) < toQ n < (4503599627370496 # 1))%Q).
  { rewrite Hq. destruct s; lra. }
  assert (H3 : (inject_Z z < inject_Z (4503599627370496 + 1))%Q).
  { rewrite inject_Z_plus. change (inject_Z 4503599627370496) with (4503599627370496 # 1)%Q.
    change (inject_Z 1) with 1%Q. lra. }
  assert (H4 : (inject_Z (- 4503599627370496 - 1) < inject_Z z)%Q).
  { rewrite inject_Z_plus in H2. change (inject_Z 1) with 1%Q in H2.
    change (inject_Z (- 4503599627370496 - 1)) with (- (4503599627370496 # 1) - 1)%Q.
    lra. }
  rewrite <- Zlt_Qlt in H3, H4.
  change (2 ^ 53) with 9007199254740992. lia.
Qed.

Lemma toQ_integral (y : float) (z : Z) : integral y z -> (toQ y == inject_Z z)%Q.
Proof.
  intros [m [e [E [_ [_ Hq]]]]]. rewrite (toQ_finite y _ m e E).
  destruct (z <? 0) eqn:Hz; rewrite Hq.
  - apply Z.ltb_lt in Hz. rewrite <- inject_Z_opp. f_equiv. lia.
  - apply Z.ltb_ge in Hz. f_equiv. lia.
Qed.

Lemma integral_nonzero (y : float) (z : Z) : integral y z -> z <> 0 /\ Z.abs z < 2 ^ 53.
Proof.
  intros [m [e [_ [Hd [He Hq]]]]].
  pose proof (magnitude_pos m e) as Hp. rewrite Hq in Hp.
  change 0%Q with (inject_Z 0) in Hp. rewrite <- Zlt_Qlt in Hp.
  split; [lia|].
  pose proof (digits2_bounds m) as [_ U]. rewrite Hd in U.
  assert (Hle : (magnitude m e <= inject_Z (Zpos m))%Q).
  { unfold magnitude. rewrite <- (Qmult_1_r (inject_Z (Zpos m))) at 2.
    rewrite (Qmult_comm _ (Qpower 2 e)), (Qmult_comm _ 1).
    apply Qmult_le_compat_r; [|discriminate].
    destruct (Z.eq_dec e 0) as [->|Hne]; [discriminate|].
    pose proof (pow2_half (e + 1) ltac:(lia)) as Hh.
    replace (e + 1 - 1) with e in Hh by lia. lra. }
  rewrite Hq in Hle. rewrite <- Zle_Qle in Hle. lia.
Qed.

(** [Math.round] of a finite number below [2^53] in magnitude. *)
Lemma Math_round_below_53 (n : float) :
  isFinite n = true -> (abs n <? 0x1p+53)%float = true ->
  let z := Qfloor (toQ n + (1 # 2)) in
  (z = 0 /\ exists s : bool, Prim2SF (Math_round n) = S754_zero s)
  \/ integral (Math_round n) z.
Proof.
  intros Hfin Hlt z. destruct (finite_cases n Hfin) as [[s E]|[s [m [e E]]]].
  - left. split.
    + unfold z, toQ. rewrite E. reflexivity.
    + exists s. unfold Math_round. rewrite E. exact E.
  - destruct (finite_valid n s m e E) as [Hd [He Hn]].
    pose proof (ltb_2p53 n s m e E Hlt) as He0.
    pose proof (toQ_finite n s m e E) as Hq.
    unfold Math_round. rewrite E.
    destruct (0 <=? e) eqn:Hle.
    + apply Z.leb_le in Hle. assert (e = 0) by lia. subst e.
      right. exists m, 0.
      pose proof (magnitude_integer m 0 ltac:(lia)) as Hm.
      change (2 ^ 0) with 1 in Hm. rewrite Z.mul_1_r in Hm.
      assert (Hz : z = if s then - Zpos m else Zpos m).
      { unfold z. rewrite <- (Qfloor_half (if s then _ else _)). apply Qfloor_Qeq.
        rewrite Hq. destruct s; rewrite Hm; [rewrite inject_Z_opp|]; reflexivity. }
      split; [rewrite E, Hz; destruct s; reflexivity|].
      split; [lia|]. split; [lia|].
      rewrite Hm, Hz. destruct s; reflexivity.
    + apply Z.leb_gt in Hle. fold z.
      destruct (z =? 0) eqn:Hz0.
      * apply Z.eqb_eq in Hz0. left. split; [exact Hz0|].
        destruct s; [exists true|exists false]; reflexivity.
      * apply Z.eqb_neq in Hz0. right.
        pose proof (round_below_53 n s m e E Hle) as Habs. fold z in Habs.
        destruct (binary_normalize_integer z Hz0 Habs) as [mz [ez [Ez H]]].
        exists mz, ez. split; [exact Ez|exact H].
Qed.

Lemma Math_round_integral (y : float) (z : Z) : integral y z -> Math_round y = y.
Proof.
  intros Hy. destruct (integral_nonzero y z Hy) as [Hz0 Habs].
  pose proof (toQ_integral y z Hy) as Hq.
  pose proof Hy as [m [e [E [Hd [He Hm]]]]].
  unfold Math_round. rewrite E.
  destruct (0 <=? e); [reflexivity|].
  assert (Hz : Qfloor (toQ y + (1 # 2)) = z).
  { rewrite <- (Qfloor_half z). apply Qfloor_Qeq. rewrite Hq. reflexivity. }
  rewrite Hz. replace (z =? 0) with false by (symmetry; apply Z.eqb_neq, Hz0).
  apply (integral_unique _ _ z); [|exact Hy].
  destruct (binary_normalize_integer z Hz0 Habs) as [mz [ez [Ez H]]].
  exists mz, ez. split; [exact Ez|exact H].
Qed.

Lemma nearInteger_integral (y : float) (z : Z) : integral y z -> nearInteger y = true.
Proof.
  intros Hy. unfold nearInteger. rewrite (Math_round_integral y z Hy).
  destruct Hy as [m [e [E _]]].
  rewrite ltb_spec, abs_spec, sub_spec, E.
  unfold SF64sub, SFsub. rewrite Z.sub_diag. reflexivity.
Qed.

Lemma String_zero (y : float) (s : bool) :
  Prim2SF y = S754_zero s -> String_ y = js "0".
Proof. intros E. unfold String_. rewrite E. reflexivity. Qed.

Lemma Number_digits (ds : jsstring) :
  forallb isDigit ds = true -> Number ds = decimalToFloat (digitsValue ds) 0.
Proof.
  intros H. unfold Number.
  rewrite (proj2 (skip_nil_forallb isDigit ds) H).
  pose proof (run_skip isDigit ds) as E.
  rewrite (proj2 (skip_nil_forallb isDigit ds) H), app_nil_r in E. rewrite E.
  reflexivity.
Qed.

End RoundTripValue.

Lemma isLiteral_digits (ds : jsstring) :
  ds <> [] -> forallb isDigit ds = true -> isLiteral ds = true.
Proof.
  intros Hne Hds. unfold isLiteral. apply andb_true_iff. split.
  - destruct ds; [contradiction|reflexivity].
  - apply (forallb_impl isDigit); [|exact Hds].
    intros c Hc. unfold isNumChar. rewrite Hc. reflexivity.
Qed.

Section RoundTripText.

Variable Math_pow : float -> float -> float.

Lemma evaluateExpression_negative (ds : jsstring) :
  ds <> [] -> forallb isDigit ds = true ->
  evaluateExpression Math_pow (code "-" :: ds) = Ok (0 - Number ds)%float.
Proof.
  intros Hne Hds.
  pose proof (isLiteral_digits ds Hne Hds) as Hlit.
  assert (E : evaluateExpression Math_pow (code "-" :: ds)
              = evaluateExpression Math_pow (render (Bin Sub (Lit (js "0")) (Lit ds)))).
  { apply evaluateExpression_tokens; [reflexivity|]. unfold tokenize.
    rewrite (tokenize_from_operator (code "-") ds [] eq_refl).
    change (render (Bin Sub (Lit (js "0")) (Lit ds))) with (js "0" ++ code "-" :: ds).
    rewrite (tokenize_from_literal (js "0") (code "-" :: ds) [] eq_refl eq_refl).
    rewrite (tokenize_from_operator (code "-") ds _ eq_refl). reflexivity. }
  rewrite E, evaluateExpression_render.
  - reflexivity.
  - simpl. rewrite Hlit. reflexivity.
Qed.

(** The text of an integer evaluates to the integer. *)
Lemma evaluateExpression_integral (y : float) (z : Z) :
  integral y z -> evaluateExpression Math_pow (String_ y) = Ok y.
Proof.
  intros Hy. destruct (integral_nonzero y z Hy) as [Hz0 Habs].
  pose proof Hy as [m [e [E [Hd [He Hm]]]]].
  destruct (String_integer y (z <? 0)%Z m e z E) as [ds [Es [Hds Hv]]];
    [lia|left; lia|left; exact Hd|exact Hm|reflexivity|].
  destruct (Hv Habs) as [Hne Hval]. rewrite Es.
  destruct z as [|p|p]; [contradiction| |].
  - simpl app.
    pose proof (isLiteral_digits ds Hne Hds) as Hlit.
    destruct (evaluateExpression_literal Math_pow ds Hlit) as [_ ->].
    f_equal. apply (integral_unique _ _ (Zpos p)); [|exact Hy].
    rewrite (Number_digits ds Hds), Hval. apply decimalToFloat_integer, Habs.
  - change ((if (Z.neg p <? 0)%Z then js "-" else []) ++ ds) with (code "-" :: ds).
    rewrite (evaluateExpression_negative ds Hne Hds).
    f_equal. apply (integral_unique _ _ (Zneg p)); [|exact Hy].
    apply integral_opp. rewrite (Number_digits ds Hds), Hval.
    apply decimalToFloat_integer, Habs.
Qed.

Lemma formatNumber_integral (y : float) (z : Z) :
  integral y z -> formatNumber y = String_ y.
Proof.
  intros Hy. unfold formatNumber.
  rewrite (integral_finite y z Hy), (nearInteger_integral y z Hy).
  rewrite (Math_round_integral y z Hy). reflexivity.
Qed.

(** Formatting a number near an integer below [2^53] and evaluating the
    text gives a number that is formatted to the same text. *)
Lemma evaluateExpression_formatNumber (n : float) :
  isFinite n = true -> nearInteger n = true -> (abs n <? 0x1p+53)%float = true ->
  exists r : float,
    evaluateExpression Math_pow (formatNumber n) = Ok r
    /\ (r =? Math_round n)%float = true
    /\ formatNumber r = formatNumber n.
Proof.
  intros Hfin Hnear Hlt.
  assert (Ef : formatNumber n = String_ (Math_round n)).
  { unfold formatNumber. rewrite Hfin, Hnear. reflexivity. }
  destruct (Math_round_below_53 n Hfin Hlt) as [[_ [s Ez]]|Hy].
  - exists 0%float. rewrite Ef, (String_zero _ s Ez).
    split; [reflexivity|]. split; [|reflexivity].
    rewrite eqb_spec, Ez. reflexivity.
  - set (z := Qfloor (toQ n + (1 # 2))%Q) in Hy.
    exists (Math_round n). rewrite Ef.
    split; [apply (evaluateExpression_integral _ z Hy)|].
    split; [|apply (formatNumber_integral _ z Hy)].
    destruct Hy as [m [e [E _]]]. rewrite eqb_spec, E. apply SFeqb_finite.
Qed.

End RoundTripText.

(** X9. The text [formatNumber] gives for a number within [1e-12] of an
    integer, below [2^53] in magnitude, evaluates back to that integer
    ([Math.round(n)], up to the sign of zero), which is formatted to the
    same text. *)
Theorem format_evaluate_round_trip (Math_pow : float -> float -> float) (n : float) :
  isFinite n = true -> nearInteger n = true -> (abs n <? 0x1p+53)%float = true ->
  exists r : float,
    evaluateExpression Math_pow (formatNumber n) = Ok r
    /\ (r =? Math_round n)%float = true
    /\ formatNumber r = formatNumber n.
Proof. apply evaluateExpression_formatNumber. Qed.

Lemma format_evaluate_round_trip_witness :
  formatNumber (-0x1.4ffffffffffffp+5)%float = js "-42"
  /\ exists r : float,
      evaluateExpression samplePow (formatNumber (-0x1.4ffffffffffffp+5)%float) = Ok r
      /\ (r =? Math_round (-0x1.4ffffffffffffp+5)%float)%float = true
      /\ formatNumber r = formatNumber (-0x1.4ffffffffffffp+5)%float.
Proof.
  split; [reflexivity|].
  apply (format_evaluate_round_trip samplePow (-0x1.4ffffffffffffp+5)%float);
    reflexivity.
Defined.

(** X14. The equals key a second time, after a result within [1e-12] of
    an integer below [2^53] in magnitude: the expression and the value on
    display stay as they are, and the history gets the entry of the
    formatted value for itself. *)
Theorem equals_again (Math_pow : float -> float -> float)
    (st : calculator) (v : float) :
  evaluateExpression Math_pow (expression st) = Ok v ->
  isFinite v = true -> nearInteger v = true -> (abs v <? 0x1p+53)%float = true ->
  let st1 := handleCommand Math_pow (js "=") st in
  let st2 := handleCommand Math_pow (js "=") st1 in
  expression st2 = expression st1 /\ valueText st2 = valueText st1
  /\ nth_error (history st2) 0
     = Some {| entryExpr := formatNumber v; entryResult := formatNumber v |}.
Proof.
  intros Ev Hfin Hnear Hlt st1 st2.
  destruct (evaluateExpression_formatNumber Math_pow v Hfin Hnear Hlt)
    as [r [Er [_ Hr]]].
  assert (E1 : expression st1 = formatNumber v).
  { unfold st1. rewrite handleCommand_equals, Ev. reflexivity. }
  assert (V1 : valueText st1 = formatNumber v).
  { unfold st1. rewrite handleCommand_equals, Ev. reflexivity. }
  unfold st2. clearbody st1. rewrite handleCommand_equals, E1, Er. cbv zeta.
  cbn [expression valueText history animateValue setExpr setLastResult pushHistoryItem].
  rewrite Hr, V1. repeat split. apply pushed_first.
Qed.

Lemma equals_again_witness :
  let st := setExpr (js "6*7") initial in
  let st1 := handleCommand samplePow (js "=") st in
  let st2 := handleCommand samplePow (js "=") st1 in
  expression st1 = js "42"
  /\ expression st2 = expression st1 /\ valueText st2 = valueText st1
  /\ nth_error (history st2) 0
     = Some {| entryExpr := formatNumber 42%float; entryResult := formatNumber 42%float |}.
Proof.
  intros st st1 st2. split; [reflexivity|].
  apply (equals_again samplePow st 42%float); reflexivity.
Defined.

(** ** A trailing percent *)

Section PercentFacts.

Variable Math_pow : float -> float -> float.

Lemma evalRPN_from_percent (e : expr) :
  forall (rest : list token) (st : list float),
    evalRPN_from Math_pow
      (body e ++ [percent; op (code "%")] ++ spine e ++ rest) st
    = (v <- valuePercent Math_pow e ;; evalRPN_from Math_pow rest (v :: st)).
Proof.
  induction e as [text|o l _ r IHr|e _]; intros rest st.
  - reflexivity.
  - assert (Es : spine (Bin o l r) = spine r ++ [binopToken o])
      by (unfold spine; simpl; rewrite map_app; reflexivity).
    rewrite Es. cbn [body valuePercent].
    rewrite <- !app_assoc, evalRPN_from_postfix.
    destruct (value Math_pow l) as [a|err]; [|reflexivity].
    cbv beta iota delta [bind].
    rewrite (IHr _ (a :: st)).
    destruct (valuePercent Math_pow r) as [b|err]; [|reflexivity].
    cbv beta iota delta [bind].
    change (evalRPN_from Math_pow ([binopToken o] ++ rest) (b :: a :: st))
      with (st' <- evalToken Math_pow (binopToken o) (b :: a :: st) ;;
            evalRPN_from Math_pow rest st').
    rewrite evalToken_binop.
    destruct (apply Math_pow o a b); reflexivity.
  - change (spine (Paren e)) with (@nil token). cbn [body valuePercent].
    rewrite evalRPN_from_postfix.
    destruct (value Math_pow e) as [a|err]; reflexivity.
Qed.

Lemma toRPN_percent (e : expr) :
  standard e = true ->
  toRPN (tokensOf e ++ [percent])
  = Ok (body e ++ [percent; op (code "%")] ++ spine e).
Proof.
  intros Hstd. unfold toRPN.
  rewrite (toRPN_from_expr e Hstd) by (try apply guarded_nil; reflexivity).
  simpl. rewrite app_nil_r. unfold spine. rewrite drain_spine.
  rewrite <- app_assoc. reflexivity.
Qed.

Lemma tokenize_percent (e : expr) :
  standard e = true -> tokenize (render e ++ js "%") = Ok (tokensOf e ++ [percent]).
Proof.
  intros Hstd. unfold tokenize.
  rewrite (tokenize_from_render e Hstd (js "%") [] eq_refl). reflexivity.
Qed.

End PercentFacts.

(** X16. A [%] at the end of an expression divides its last operand by
    100, and nothing else: the last number, or the parenthesised
    expression the text ends with.  So ["200+10%"] is [200 + 10/100],
    and ["(1+1)%"] is [2/100]. *)
Theorem percent_last_operand (Math_pow : float -> float -> float) (e : expr) :
  standard e = true ->
  evaluateExpression Math_pow (render e ++ js "%") = valuePercent Math_pow e.
Proof.
  intros Hstd. unfold evaluateExpression.
  destruct (render_not_blank e Hstd) as [c [Hin Hc]].
  rewrite (trim_nonblank (render e ++ js "%") c (in_or_app _ _ _ (or_introl Hin)) Hc).
  rewrite (tokenize_percent e Hstd). cbv beta iota delta [bind].
  rewrite (toRPN_percent e Hstd).
  unfold evalRPN.
  replace (body e ++ [percent; op (code "%")] ++ spine e)
    with (body e ++ [percent; op (code "%")] ++ spine e ++ [])
    by (rewrite app_nil_r; reflexivity).
  rewrite evalRPN_from_percent.
  destruct (valuePercent Math_pow e); reflexivity.
Qed.

Lemma percent_last_operand_witness :
  evaluateExpression samplePow
    (render (Bin Add (Lit (js "200")) (Lit (js "10"))) ++ js "%")
  = Ok (200 + 10 / 100)%float
  /\ evaluateExpression samplePow
       (render (Paren (Bin Add (Lit (js "1")) (Lit (js "1")))) ++ js "%")
     = Ok (2 / 100)%float.
Proof.
  split.
  - rewrite (percent_last_operand samplePow (Bin Add (Lit (js "200")) (Lit (js "10"))));
      reflexivity.
  - rewrite (percent_last_operand samplePow (Paren (Bin Add (Lit (js "1")) (Lit (js "1")))));
      reflexivity.
Defined.

(** ** Numbers and operators in balance *)

Lemma filter_length_Permutation {A : Type} (f : A -> bool) (l l' : list A) :
  Permutation l l' -> List.length (filter f l) = List.length (filter f l').
Proof.
  induction 1 as [|a l l' _ IH|a b l|l l' l'' _ IH1 _ IH2]; simpl.
  - reflexivity.
  - destruct (f a); simpl; rewrite IH; reflexivity.
  - destruct (f a), (f b); reflexivity.
  - rewrite IH1. exact IH2.
Qed.

Lemma emitted_count (tokens : list token) :
  List.length (filter isNum (flat_map emitted tokens)) = List.length (filter isNum tokens)
  /\ List.length (filter isBinary (flat_map emitted tokens))
     = List.length (filter isBinary tokens).
Proof.
  induction tokens as [|t tokens [IH1 IH2]]; [split; reflexivity|].
  destruct t as [x|v|f| | |]; simpl; rewrite ?IH1, ?IH2; auto.
  destruct (negb (v =? code "%")); simpl; rewrite IH2; auto.
Qed.

Section Balance.

Variable Math_pow : float -> float -> float.

Lemma evalToken_count (t : token) (st st' : list float) :
  evalToken Math_pow t st = Ok st' ->
  (List.length st' + (if isBinary t then 1 else 0)
   = List.length st + (if isNum t then 1 else 0))%nat.
Proof.
  destruct t as [x|v|f| | |]; simpl.
  - intros H. injection H as <-. simpl. lia.
  - destruct (v =? code "%").
    + destruct st as [|a st]; [discriminate|]. intros H. injection H as <-. simpl. lia.
    + unfold binaryOperator. destruct st as [|b [|a st]]; try discriminate.
      destruct (v =? code "+"); [intros H; injection H as <-; simpl; lia|].
      destruct (v =? code "-"); [intros H; injection H as <-; simpl; lia|].
      destruct (v =? code "*"); [intros H; injection H as <-; simpl; lia|].
      destruct (v =? code "/").
      { destruct (b =? 0)%float; [discriminate|].
        intros H; injection H as <-; simpl; lia. }
      destruct (v =? code "^"); [intros H; injection H as <-; simpl; lia|discriminate].
  - destruct st as [|a st]; [discriminate|].
    destruct (callFunc f [a]); [|discriminate].
    intros H. injection H as <-. simpl. lia.
  - intros H. injection H as <-. lia.
  - intros H. injection H as <-. lia.
  - intros H. injection H as <-. lia.
Qed.

Lemma evalRPN_from_count (rpn : list token) :
  forall st st' : list float,
    evalRPN_from Math_pow rpn st = Ok st' ->
    (List.length st' + List.length (filter isBinary rpn)
     = List.length st + List.length (filter isNum rpn))%nat.
Proof.
  induction rpn as [|t rest IH]; intros st st' H.
  - injection H as <-. simpl. lia.
  - simpl in H. destruct (evalToken Math_pow t st) as [st1|err] eqn:E; [|discriminate H].
    simpl in H. apply IH in H. apply evalToken_count in E.
    simpl. destruct (isBinary t), (isNum t); simpl; lia.
Qed.

Lemma evalRPN_count (rpn : list token) (v : float) :
  evalRPN Math_pow rpn = Ok v ->
  List.length (filter isNum rpn) = S (List.length (filter isBinary rpn)).
Proof.
  unfold evalRPN. destruct (evalRPN_from Math_pow rpn []) as [st|err] eqn:E; [|discriminate].
  simpl. destruct st as [|a [|b st]]; try discriminate. intros _.
  apply evalRPN_from_count in E. simpl in E. lia.
Qed.

End Balance.

(** X17. An expression has a value only if its numbers outnumber its
    binary operators by exactly one, the [0] of each unary sign counted:
    so it is for the postfix sequence, for the tokens before conversion,
    and for the tokens of a string that is not blank. *)
Theorem numbers_outnumber_operators (Math_pow : float -> float -> float) :
  (forall (rpn : list token) (v : float),
      evalRPN Math_pow rpn = Ok v ->
      List.length (filter isNum rpn) = S (List.length (filter isBinary rpn)))
  /\ (forall (tokens rpn : list token) (v : float),
         toRPN tokens = Ok rpn -> evalRPN Math_pow rpn = Ok v ->
         List.length (filter isNum tokens) = S (List.length (filter isBinary tokens)))
  /\ (forall (s : jsstring) (tokens : list token) (v : float),
         forallb isWhite s = false -> tokenize s = Ok tokens ->
         evaluateExpression Math_pow s = Ok v ->
         List.length (filter isNum tokens) = S (List.length (filter isBinary tokens))).
Proof.
  assert (H2 : forall (tokens rpn : list token) (v : float),
             toRPN tokens = Ok rpn -> evalRPN Math_pow rpn = Ok v ->
             List.length (filter isNum tokens) = S (List.length (filter isBinary tokens))).
  { intros tokens rpn v Hr Hv. apply evalRPN_count in Hv.
    destruct (toRPN_from_emitted tokens [] [] rpn eq_refl Hr) as [Hp _].
    simpl in Hp. destruct (emitted_count tokens) as [E1 E2].
    rewrite <- E1, <- E2.
    rewrite <- (filter_length_Permutation isNum _ _ Hp).
    rewrite <- (filter_length_Permutation isBinary _ _ Hp). exact Hv. }
  split; [apply evalRPN_count|]. split; [exact H2|].
  intros s tokens v Hw Ht Hv. unfold evaluateExpression in Hv.
  rewrite blank_forallb, Hw, Ht in Hv. cbv beta iota delta [bind] in Hv.
  destruct (toRPN tokens) as [rpn|err] eqn:Er; [|discriminate Hv].
  apply (H2 tokens rpn v Er Hv).
Qed.

Lemma numbers_outnumber_operators_witness :
  let tokens := [num (js "2"); op (code "*"); num (js "0"); op (code "-"); num (js "3")] in
  List.length (filter isNum tokens) = S (List.length (filter isBinary tokens))
  /\ forall v : float, evaluateExpression samplePow (js "2+") <> Ok v.
Proof.
  intros tokens. destruct (numbers_outnumber_operators samplePow) as [_ [_ H]].
  split.
  - apply (H (js "2*-3") _ (-3)%float); reflexivity.
  - intros v Hv.
    pose proof (H (js "2+") [num (js "2"); op (code "+")] v eq_refl eq_refl Hv) as E.
    discriminate E.
Defined.

(** ** The history *)

Lemma pushed_history (item : entry) (h : list entry) :
  (List.length h <= 100)%nat ->
  (if (100 <? List.length (item :: h))%nat then removelast (item :: h) else item :: h)
  = firstn 100 (item :: h).
Proof.
  intros H. destruct (100 <? List.length (item :: h))%nat eqn:E.
  - apply Nat.ltb_lt in E. simpl in E.
    rewrite removelast_firstn_len. f_equal. simpl. lia.
  - apply Nat.ltb_ge in E. symmetry. apply firstn_all2. exact E.
Qed.

(** X18. The history is the 100 latest evaluations, newest first: an
    evaluation that succeeds is put in front of the entries there are,
    and the oldest entry is dropped when that makes 101 of them. *)
Theorem history_latest_first (Math_pow : float -> float -> float)
    (st : calculator) (v : float) :
  (List.length (history st) <= 100)%nat ->
  evaluateExpression Math_pow (expression st) = Ok v ->
  history (handleCommand Math_pow (js "=") st)
  = firstn 100 ({| entryExpr := expression st; entryResult := formatNumber v |}
                  :: history st).
Proof.
  intros Hlen Hv. rewrite handleCommand_equals, Hv. cbv zeta.
  cbn [history animateValue setExpr setLastResult pushHistoryItem].
  apply pushed_history, Hlen.
Qed.

Lemma history_latest_first_witness :
  let st := handleAll samplePow [Click (js "1"); Click (js "=")] initial in
  history (handleCommand samplePow (js "=") st)
  = firstn 100 ({| entryExpr := js "1"; entryResult := js "1" |} :: history st).
Proof.
  intros st. apply (history_latest_first samplePow st 1%float); [simpl; lia|reflexivity].
Defined.

(** X19. An entry of the history can be replayed: after any sequence of
    events, a click on an entry and then ['='] give the recorded result
    again, as the expression and as the value on display. *)
Theorem history_replay (Math_pow : float -> float -> float)
    (evs : list event) (i : nat) (item : entry) :
  let st := handleAll Math_pow evs initial in
  nth_error (history st) i = Some item ->
  let st' := handleCommand Math_pow (js "=") (historyClick i st) in
  expression (historyClick i st) = entryExpr item
  /\ expression st' = entryResult item /\ valueText st' = entryResult item.
Proof.
  intros st Hi st'.
  assert (Hc : consistent Math_pow st).
  { apply consistent_handleAll. split; [reflexivity|]. split; [simpl; lia|constructor]. }
  destruct Hc as [_ [_ Hall]]. rewrite Forall_forall in Hall.
  destruct (Hall item (nth_error_In _ _ Hi)) as [v [Hv Hr]].
  assert (E : expression (historyClick i st) = entryExpr item).
  { unfold historyClick. rewrite Hi. reflexivity. }
  split; [exact E|]. unfold st'.
  rewrite handleCommand_equals, E, Hv, Hr. split; reflexivity.
Qed.

Lemma history_replay_witness :
  let evs := [Click (js "6"); Click (js "*"); Click (js "7"); Click (js "=");
              Click (js "AC"); Click (js "1"); Click (js "=")] in
  let st := handleAll samplePow evs initial in
  let st' := handleCommand samplePow (js "=") (historyClick 1 st) in
  expression (historyClick 1 st) = js "6*7"
  /\ expression st' = js "42" /\ valueText st' = js "42".
Proof.
  intros evs st st'.
  apply (history_replay samplePow evs 1 {| entryExpr := js "6*7"; entryResult := js "42" |}).
  reflexivity.
Defined.
